(** * The activity agent of linux-agent: schedule evaluator and session state machine

    Shallow embedding of [src/modified_unified_agent.py] (classes
    [ActivityUtils] and [ActivityAgent], and the [try]/[except] of [main]).
    [src/unified_agent.py] holds the same agent without the
    [custom_commands] overrides and without the "Firefox" profile; it is
    the instance [custom_commands = ∅] of what follows.
    The other parts of the two files follow in modules of their own:
    [Installer] (class [ApplicationInstaller]), [ConfigManager] (the
    search, loading and validation of configuration files), [Autostart]
    ([create_service_file] and [setup_autostart]), and [program], which
    is [main] with its command line.

    Conventions of the embedding.
    - A Python exception is a value of [exn]; a call that may raise returns
      a [result].
    - The agent object is a record [agent] threaded through a state monad
      [M]; [M] also carries the exception and collects the observable
      events (subprocess calls, sleeps, log records) in program order.
    - Everything the agent reads from outside (the wall clock, the random
      generator, the outcome of a subprocess, a Ctrl-C arriving during a
      sleep) is answered by an oracle [env], indexed by a counter that is
      advanced at every read. Theorems quantify over all oracles. *)

From Stdlib Require Import ZArith Lia Bool Ascii String List.
From stdpp Require Import base option list strings gmap.
Import ListNotations.

Open Scope string_scope.
Open Scope list_scope.
Open Scope stdpp_scope.
Open Scope Z_scope.

(** ** Exceptions *)

Inductive exn : Type :=
| ValueError          (* strptime: the string does not match '%H:%M' *)
| OverflowError       (* datetime + timedelta leaves the supported dates *)
| IndexError          (* random.choice on an empty sequence *)
| KeyboardInterrupt.  (* SIGINT; not a subclass of Exception *)

Inductive result (A : Type) : Type :=
| Ok (a : A)
| Raise (e : exn).
Arguments Ok {A} a.
Arguments Raise {A} e.

Definition rbind {A B} (r : result A) (k : A -> result B) : result B :=
  match r with
  | Ok a => k a
  | Raise e => Raise e
  end.

Notation "'let?' x ':=' r 'in' k" := (rbind r (fun x => k))
  (at level 10, x name, r at level 100, k at level 200).

(** ** Time of day, as [datetime.time] *)

Module Tod.

Record time : Type := mk_time {
  hour : Z;
  minute : Z;
  second : Z;
  microsecond : Z
}.

(** The invariant of a [datetime.time] object. *)
Definition valid (t : time) : Prop :=
  0 <= hour t < 24 /\ 0 <= minute t < 60 /\
  0 <= second t < 60 /\ 0 <= microsecond t < 1000000.

(** Python compares two naive [time] objects as the tuples
    (hour, minute, second, microsecond). *)
Definition cmp (a b : time) : comparison :=
  match Z.compare (hour a) (hour b) with
  | Eq =>
      match Z.compare (minute a) (minute b) with
      | Eq =>
          match Z.compare (second a) (second b) with
          | Eq => Z.compare (microsecond a) (microsecond b)
          | c => c
          end
      | c => c
      end
  | c => c
  end.

(** [a <= b] *)
Definition le (a b : time) : bool :=
  match cmp a b with
  | Gt => false
  | _ => true
  end.

(** Position of a time of day on the line of one day, in microseconds
    since midnight. Used on the specification side only. *)
Definition us_of_day (t : time) : Z :=
  ((hour t * 60 + minute t) * 60 + second t) * 1000000 + microsecond t.

Definition day_us : Z := 86400000000.

End Tod.
Export Tod(time, mk_time, hour, minute, second, microsecond).

(** ** [datetime.strptime(s, '%H:%M').time()]

    [_strptime] turns the format into the regular expression
    [(?P<H>2[0-3]|[0-1]\d|\d):(?P<M>[0-5]\d|\d)], matches it at the start
    of the string and raises [ValueError] when it does not match or when
    characters remain after the match. Each [re_*] below returns the
    matches of one piece in the order in which the backtracking matcher
    tries them; the first complete match wins. Digits are the ASCII
    digits: [\d] also matches the other decimal digits of Unicode, so
    the statements about the schedule are about time strings written
    with ASCII digits. *)

Definition digit (c : ascii) : option Z :=
  let n := Z.of_N (N_of_ascii c) in
  if (48 <=? n) && (n <=? 57) then Some (n - 48) else None.

Definition re_H (s : string) : list (Z * string) :=
  (* 2[0-3] *)
  match s with
  | String c1 (String c2 r) =>
      match digit c1, digit c2 with
      | Some a, Some d => if (a =? 2) && (d <=? 3) then [(20 + d, r)] else []
      | _, _ => []
      end
  | _ => []
  end ++
  (* [0-1]\d *)
  match s with
  | String c1 (String c2 r) =>
      match digit c1, digit c2 with
      | Some a, Some d => if a <=? 1 then [(10 * a + d, r)] else []
      | _, _ => []
      end
  | _ => []
  end ++
  (* \d *)
  match s with
  | String c1 r =>
      match digit c1 with
      | Some a => [(a, r)]
      | None => []
      end
  | _ => []
  end.

Definition re_colon (s : string) : list string :=
  match s with
  | String c r => if Ascii.eqb c ":"%char then [r] else []
  | _ => []
  end.

Definition re_M (s : string) : list (Z * string) :=
  (* [0-5]\d *)
  match s with
  | String c1 (String c2 r) =>
      match digit c1, digit c2 with
      | Some a, Some d => if a <=? 5 then [(10 * a + d, r)] else []
      | _, _ => []
      end
  | _ => []
  end ++
  (* \d *)
  match s with
  | String c1 r =>
      match digit c1 with
      | Some a => [(a, r)]
      | None => []
      end
  | _ => []
  end.

(** All complete matches of the format, in matcher order. *)
Definition re_HM (s : string) : list (Z * Z * string) :=
  flat_map (fun '(h, r1) =>
    flat_map (fun r2 =>
      List.map (fun '(m, r3) => (h, m, r3)) (re_M r2))
      (re_colon r1))
    (re_H s).

Definition strptime_HM (s : string) : result time :=
  match re_HM s with
  | [] => Raise ValueError                     (* does not match format *)
  | (h, m, rest) :: _ =>
      match rest with
      | EmptyString => Ok (mk_time h m 0 0)
      | _ => Raise ValueError                  (* unconverted data remains *)
      end
  end.

(** ** Work schedule and the schedule evaluator ([ActivityUtils]) *)

(** One entry of [work_schedule['breaks']]. *)
Record break_info : Type := mk_break {
  start : string;
  duration_minutes : Z
}.

(** [config['work_schedule']]; an absent 'breaks' key is the empty list
    ([work_schedule.get('breaks', [])]). *)
Record work_schedule : Type := mk_schedule {
  start_time : string;
  end_time : string;
  breaks : list break_info
}.

(** A naive [datetime]: the date as its proleptic Gregorian ordinal
    ([date.toordinal()], 1 for 0001-01-01) and the time of day. *)
Record datetime : Type := mk_datetime {
  dt_date : Z;
  dt_time : time
}.

(** [date.max.toordinal()], 9999-12-31. *)
Definition MAXORDINAL : Z := 3652059.

Definition datetime_valid (d : datetime) : Prop :=
  1 <= dt_date d <= MAXORDINAL /\ Tod.valid (dt_time d).

(** [(datetime.combine(date, t) + timedelta(minutes=d)).time()]: the sum is
    normalised to days and a time of day; a day outside 1..MAXORDINAL
    raises [OverflowError] (which also covers a [timedelta] beyond its own
    limit of 999999999 days). Seconds and microseconds are untouched by a
    whole number of minutes. *)
Definition combine_add_minutes_time (date : Z) (t : time) (d : Z) : result time :=
  let total := date * 1440 + (hour t * 60 + minute t) + d in
  let days := total / 1440 in
  let mins := total mod 1440 in
  if (0 <? days) && (days <=? MAXORDINAL)
  then Ok (mk_time (mins / 60) (mins mod 60) (second t) (microsecond t))
  else Raise OverflowError.

Definition is_work_time (current_time : datetime) (ws : work_schedule) : result bool :=
  let current_time_only := dt_time current_time in
  let? st := strptime_HM (start_time ws) in
  let? et := strptime_HM (end_time ws) in
  Ok (Tod.le st current_time_only && Tod.le current_time_only et).

(** The body of [for break_info in breaks], returning at the first break
    whose window holds the current time. *)
Fixpoint is_break_time_loop (current_time : datetime) (bs : list break_info) : result bool :=
  match bs with
  | [] => Ok false
  | break_info :: rest =>
      let current_time_only := dt_time current_time in
      let? break_start := strptime_HM (start break_info) in
      let break_duration := duration_minutes break_info in
      let? break_end := combine_add_minutes_time (dt_date current_time) break_start break_duration in
      if Tod.le break_start current_time_only && Tod.le current_time_only break_end
      then Ok true
      else is_break_time_loop current_time rest
  end.

Definition is_break_time (current_time : datetime) (ws : work_schedule) : result bool :=
  is_break_time_loop current_time (breaks ws).

(** The three-way classification that [ActivityAgent.run] performs at the
    top of every iteration: the work-time test first, the break test only
    when it passed. *)
Inductive schedule_state : Type := OFF_HOURS | ON_BREAK | WORKING.

Definition classify (now : datetime) (ws : work_schedule) : result schedule_state :=
  let? w := is_work_time now ws in
  if negb w then Ok OFF_HOURS
  else
    let? b := is_break_time now ws in
    if b then Ok ON_BREAK else Ok WORKING.

(** The schedule of [DEFAULT_USER_CONFIG] / [USER_CONFIG]. *)
Definition default_schedule : work_schedule :=
  mk_schedule "09:00" "18:00" [mk_break "13:00" 60].

Definition at_time (h m : Z) : datetime :=
  mk_datetime 739000 (mk_time h m 0 0).

(** ** Activity catalog ([ActivityUtils.get_application_commands]) *)

(** One entry of an 'activities' list. *)
Record activity : Type := mk_activity {
  description : string;
  commands : list string
}.

(** The dictionary of one application. Any of its keys may be absent (the
    agent tests each key before it uses it); the empty dictionary has
    none. *)
Record app_commands : Type := mk_app {
  cmd_open : option string;
  cmd_close : option string;
  cmd_activities : option (list activity)
}.

Definition no_commands : app_commands := mk_app None None None.

(** The command [xdotool type 'print("Hello World")'], whose text holds
    two double quotes (character 34). *)
Definition typed_hello_world : string :=
  let dq := String (ascii_of_N 34) EmptyString in
  String.append "xdotool type 'print("
    (String.append dq (String.append "Hello World" (String.append dq ")'"))).

(** The built-in dictionary [app_configs]. *)
Definition app_configs : gmap string app_commands :=
  list_to_map [
    ("Visual Studio Code",
     mk_app (Some "code") (Some "pkill -f code") (Some [
       mk_activity "Opening a file"
         ["xdotool key ctrl+o"; "sleep 2"; "xdotool type 'main.py'"; "xdotool key Return"];
       mk_activity "Typing code"
         [typed_hello_world; "xdotool key Return"; "xdotool key ctrl+s"];
       mk_activity "Search in files"
         ["xdotool key ctrl+shift+f"; "sleep 1"; "xdotool type 'function'"; "xdotool key Return"]
     ]));
    ("Slack",
     mk_app (Some "slack") (Some "pkill -f slack") (Some [
       mk_activity "Checking messages"
         ["xdotool key ctrl+k"; "sleep 1"; "xdotool type 'general'"; "xdotool key Return"];
       mk_activity "Typing message"
         ["xdotool type 'Good morning team!'"; "xdotool key Return"]
     ]));
    ("Google Chrome",
     mk_app (Some "google-chrome") (Some "pkill -f chrome") (Some [
       mk_activity "Browsing documentation"
         ["xdotool key ctrl+l"; "xdotool type 'https://docs.python.org'"; "xdotool key Return";
          "sleep 5"; "xdotool key ctrl+f"; "xdotool type 'function'"];
       mk_activity "Opening new tab"
         ["xdotool key ctrl+t"; "xdotool type 'https://stackoverflow.com'"; "xdotool key Return"];
       mk_activity "Scrolling page"
         ["xdotool key Page_Down"; "sleep 2"; "xdotool key Page_Down"; "sleep 2"; "xdotool key Page_Up"]
     ]));
    ("Firefox",
     mk_app (Some "firefox") (Some "pkill -f firefox") (Some [
       mk_activity "Browsing web"
         ["xdotool key ctrl+l"; "xdotool type 'https://github.com'"; "xdotool key Return"]
     ]));
    ("Docker Desktop",
     mk_app (Some "docker") (Some "pkill -f docker") (Some [
       mk_activity "Checking containers"
         ["docker ps"; "sleep 2"; "docker images"];
       mk_activity "Building image"
         ["docker build -t test-app ."; "sleep 10"]
     ]))
  ].

(** An application name as the agent holds it in a variable: a string, or
    Python's [None]. *)
Definition appname : Type := option string.

(** Custom commands of the configuration come first, the built-in ones
    second, the empty dictionary last. ([custom_commands and ...] only
    guards an empty or absent dictionary, which has no key; [None] is a key
    of neither dictionary.) *)
Definition get_application_commands
    (app_name : appname) (custom_commands : gmap string app_commands) : app_commands :=
  match app_name with
  | Some key =>
      match custom_commands !! key with
      | Some c => c
      | None => default no_commands (app_configs !! key)
      end
  | None => no_commands
  end.

(** ** The agent object and its configuration *)

(** The part of the configuration dictionary that [ActivityAgent] reads
    (after [ConfigManager] supplied the defaults). *)
Record agent_config : Type := mk_config {
  username : string;
  role : string;
  cfg_work_schedule : work_schedule;
  applications_used : list string;
  cfg_custom_commands : gmap string app_commands
}.

(** The fields of an [ActivityAgent]. [app_start_time] holds a reading of
    [time.time()], here in microseconds; [session_duration] is in
    seconds. *)
Record agent : Type := mk_agent {
  config : agent_config;
  current_app : appname;
  app_start_time : option Z;
  session_duration : Z;
  custom_commands : gmap string app_commands
}.

Definition set_current_app (v : appname) (a : agent) : agent :=
  mk_agent (config a) v (app_start_time a) (session_duration a) (custom_commands a).
Definition set_app_start_time (v : option Z) (a : agent) : agent :=
  mk_agent (config a) (current_app a) v (session_duration a) (custom_commands a).
Definition set_session_duration (v : Z) (a : agent) : agent :=
  mk_agent (config a) (current_app a) (app_start_time a) v (custom_commands a).

(** Truth value of [self.current_app] (None and the empty string are
    false) and of [self.app_start_time] (None and 0.0 are false). *)
Definition truthy_str (v : appname) : bool :=
  match v with
  | Some s => negb (String.eqb s "")
  | None => false
  end.

Definition truthy_num (v : option Z) : bool :=
  match v with
  | Some x => negb (x =? 0)
  | None => false
  end.

(** ** Observable events *)

Inductive level : Type := INFO | WARNING | ERROR.

(** The records handed to [logging], one constructor per call in the
    source (the formatted duration of [run_command] is left out). *)
Inductive message : Type :=
| MsgStartingUnified
| MsgStartingAgent (user : string)
| MsgRole (r : string)
| MsgWorkSchedule (ws : work_schedule)
| MsgApplications (apps : list string)
| MsgSuccess (command : string)
| MsgCommandFailed (command : string)
| MsgCommandError (command : string)
| MsgOpening (app_name : appname)
| MsgClosing (app_name : appname)
| MsgSimulating (app_name : appname) (descr : string)
| MsgWorkTimeEnded
| MsgOutsideWorkHours
| MsgBreakClosing
| MsgBreakSleeping
| MsgPausing (pause_time : Z)
| MsgStoppedByUser
| MsgCrashed (e : exn).

(** What [subprocess.run] did: it returned with an exit status, or it
    raised an [Exception] (caught by [run_command]). *)
Inductive outcome : Type :=
| Exited (returncode : Z)
| Failed.

(** The place of a [run_command] call: on the 'open' command or on the
    'close' command of an application, or on a step of one of its
    activities. It labels the event and has no effect on execution. *)
Inductive call_site : Type :=
| OnOpen (app_name : appname)
| OnClose (app_name : appname)
| OnStep (app_name : appname).

Inductive event : Type :=
| Exec (site : call_site) (command : string) (o : outcome)
| Sleep (microseconds : Z)
| Log (lvl : level) (msg : message).

(** ** The outside world *)

Record env : Type := mk_env {
  env_now : nat -> datetime;        (* datetime.now() *)
  env_time : nat -> Z;              (* time.time(), microseconds *)
  env_random : nat -> nat;          (* the random generator *)
  env_exec : nat -> outcome;        (* subprocess.run *)
  env_interrupt : nat -> bool       (* Ctrl-C during this time.sleep *)
}.

(** ** The monad of the agent: state, exceptions, events *)

Record state : Type := mk_state {
  self : agent;
  tick : nat
}.

Definition M (A : Type) : Type := state -> result A * state * list event.

Definition ret {A} (a : A) : M A := fun s => (Ok a, s, []).

Definition bind {A B} (m : M A) (k : A -> M B) : M B :=
  fun s =>
    match m s with
    | (Ok a, s1, t1) =>
        match k a s1 with
        | (r, s2, t2) => (r, s2, t1 ++ t2)
        end
    | (Raise e, s1, t1) => (Raise e, s1, t1)
    end.

Definition raise {A} (e : exn) : M A := fun s => (Raise e, s, []).

(** [try: m except ...: h e] *)
Definition try_except {A} (m : M A) (h : exn -> M A) : M A :=
  fun s =>
    match m s with
    | (Ok a, s1, t1) => (Ok a, s1, t1)
    | (Raise e, s1, t1) =>
        match h e s1 with
        | (r, s2, t2) => (r, s2, t1 ++ t2)
        end
    end.

Definition get_self : M agent := fun s => (Ok (self s), s, []).

Definition modify_self (f : agent -> agent) : M unit :=
  fun s => (Ok tt, mk_state (f (self s)) (tick s), []).

Definition emit (e : event) : M unit := fun s => (Ok tt, s, [e]).

(** One question to the outside world. *)
Definition ask {A} (oracle : nat -> A) : M A :=
  fun s => (Ok (oracle (tick s)), mk_state (self s) (S (tick s)), []).

Definition lift {A} (r : result A) : M A :=
  match r with
  | Ok a => ret a
  | Raise e => raise e
  end.

Notation "'let*' x ':=' m 'in' k" := (bind m (fun x => k))
  (at level 10, x name, m at level 100, k at level 200).
Notation "m '>>' k" := (bind m (fun _ => k))
  (at level 90, right associativity).

Definition when (b : bool) (m : M unit) : M unit :=
  if b then m else ret tt.

(** [for x in l: body x] *)
Fixpoint for_each {A} (l : list A) (body : A -> M unit) : M unit :=
  match l with
  | [] => ret tt
  | x :: rest => body x >> for_each rest body
  end.

Definition events {A} (x : result A * state * list event) : list event := snd x.
Definition final {A} (x : result A * state * list event) : state := snd (fst x).
Definition outcome_of {A} (x : result A * state * list event) : result A := fst (fst x).

Definition seconds (n : Z) : Z := n * 1000000.

(** ** [ActivityAgent] *)

Section Agent.

Variable E : env.

Definition log (lvl : level) (msg : message) : M unit := emit (Log lvl msg).

(** [time.sleep(d)]: the sleep is where a pending Ctrl-C surfaces as
    [KeyboardInterrupt]. *)
Definition sleep (d : Z) : M unit :=
  emit (Sleep d) >>
  let* interrupted := ask (env_interrupt E) in
  if interrupted then raise KeyboardInterrupt else ret tt.

Definition time_time : M Z := ask (env_time E).

Definition datetime_now : M datetime := ask (env_now E).

(** [random.randint(a, b)], for [a <= b]. *)
Definition randint (a b : Z) : M Z :=
  let* r := ask (env_random E) in
  ret (a + Z.of_nat r mod (b - a + 1)).

(** [random.uniform(a, b)] seconds, at the resolution of a microsecond. *)
Definition uniform (a b : Z) : M Z :=
  let* r := ask (env_random E) in
  ret (seconds a + Z.of_nat r mod (seconds (b - a) + 1)).

(** [random.choice(l)]: [IndexError] on the empty list. *)
Definition choice {A} (l : list A) : M A :=
  let* r := ask (env_random E) in
  match l !! (r mod length l)%nat with
  | Some x => ret x
  | None => raise IndexError
  end.

(** [if self.current_app: k(self.current_app)] *)
Definition if_current_app (k : appname -> M unit) : M unit :=
  let* a := get_self in
  if truthy_str (current_app a) then k (current_app a) else ret tt.

(** [subprocess.run] either returns or raises an [Exception], which
    [run_command] catches. A Ctrl-C while the command runs would raise
    KeyboardInterrupt, which [except Exception] lets through; the
    embedding delivers Ctrl-C during [time.sleep] only. *)
Definition run_command (site : call_site) (command : string) : M unit :=
  let* o := ask (env_exec E) in
  emit (Exec site command o) >>
  match o with
  | Exited returncode =>
      if returncode =? 0
      then log INFO (MsgSuccess command)
      else log WARNING (MsgCommandFailed command)
  | Failed => log ERROR (MsgCommandError command)
  end.

Definition open_application (app_name : appname) : M bool :=
  let* a := get_self in
  let cmds := get_application_commands app_name (custom_commands a) in
  match cmd_open cmds with
  | Some c =>
      log INFO (MsgOpening app_name) >>
      run_command (OnOpen app_name) c >>
      modify_self (set_current_app app_name) >>
      let* now := time_time in
      modify_self (set_app_start_time (Some now)) >>
      ret true
  | None => ret false
  end.

Definition close_application (app_name : appname) : M unit :=
  let* a := get_self in
  let cmds := get_application_commands app_name (custom_commands a) in
  match cmd_close cmds with
  | Some c =>
      log INFO (MsgClosing app_name) >>
      run_command (OnClose app_name) c
  | None => ret tt
  end >>
  modify_self (set_current_app None) >>
  modify_self (set_app_start_time None).

(** The body of [for cmd in activity['commands']]. *)
Definition run_step (app_name : appname) (cmd : string) : M unit :=
  run_command (OnStep app_name) cmd >>
  let* pause := uniform 1 3 in
  sleep pause.

Definition simulate_activity (app_name : appname) : M unit :=
  let* a := get_self in
  let cmds := get_application_commands app_name (custom_commands a) in
  match cmd_activities cmds with
  | Some activities =>
      let* act := choice activities in
      log INFO (MsgSimulating app_name (description act)) >>
      for_each (commands act) (run_step app_name)
  | None => ret tt
  end.

Definition should_switch_app : M bool :=
  let* a := get_self in
  if negb (truthy_str (current_app a)) || negb (truthy_num (app_start_time a))
  then ret true
  else
    let* now := time_time in
    let elapsed := now - default 0 (app_start_time a) in
    ret (seconds (session_duration a) <=? elapsed).

Definition get_next_app : M appname :=
  let* a := get_self in
  let apps := applications_used (config a) in
  match apps with
  | [] => ret None
  | _ =>
      let available_apps := filter (fun app => Some app <> current_app a) apps in
      let available_apps :=
        match available_apps with
        | [] => apps
        | _ => available_apps
        end in
      let* app := choice available_apps in
      ret (Some app)
  end.

(** One pass through the body of [while True] in [run]; an early return
    is the [continue] of the source. *)
Definition iteration : M unit :=
  let* a := get_self in
  let* current_time := datetime_now in
  let* work := lift (is_work_time current_time (cfg_work_schedule (config a))) in
  if negb work then
    if_current_app (fun app =>
      log INFO MsgWorkTimeEnded >> close_application app) >>
    log INFO MsgOutsideWorkHours >>
    sleep (seconds 300)
  else
  let* brk := lift (is_break_time current_time (cfg_work_schedule (config a))) in
  if brk then
    if_current_app (fun app =>
      log INFO MsgBreakClosing >> close_application app) >>
    log INFO MsgBreakSleeping >>
    sleep (seconds 300)
  else
  let* switch := should_switch_app in
  when switch (
    if_current_app close_application >>
    let* pause_time := randint 30 120 in
    log INFO (MsgPausing pause_time) >>
    sleep (seconds pause_time) >>
    let* next_app := get_next_app in
    if truthy_str next_app then
      let* opened := open_application next_app in
      when opened (
        let* d := randint 300 900 in
        modify_self (set_session_duration d) >>
        sleep (seconds 5))
    else ret tt) >>
  if_current_app simulate_activity >>
  let* activity_pause := randint 10 60 in
  sleep (seconds activity_pause).

(** [while True] unrolled [fuel] times. The loop has no exit of its own:
    it either raises or is still running. *)
Inductive progress : Type := StillRunning | Returned.

Fixpoint run_loop (fuel : nat) : M progress :=
  match fuel with
  | O => ret StillRunning
  | S n => iteration >> run_loop n
  end.

Definition run (fuel : nat) : M progress :=
  let* a := get_self in
  log INFO (MsgStartingAgent (username (config a))) >>
  log INFO (MsgRole (role (config a))) >>
  log INFO (MsgWorkSchedule (cfg_work_schedule (config a))) >>
  log INFO (MsgApplications (applications_used (config a))) >>
  run_loop fuel.

(** [ActivityAgent.__init__] *)
Definition ActivityAgent_init (cfg : agent_config) : M unit :=
  let* d := randint 300 900 in
  modify_self (fun _ => mk_agent cfg None None d (cfg_custom_commands cfg)).

(** The two [except] clauses of [main]. *)
Definition on_exception (e : exn) : M progress :=
  match e with
  | KeyboardInterrupt => log INFO MsgStoppedByUser
  | _ => log ERROR (MsgCrashed e)
  end >>
  if_current_app close_application >>
  ret Returned.

(** [main] without the '--install' mode; the configuration is the
    [USER_CONFIG] of the module. This is [main] of unified_agent.py, at
    [cfg = USER_CONFIG]. In modified_unified_agent.py the name
    [USER_CONFIG] is not defined ([DEFAULT_USER_CONFIG] is), so there
    [main] raises NameError at [ActivityAgent(USER_CONFIG)] and no agent
    is created. *)
Definition main_body (cfg : agent_config) (fuel : nat) : M progress :=
  log INFO MsgStartingUnified >>
  ActivityAgent_init cfg >>
  try_except (run fuel) on_exception.

End Agent.

(** The store before [ActivityAgent(...)] is evaluated; [__init__]
    overwrites every field. *)
Definition boot (cfg : agent_config) : state :=
  mk_state (mk_agent cfg None None 0 ∅) 0.

Definition main (E : env) (cfg : agent_config) (fuel : nat)
  : result progress * state * list event :=
  main_body E cfg fuel (boot cfg).

(** The agent as [__init__] leaves it, for statements about the loop
    alone. *)
Definition fresh (E : env) (cfg : agent_config) : state :=
  final (ActivityAgent_init E cfg (boot cfg)).

(** ** Notions used by the statements *)

(** *** The schedule on the line of one day *)

(** The window of a break as [is_break_time] computes it: from its start
    to its start plus its duration, the end being taken as a time of day
    of the current date (the [.time()] of the sum), that is, reduced
    modulo 24 hours. *)
Definition break_end_us (break_start : time) (d : Z) : Z :=
  (Tod.us_of_day break_start + d * 60000000) mod Tod.day_us.

Definition in_break (now : datetime) (b : break_info) : Prop :=
  exists bs, strptime_HM (start b) = Ok bs /\
    Tod.us_of_day bs <= Tod.us_of_day (dt_time now)
      <= break_end_us bs (duration_minutes b).

(** The window of a break in the words of the specification,
    [[break.start, break.start + break.duration]] with both ends
    included: the end is the sum itself, on the line of the day, and is
    not reduced to a time of day. *)
Definition in_break_window (now : datetime) (b : break_info) : Prop :=
  exists bs, strptime_HM (start b) = Ok bs /\
    Tod.us_of_day bs <= Tod.us_of_day (dt_time now)
      <= Tod.us_of_day bs + duration_minutes b * 60000000.

(** A break whose window can be computed on the given date: its start is
    a time of day and its end falls on a supported date. *)
Definition break_evaluable (today : Z) (b : break_info) : Prop :=
  exists bs, strptime_HM (start b) = Ok bs /\
    1 <= today + (hour bs * 60 + minute bs + duration_minutes b) / 1440 <= MAXORDINAL.

(** *** Traces *)

Definition is_open (e : event) : bool :=
  match e with
  | Exec (OnOpen _) _ _ => true
  | _ => false
  end.

Definition is_close (e : event) : bool :=
  match e with
  | Exec (OnClose _) _ _ => true
  | _ => false
  end.

Definition is_exec (e : event) : bool :=
  match e with
  | Exec _ _ _ => true
  | _ => false
  end.

(** An event of activity simulation: the choice of a script, or a step. *)
Definition is_simulation (e : event) : bool :=
  match e with
  | Exec (OnStep _) _ _ => true
  | Log _ (MsgSimulating _ _) => true
  | _ => false
  end.

Definition no_simulation (tr : list event) : Prop :=
  Forall (fun e => is_simulation e = false) tr.

(** The only calls to the executor are 'close' commands. *)
Definition only_closes (tr : list event) : Prop :=
  Forall (fun e => is_exec e = true -> is_close e = true) tr.

(** The calls made to the executor, in order. *)
Fixpoint executor_calls (tr : list event) : list (call_site * string) :=
  match tr with
  | [] => []
  | Exec site c _ :: rest => (site, c) :: executor_calls rest
  | _ :: rest => executor_calls rest
  end.

(** No two 'open' commands without a 'close' command between them. *)
Definition no_double_open (tr : list event) : Prop :=
  forall t1 e1 t2 e2 t3,
    tr = t1 ++ e1 :: t2 ++ e2 :: t3 ->
    is_open e1 = true -> is_open e2 = true ->
    Exists (fun e => is_close e = true) t2.

(** The application left open by a sequence of executor calls, starting
    from [p]: the last 'open' not followed by a 'close'. *)
Fixpoint open_after (p : appname) (tr : list event) : appname :=
  match tr with
  | [] => p
  | Exec (OnOpen a) _ _ :: rest => open_after a rest
  | Exec (OnClose _) _ _ :: rest => open_after None rest
  | _ :: rest => open_after p rest
  end.

(** A checker for the bracketing of 'open' and 'close' commands: from
    [pending] (an application is open), [None] when an 'open' is issued
    while one is pending, the final status otherwise. *)
Fixpoint bracketed (pending : bool) (tr : list event) : option bool :=
  match tr with
  | [] => Some pending
  | Exec (OnOpen _) _ _ :: rest =>
      if pending then None else bracketed true rest
  | Exec (OnClose _) _ _ :: rest => bracketed false rest
  | _ :: rest => bracketed pending rest
  end.

Definition warns (tr : list event) : Prop :=
  exists msg, In (Log WARNING msg) tr.

(** *** The session *)

Definition coherent (a : agent) : Prop :=
  current_app a = None <-> app_start_time a = None.

Definition idle (a : agent) : Prop :=
  current_app a = None /\ app_start_time a = None.

(** Every dictionary that the catalog returns, unless empty, has a
    'close' command. *)
Definition every_profile_closes (custom : gmap string app_commands) : Prop :=
  forall app_name : appname,
    get_application_commands app_name custom <> no_commands ->
    is_Some (cmd_close (get_application_commands app_name custom)).

(** The application recorded as current was opened through its 'open'
    command, under a name that Python takes as true. *)
Definition opened_by_command (a : agent) : Prop :=
  forall app, current_app a = Some app ->
    app <> "" /\ is_Some (cmd_open (get_application_commands (Some app) (custom_commands a))).

(** [main] up to the point where [run] is left by an exception or the
    fuel is spent, without the [except] clauses. *)
Definition main_until_exception (E : env) (cfg : agent_config) (fuel : nat)
  : result progress * state * list event :=
  (log INFO MsgStartingUnified >> ActivityAgent_init E cfg >> run E fuel) (boot cfg).

(** *** Reasoning about the monad *)

(** A Hoare triple over the agent and the events so far: from a state and
    a history in [P], a normal return leaves [Q], an exception leaves
    [X]. *)
Definition triple {A} (P : state -> list event -> Prop) (m : M A)
    (Q : A -> state -> list event -> Prop) (X : state -> list event -> Prop) : Prop :=
  forall s h, P s h ->
    match m s with
    | (Ok a, s', t) => Q a s' (h ++ t)
    | (Raise _, s', t) => X s' (h ++ t)
    end.

(** A computation that moves the agent along [R] and emits only events
    accepted by [phi], whatever the outside world answers. *)
Definition behaves {A} (R : agent -> agent -> Prop) (phi : event -> bool) (m : M A) : Prop :=
  forall s, R (self s) (self (final (m s))) /\
            Forall (fun e => phi e = true) (events (m s)).

(** Two agents with the same session (all fields but the target length
    of the session). *)
Definition same_session (a b : agent) : Prop :=
  config a = config b /\ current_app a = current_app b /\
  app_start_time a = app_start_time b /\ custom_commands a = custom_commands b.

Definition any_change (a b : agent) : Prop := True.

(** An event that is neither an 'open' nor a 'close' command. *)
Definition neutral (e : event) : bool := negb (is_open e) && negb (is_close e).

(** What an iteration outside working time may emit: no event of
    simulation, and no executor call other than a 'close' command. *)
Definition pause_event (e : event) : bool :=
  negb (is_simulation e) && (negb (is_exec e) || is_close e).

Definition is_set (a : appname) : bool :=
  match a with
  | Some _ => true
  | None => false
  end.

(** The invariant of the session. Its last part ties the agent to the
    history of executor calls and is kept only when every profile has a
    'close' command ([tracked = true]). *)
Definition session_inv (cfg : agent_config) (tracked : bool)
    (s : state) (h : list event) : Prop :=
  config (self s) = cfg /\
  custom_commands (self s) = cfg_custom_commands cfg /\
  coherent (self s) /\
  opened_by_command (self s) /\
  (tracked = true ->
   bracketed false h = Some (is_set (current_app (self s))) /\
   open_after None h = current_app (self s)).

Definition session_inv_idle (cfg : agent_config) (tracked : bool)
    (s : state) (h : list event) : Prop :=
  session_inv cfg tracked s h /\ idle (self s).

(** A property of the agent and the history that no operation outside
    the session can break. *)
Definition stable (P : state -> list event -> Prop) : Prop :=
  forall s s' h t,
    P s h -> same_session (self s) (self s') ->
    Forall (fun e => neutral e = true) t ->
    P s' (h ++ t).

(** The session invariant while [app], a true name, is the current
    application. *)
Definition session_inv_on (cfg : agent_config) (tracked : bool) (app : appname)
    (s : state) (h : list event) : Prop :=
  session_inv cfg tracked s h /\ current_app (self s) = app /\ truthy_str app = true.

(** The record that [run_command] logs for an outcome. *)
Definition command_log (command : string) (o : outcome) : event :=
  match o with
  | Exited returncode =>
      if returncode =? 0
      then Log INFO (MsgSuccess command)
      else Log WARNING (MsgCommandFailed command)
  | Failed => Log ERROR (MsgCommandError command)
  end.

(** The session after [close_application]. *)
Definition cleared (a : agent) : agent :=
  set_app_start_time None (set_current_app None a).

Definition advance (n : nat) (s : state) : state :=
  mk_state (self s) (n + tick s).

(** ** Concrete configurations and worlds *)

(** [USER_CONFIG] of unified_agent.py ([DEFAULT_USER_CONFIG] of the
    modified agent). *)
Definition USER_CONFIG : agent_config :=
  mk_config "john_doe" "Junior Developer" default_schedule
    ["Visual Studio Code"; "Google Chrome"; "Slack"; "Docker Desktop"] ∅.

(** A world in which it is always [h]:[m], commands succeed and nobody
    presses Ctrl-C. *)
Definition calm_at (h m : Z) : env :=
  mk_env (fun _ => at_time h m) (fun k => seconds (Z.of_nat k)) (fun k => k)
    (fun _ => Exited 0) (fun _ => false).

(** The same at 10:00, with every command failing: odd calls raise, even
    calls exit with status 1. *)
Definition failing : env :=
  mk_env (fun _ => at_time 10 0) (fun k => seconds (Z.of_nat k)) (fun k => k)
    (fun k => if Nat.even k then Exited 1 else Failed) (fun _ => false).

(** The same at 10:00, with Ctrl-C during the [n]-th question to the
    world. *)
Definition interrupted_at (n : nat) : env :=
  mk_env (fun _ => at_time 10 0) (fun k => seconds (Z.of_nat k)) (fun k => k)
    (fun _ => Exited 0) (fun k => Nat.eqb k n).

(** A configuration that lists one application twice. *)
Definition config_with_duplicates : agent_config :=
  mk_config "john_doe" "Junior Developer" default_schedule ["A"; "A"] ∅.

Definition agent_on (cfg : agent_config) (app : appname) (since : option Z) : state :=
  mk_state (mk_agent cfg app since 600 (cfg_custom_commands cfg)) 0.

(** A step of the agent that cannot break the coherence of the session,
    and the event filter that accepts everything. *)
Definition keeps_coherent (a b : agent) : Prop := coherent a -> coherent b.

Definition any_event (e : event) : bool := true.

(** ** Further notions for the agent *)

(** An event that is no call to the executor. *)
Definition plain (e : event) : bool := negb (is_exec e).

(** The application on which a call to the executor is made. *)
Definition site_app (site : call_site) : appname :=
  match site with
  | OnOpen a => a
  | OnClose a => a
  | OnStep a => a
  end.

(** A call to the executor that the configuration accounts for: made on
    an application of [applications_used] whose dictionary has an 'open'
    command, with the 'open' command, the 'close' command or a command of
    one of the activities of that dictionary. *)
Definition accounted (cfg : agent_config) (site : call_site) (c : string) : Prop :=
  exists a,
    site_app site = Some a /\ a ∈ applications_used cfg /\
    let cmds := get_application_commands (Some a) (cfg_custom_commands cfg) in
    is_Some (cmd_open cmds) /\
    match site with
    | OnOpen _ => cmd_open cmds = Some c
    | OnClose _ => cmd_close cmds = Some c
    | OnStep _ =>
        exists activities act,
          cmd_activities cmds = Some activities /\ act ∈ activities /\ c ∈ commands act
    end.

Definition allowed (cfg : agent_config) (e : event) : Prop :=
  match e with
  | Exec site c _ => accounted cfg site c
  | _ => True
  end.

(** What can make the loop raise: Ctrl-C during a sleep, a schedule that
    cannot be evaluated at some reading of the clock, or an application of
    the list whose dictionary has an empty list of activities. *)
Definition crash_cause (E : env) (cfg : agent_config) : Prop :=
  (exists k, env_interrupt E k = true) \/
  (exists k e, classify (env_now E k) (cfg_work_schedule cfg) = Raise e) \/
  (exists a, a ∈ applications_used cfg /\
     cmd_activities (get_application_commands (Some a) (cfg_custom_commands cfg)) = Some []).

(** The second invariant of the session: the agent keeps its
    configuration, its current application is one of the list and was
    opened through an 'open' command, the target length of the session is
    between 300 and 900 seconds, and every call to the executor so far is
    accounted for. *)
Definition provenance_inv (cfg : agent_config) (s : state) (h : list event) : Prop :=
  config (self s) = cfg /\
  custom_commands (self s) = cfg_custom_commands cfg /\
  (forall a, current_app (self s) = Some a ->
     a <> "" /\ a ∈ applications_used cfg /\
     is_Some (cmd_open (get_application_commands (Some a) (cfg_custom_commands cfg)))) /\
  300 <= session_duration (self s) <= 900 /\
  Forall (allowed cfg) h.

(** A property of the agent and the history that survives every step
    which leaves the agent alone and calls no executor. *)
Definition steady (P : state -> list event -> Prop) : Prop :=
  forall s s' h t,
    P s h -> self s' = self s ->
    Forall (fun e => plain e = true) t ->
    P s' (h ++ t).

(** A computation that always returns, leaves the agent alone and calls
    no executor. *)
Definition calm {A} (m : M A) : Prop :=
  forall s, exists a s' t,
    m s = (Ok a, s', t) /\ self s' = self s /\ Forall (fun e => plain e = true) t.

(** The agent has configuration [cfg], the custom commands of [cfg] and
    current application [cur], and the calls to the executor so far are
    [calls]. *)
Definition at_calls (cfg : agent_config) (cur : appname)
    (calls : list (call_site * string)) (s : state) (h : list event) : Prop :=
  config (self s) = cfg /\
  custom_commands (self s) = cfg_custom_commands cfg /\
  current_app (self s) = cur /\
  executor_calls h = calls.

(** The part of [run] that picks the next application: the guarded close,
    the pause between applications, and [get_next_app]. *)
Definition pick_next (E : env) : M appname :=
  if_current_app (close_application E) >>
  let* pause_time := randint E 30 120 in
  log INFO (MsgPausing pause_time) >>
  sleep E (seconds pause_time) >>
  get_next_app E.

(** A calm world at 10:00 in which the random generator always gives
    [n]. *)
Definition drawing (n : nat) : env :=
  mk_env (fun _ => at_time 10 0) (fun k => seconds (Z.of_nat k)) (fun _ => n)
    (fun _ => Exited 0) (fun _ => false).

(** What [iteration] does once the clock was read and the schedule said
    working time. *)
Definition working_branch (E : env) : M unit :=
  let* switch := should_switch_app E in
  when switch (
    if_current_app (close_application E) >>
    let* pause_time := randint E 30 120 in
    log INFO (MsgPausing pause_time) >>
    sleep E (seconds pause_time) >>
    let* next_app := get_next_app E in
    if truthy_str next_app then
      let* opened := open_application E next_app in
      when opened (
        let* d := randint E 300 900 in
        modify_self (set_session_duration d) >>
        sleep E (seconds 5))
    else ret tt) >>
  if_current_app (simulate_activity E) >>
  let* activity_pause := randint E 10 60 in
  sleep E (seconds activity_pause).

(** An application that the agent can open and simulate: a name that is
    not empty, with an 'open' command and at least one activity. *)
Definition launchable (cfg : agent_config) (a : string) : Prop :=
  a <> "" /\
  exists c activities,
    cmd_open (get_application_commands (Some a) (cfg_custom_commands cfg)) = Some c /\
    cmd_activities (get_application_commands (Some a) (cfg_custom_commands cfg))
      = Some activities /\
    activities <> [].

(** The calls of an agent that opened [a] and ran the activity [act]. *)
Definition opened_and_simulated (cfg : agent_config) (a : string) (act : activity)
    (calls : list (call_site * string)) : Prop :=
  exists c activities,
    cmd_open (get_application_commands (Some a) (cfg_custom_commands cfg)) = Some c /\
    cmd_activities (get_application_commands (Some a) (cfg_custom_commands cfg))
      = Some activities /\
    act ∈ activities /\
    calls = (OnOpen (Some a), c) :: List.map (fun x => (OnStep (Some a), x)) (commands act).


(** ** [ApplicationInstaller]

    The class has its own object (the list [installed_apps]) and its own
    [run_command], so it lives in a module with its own monad, of the
    same shape as [M]. It reads the outside world through the same
    oracle: [env_exec] answers [subprocess.run], [env_interrupt] tells
    whether Ctrl-C arrives during a [time.sleep]. *)

Declare Scope installer_scope.

Module Installer.

Record install_info : Type := mk_install {
  check_command : string;
  install_commands : list string
}.

Definition dq : string := String (ascii_of_N 34) EmptyString.

Definition vscode_source_line : string :=
  String.append "sudo sh -c 'echo "
    (String.append dq
      (String.append "deb [arch=amd64,arm64,armhf signed-by=/etc/apt/trusted.gpg.d/packages.microsoft.gpg] https://packages.microsoft.com/repos/code stable main"
        (String.append dq " > /etc/apt/sources.list.d/vscode.list'"))).

Definition chrome_source_line : string :=
  String.append "sudo sh -c 'echo "
    (String.append dq
      (String.append "deb [arch=amd64] http://dl.google.com/linux/chrome/deb/ stable main"
        (String.append dq " >> /etc/apt/sources.list.d/google-chrome.list'"))).

Definition docker_source_line : string :=
  String.append "echo "
    (String.append dq
      (String.append "deb [arch=$(dpkg --print-architecture) signed-by=/etc/apt/keyrings/docker.gpg] https://download.docker.com/linux/ubuntu $(lsb_release -cs) stable"
        (String.append dq " | sudo tee /etc/apt/sources.list.d/docker.list > /dev/null"))).

Definition INSTALLATION_CONFIG : gmap string install_info :=
  list_to_map [
    ("vscode", mk_install "code --version"
       ["wget -qO- https://packages.microsoft.com/keys/microsoft.asc | gpg --dearmor > packages.microsoft.gpg";
        "sudo install -o root -g root -m 644 packages.microsoft.gpg /etc/apt/trusted.gpg.d/";
        vscode_source_line;
        "sudo apt update";
        "sudo apt install -y code"]);
    ("chrome", mk_install "google-chrome --version"
       ["wget -q -O - https://dl.google.com/linux/linux_signing_key.pub | sudo apt-key add -";
        chrome_source_line;
        "sudo apt update";
        "sudo apt install -y google-chrome-stable"]);
    ("slack", mk_install "slack --version"
       ["wget https://downloads.slack-edge.com/releases/linux/4.33.90/prod/x64/slack-desktop-4.33.90-amd64.deb";
        "sudo dpkg -i slack-desktop-4.33.90-amd64.deb";
        "sudo apt-get install -f -y"]);
    ("docker", mk_install "docker --version"
       ["sudo apt-get update";
        "sudo apt-get install -y ca-certificates curl gnupg lsb-release";
        "sudo mkdir -p /etc/apt/keyrings";
        "curl -fsSL https://download.docker.com/linux/ubuntu/gpg | sudo gpg --dearmor -o /etc/apt/keyrings/docker.gpg";
        docker_source_line;
        "sudo apt-get update";
        "sudo apt-get install -y docker-ce docker-ce-cli containerd.io docker-compose-plugin";
        "sudo usermod -aG docker $USER"]);
    ("xdotool", mk_install "xdotool version"
       ["sudo apt update";
        "sudo apt install -y xdotool"])
  ].

(** The records handed to [logging]. The text that [run_command]
    returns beside the success flag (stdout, stderr or the text of the
    exception) is determined by what the subprocess did; it is carried
    as that [outcome]. *)
Inductive message : Type :=
| MsgCommandExecutionFailed (command : string)
| MsgNoInstallationConfig (app_key : string)
| MsgAlreadyInstalled (app_key : string)
| MsgInstalling (app_key : string)
| MsgExecuting (cmd : string)
| MsgFailedToExecute (cmd : string) (output : outcome)
| MsgInstalledSuccessfully (app_key : string)
| MsgFailedToInstall (app_key : string)
| MsgRootRequired
| MsgUpdatingSystem
| MsgFailedContinuing (app : string)
| MsgInstallationComplete (installed : list string).

Inductive event : Type :=
| Run (command : string) (check_output : bool) (o : outcome)
| Sleep (microseconds : Z)
| Log (lvl : level) (msg : message).

Record installer : Type := mk_installer {
  installed_apps : list string
}.

Record state : Type := mk_state {
  self : installer;
  tick : nat
}.

Definition M (A : Type) : Type := state -> result A * state * list event.

Definition ret {A} (a : A) : M A := fun s => (Ok a, s, []).

Definition bind {A B} (m : M A) (k : A -> M B) : M B :=
  fun s =>
    match m s with
    | (Ok a, s1, t1) =>
        match k a s1 with
        | (r, s2, t2) => (r, s2, t1 ++ t2)
        end
    | (Raise e, s1, t1) => (Raise e, s1, t1)
    end.

Definition raise {A} (e : exn) : M A := fun s => (Raise e, s, []).

Definition get_self : M installer := fun s => (Ok (self s), s, []).

Definition modify_self (f : installer -> installer) : M unit :=
  fun s => (Ok tt, mk_state (f (self s)) (tick s), []).

Definition emit (e : event) : M unit := fun s => (Ok tt, s, [e]).

Definition ask {A} (oracle : nat -> A) : M A :=
  fun s => (Ok (oracle (tick s)), mk_state (self s) (S (tick s)), []).

Notation "'let*' x ':=' m 'in' k" := (bind m (fun x => k))
  (at level 10, x name, m at level 100, k at level 200) : installer_scope.
Notation "m '>>' k" := (bind m (fun _ => k))
  (at level 90, right associativity) : installer_scope.

Local Open Scope installer_scope.

Definition when (b : bool) (m : M unit) : M unit :=
  if b then m else ret tt.

Fixpoint for_each {A} (l : list A) (body : A -> M unit) : M unit :=
  match l with
  | [] => ret tt
  | x :: rest => body x >> for_each rest body
  end.

Definition events {A} (x : result A * state * list event) : list event := snd x.
Definition final {A} (x : result A * state * list event) : state := snd (fst x).
Definition outcome_of {A} (x : result A * state * list event) : result A := fst (fst x).

(** [result.returncode == 0]; False when [subprocess.run] raised. *)
Definition succeeded (o : outcome) : bool :=
  match o with
  | Exited returncode => returncode =? 0
  | Failed => false
  end.

(** [self.installed_apps.append(app_key)] *)
Definition append_installed (app_key : string) (a : installer) : installer :=
  mk_installer (installed_apps a ++ [app_key]).

(** [ApplicationInstaller()] *)
Definition new_installer : installer := mk_installer [].

Definition apps_to_install : list string :=
  ["xdotool"; "vscode"; "chrome"; "slack"; "docker"].

Section Installer.

Variable E : env.
Variable euid : Z.   (* os.geteuid() *)

Definition log (lvl : level) (msg : message) : M unit := emit (Log lvl msg).

Definition sleep (d : Z) : M unit :=
  emit (Sleep d) >>
  let* interrupted := ask (env_interrupt E) in
  if interrupted then raise KeyboardInterrupt else ret tt.

Definition check_root_privileges : M bool := ret (euid =? 0).

(** Both branches on [check_output] make the same call; they differ in
    the text returned. *)
Definition run_command (command : string) (check_output : bool) : M (bool * outcome) :=
  let* o := ask (env_exec E) in
  emit (Run command check_output o) >>
  match o with
  | Exited returncode => ret (returncode =? 0, o)
  | Failed =>
      log ERROR (MsgCommandExecutionFailed command) >>
      ret (false, o)
  end.

Definition is_app_installed (app_key : string) : M bool :=
  match INSTALLATION_CONFIG !! app_key with
  | None => ret true
  | Some info =>
      let* r := run_command (check_command info) true in
      ret (fst r)
  end.

(** The [for] loop of [install_app]: [Some v] when the loop was left by
    [return v], [None] when it ran to its end. *)
Fixpoint run_install_commands (cmds : list string) : M (option bool) :=
  match cmds with
  | [] => ret None
  | cmd :: rest =>
      log INFO (MsgExecuting cmd) >>
      let* r := run_command cmd false in
      if negb (fst r)
      then log ERROR (MsgFailedToExecute cmd (snd r)) >> ret (Some false)
      else sleep (seconds 2) >> run_install_commands rest
  end.

Definition install_app (app_key : string) : M bool :=
  match INSTALLATION_CONFIG !! app_key with
  | None =>
      log WARNING (MsgNoInstallationConfig app_key) >>
      ret true
  | Some info =>
      let* installed := is_app_installed app_key in
      if installed
      then log INFO (MsgAlreadyInstalled app_key) >> ret true
      else
        log INFO (MsgInstalling app_key) >>
        let* returned := run_install_commands (install_commands info) in
        match returned with
        | Some v => ret v
        | None =>
            let* verified := is_app_installed app_key in
            if verified
            then
              log INFO (MsgInstalledSuccessfully app_key) >>
              modify_self (append_installed app_key) >>
              ret true
            else
              log ERROR (MsgFailedToInstall app_key) >>
              ret false
        end
  end.

Definition install_one (app : string) : M unit :=
  let* ok := install_app app in
  when (negb ok) (log WARNING (MsgFailedContinuing app)).

Definition install_all_dependencies : M bool :=
  let* root := check_root_privileges in
  if negb root
  then log ERROR MsgRootRequired >> ret false
  else
    log INFO MsgUpdatingSystem >>
    run_command "sudo apt update" false >>
    for_each apps_to_install install_one >>
    let* a := get_self in
    log INFO (MsgInstallationComplete (installed_apps a)) >>
    ret true.

End Installer.

(** The calls to [subprocess.run] in a history, in order. *)
Definition runs (h : list event) : list (string * bool * outcome) :=
  omap (fun e => match e with
                 | Run c co o => Some (c, co, o)
                 | _ => None
                 end) h.

Definition commands_run (h : list event) : list string :=
  List.map (fun r => fst (fst r)) (runs h).

(** The two-second pauses of a history. *)
Definition pauses (h : list event) : nat :=
  length (List.filter (fun e => match e with Sleep _ => true | _ => false end) h).

(** A command that the installer may run: the system update, or the
    check command or an install command of a configured application. *)
Definition known_command (c : string) : Prop :=
  c = "sudo apt update" \/
  exists key info,
    INSTALLATION_CONFIG !! key = Some info /\
    (c = check_command info \/ c ∈ install_commands info).

(** The events of one [run_command]: the text of the exception is logged
    when [subprocess.run] raises. *)
Definition run_trace (c : string) (co : bool) (o : outcome) : list event :=
  Run c co o ::
  match o with
  | Exited _ => []
  | Failed => [Log ERROR (MsgCommandExecutionFailed c)]
  end.

(** A call that succeeded; a call made on an install command. *)
Definition run_ok (r : string * bool * outcome) : Prop :=
  succeeded (snd r) = true.

Definition run_plain (r : string * bool * outcome) : Prop :=
  snd (fst r) = false.

(** In the calls [rs], the check command of [key] failed and passed. *)
Definition freshly_installed (key : string) (rs : list (string * bool * outcome)) : Prop :=
  exists info o0 o1,
    INSTALLATION_CONFIG !! key = Some info /\
    (check_command info, true, o0) ∈ rs /\ succeeded o0 = false /\
    (check_command info, true, o1) ∈ rs /\ succeeded o1 = true.

(** The outcome with which the installation goes on after a call: a
    failed check, a successful install command. *)
Definition goes_on (r : string * bool * outcome) : Prop :=
  succeeded (snd r) = negb (snd (fst r)).

(** A run [x] of the installer from state [s] over the applications
    [keys]: the applications it has recorded are among [keys], in their
    order, and each was freshly installed; every command run is a known
    command; an exception is a Ctrl-C. *)
Definition accounts_for (E : env) {A} (keys : list string) (s : state)
    (x : result A * state * list event) : Prop :=
  (exists l', installed_apps (self (final x)) = installed_apps (self s) ++ l' /\
              l' `sublist_of` keys /\
              forall a, a ∈ l' -> freshly_installed a (runs (events x))) /\
  Forall known_command (commands_run (events x)) /\
  match outcome_of x with
  | Ok _ => True
  | Raise e => e = KeyboardInterrupt /\ exists k, env_interrupt E k = true
  end.

(** A fresh installer object at tick [k]. *)
Definition fresh (k : nat) : state := mk_state new_installer k.

End Installer.

(** A world where the first [n] subprocess calls fail and the later ones
    succeed, without Ctrl-C. *)
Definition failing_until (n : nat) : env :=
  mk_env (fun _ => at_time 10 0) (fun k => seconds (Z.of_nat k)) (fun k => k)
    (fun k => if (k <? n)%nat then Exited 1 else Exited 0) (fun _ => false).

(** ** [ConfigManager]

    Configurations are what [json.load] gives for a JSON object: a
    dictionary with string keys. The file system is read through an
    oracle for [os.path.exists]. *)

Module ConfigManager.

(** The values of a parsed JSON document. A float is kept as its
    literal. *)
#[warnings="-register-all"]
Inductive pyval : Type :=
| PyNone
| PyBool (b : bool)
| PyInt (z : Z)
| PyFloat (literal : string)
| PyStr (s : string)
| PyList (l : list pyval)
| PyDict (d : gmap string pyval).

Definition DEFAULT_CONFIG_DIR : string := "/opt/linux_agent/configs".
Definition SYSTEM_CONFIG_DIR : string := "/etc/activity_agent".

Definition DEFAULT_USER_CONFIG : gmap string pyval :=
  list_to_map [
    ("user_id", PyStr "USR0012345");
    ("username", PyStr "john_doe");
    ("full_name", PyStr "John Doe");
    ("role", PyStr "Junior Developer");
    ("work_schedule", PyDict (list_to_map [
        ("start_time", PyStr "09:00");
        ("end_time", PyStr "18:00");
        ("breaks", PyList [
            PyDict (list_to_map [
              ("start", PyStr "13:00");
              ("duration_minutes", PyInt 60)])])]));
    ("operating_system", PyStr "Linux Ubuntu 22.04");
    ("applications_used", PyList [
        PyStr "Visual Studio Code";
        PyStr "Google Chrome";
        PyStr "Slack";
        PyStr "Docker Desktop"]);
    ("activity_pattern", PyStr "Regular office hours with lunch break");
    ("department", PyStr "Development");
    ("location", PyStr "Headquarters")
  ].

Inductive message : Type :=
| MsgFoundConfigFile (config_path : string)
| MsgMissingRequiredField (field : string)
| MsgLoadedConfig (config_file : string)
| MsgFailedToLoadConfig (config_file : string)
| MsgAutoLoaded (config_path : string)
| MsgFailedToLoad (config_path : string)
| MsgUsingDefault.

Definition record : Type := level * message.

(** [s.startswith(p)] and [s.endswith(p)] *)
Definition startswith (s p : string) : bool := String.prefix p s.

Definition endswith (s p : string) : bool :=
  (String.length p <=? String.length s)%nat &&
  String.eqb (substring (String.length s - String.length p) (String.length p) s) p.

(** [os.path.join(a, b)] of posixpath: an absolute [b] replaces [a]. *)
Definition path_join (a b : string) : string :=
  if startswith b "/" then b
  else if String.eqb a "" || endswith a "/" then a +:+ b
  else a +:+ "/" +:+ b.

(** The three file names tried for a configuration name. *)
Definition possible_names (config_name : string) : list string :=
  [config_name +:+ ".json";
   config_name +:+ "_config.json";
   "user_" +:+ config_name +:+ ".json"].

Definition required_fields : list string :=
  ["username"; "work_schedule"; "applications_used"].

(** [validate_config], for a configuration that is a dictionary:
    [DEFAULT_USER_CONFIG.copy()] updated with the configuration, then
    the check of the required fields. *)
Definition validate_config (config : gmap string pyval) : gmap string pyval * list record :=
  let validated_config := config ∪ DEFAULT_USER_CONFIG in
  (validated_config,
   field ← required_fields;
   if decide (is_Some (validated_config !! field)) then []
   else [(WARNING, MsgMissingRequiredField field)]).

(** What [load_config] returns: a dictionary made by [validate_config]
    from a JSON object, or, for a JSON value that is not an object but
    that [dict.update] accepts, the defaults updated with that value. *)
Inductive config_value : Type :=
| Config (d : gmap string pyval)
| DefaultsUpdatedWith (v : pyval).

(** [load_config] returns a configuration or None, or lets the OSError
    of [os.listdir] through. *)
Inductive answer : Type :=
| Return (config : option config_value)
| RaiseOSError.

Definition truthy (s : option string) : bool :=
  match s with
  | Some x => negb (String.eqb x "")
  | None => false
  end.

Section ConfigManager.

Variable USER_CONFIG_DIR : string.     (* os.path.expanduser("~/.config/activity_agent") *)
Variable path_exists : string -> bool. (* os.path.exists *)
Variable listdir : string -> option (list string).  (* os.listdir; None: OSError *)
Variable read_json : string -> option pyval.  (* open and json.load; None: an Exception *)
Variable update_accepts : pyval -> bool.
  (* for a JSON value that is not an object: does dict.update take it? *)

(** [self.config_paths] *)
Definition config_paths : list string :=
  [DEFAULT_CONFIG_DIR; SYSTEM_CONFIG_DIR; USER_CONFIG_DIR].

(** The inner loop of [find_config_file], over the names. *)
Fixpoint find_in_dir (config_dir : string) (names : list string) : option string :=
  match names with
  | [] => None
  | name :: rest =>
      let config_path := path_join config_dir name in
      if path_exists config_path then Some config_path
      else find_in_dir config_dir rest
  end.

(** The outer loop, over the directories. *)
Fixpoint find_in_dirs (dirs : list string) (names : list string) : option string :=
  match dirs with
  | [] => None
  | config_dir :: rest =>
      match find_in_dir config_dir names with
      | Some config_path => Some config_path
      | None => find_in_dirs rest names
      end
  end.

(** The path returned, or None, and the records logged. *)
Definition find_config_file (config_name : string) : option string * list record :=
  match find_in_dirs config_paths (possible_names config_name) with
  | Some config_path => (Some config_path, [(INFO, MsgFoundConfigFile config_path)])
  | None => (None, [])
  end.

(** The paths that [find_config_file] may test, in the order of the
    search. *)
Definition candidates (config_name : string) : list string :=
  config_dir ← config_paths;
  name ← possible_names config_name;
  [path_join config_dir name].

(** [validate_config] on what [json.load] gave; None when
    [dict.update] raises. *)
Definition validate_loaded (config : pyval) : option config_value * list record :=
  match config with
  | PyDict d => (Some (Config (fst (validate_config d))), snd (validate_config d))
  | _ =>
      if update_accepts config then (Some (DefaultsUpdatedWith config), [])
      else (None, [])
  end.

(** The body of the two [try] blocks: None when an exception was
    raised, with the records logged before it. *)
Definition try_load (path : string) (loaded : message) : option config_value * list record :=
  match read_json path with
  | None => (None, [])
  | Some config =>
      let r := validate_loaded config in
      (fst r, (INFO, loaded) :: snd r)
  end.

(** The loop over the files of a directory: [Some c] when it was left by
    [return c]. *)
Fixpoint load_from_files (config_dir : string) (files : list string)
    : option config_value * list record :=
  match files with
  | [] => (None, [])
  | file :: rest =>
      if endswith file ".json" then
        let config_path := path_join config_dir file in
        match try_load config_path (MsgAutoLoaded config_path) with
        | (Some c, logs) => (Some c, logs)
        | (None, logs) =>
            let r := load_from_files config_dir rest in
            (fst r, logs ++ (WARNING, MsgFailedToLoad config_path) :: snd r)
        end
      else load_from_files config_dir rest
  end.

(** The loop over the directories, then the default configuration. *)
Fixpoint load_from_dirs (dirs : list string) : answer * list record :=
  match dirs with
  | [] => (Return (Some (Config DEFAULT_USER_CONFIG)), [(INFO, MsgUsingDefault)])
  | config_dir :: rest =>
      if path_exists config_dir then
        match listdir config_dir with
        | None => (RaiseOSError, [])
        | Some files =>
            match load_from_files config_dir files with
            | (Some c, logs) => (Return (Some c), logs)
            | (None, logs) =>
                let r := load_from_dirs rest in
                (fst r, logs ++ snd r)
            end
        end
      else load_from_dirs rest
  end.

Definition load_config (config_name : option string) : answer * list record :=
  if truthy config_name then
    let found := find_config_file (default "" config_name) in
    if truthy (fst found) then
      let config_file := default "" (fst found) in
      match try_load config_file (MsgLoadedConfig config_file) with
      | (Some c, logs) => (Return (Some c), snd found ++ logs)
      | (None, logs) =>
          (Return None, snd found ++ logs ++ [(ERROR, MsgFailedToLoadConfig config_file)])
      end
    else
      let r := load_from_dirs config_paths in
      (fst r, snd found ++ snd r)
  else load_from_dirs config_paths.

End ConfigManager.

(** A file system with the given paths and nothing else. *)
Definition only_files (paths : list string) (p : string) : bool :=
  bool_decide (p ∈ paths).

End ConfigManager.

(** ** Autostart: [create_service_file] and [setup_autostart]

    Each call that touches the file system or runs systemctl is an
    operation that works or raises an [Exception]; an oracle tells which,
    operation by operation. *)

Declare Scope autostart_scope.

Module Autostart.

Definition newline : string := String (ascii_of_N 10) EmptyString.

(** The text of the unit file, line by line. *)
Definition service_content : string :=
  String.concat newline [
    "[Unit]";
    "Description=Linux Activity Agent - User Activity Simulator";
    "After=network.target graphical-session.target";
    "Wants=graphical-session.target";
    "";
    "[Service]";
    "Type=simple";
    "ExecStart=/usr/local/bin/activity_agent --daemon";
    "WorkingDirectory=/opt/linux_agent";
    "Restart=always";
    "RestartSec=10";
    "User=root";
    "Group=root";
    "";
    "# Переменные окружения для GUI приложений";
    "Environment=DISPLAY=:0";
    "Environment=XAUTHORITY=/home/user/.Xauthority";
    "";
    "# Логирование";
    "StandardOutput=journal";
    "StandardError=journal";
    "SyslogIdentifier=activity-agent";
    "";
    "# Ограничения ресурсов";
    "MemoryMax=512M";
    "CPUQuota=50%";
    "";
    "[Install]";
    "WantedBy=multi-user.target";
    ""
  ].

Inductive operation : Type :=
| Makedirs (path : string)                  (* os.makedirs(path, exist_ok=True) *)
| Abspath                                   (* os.path.abspath(sys.argv[0]) *)
| Copy2 (source target : string)            (* shutil.copy2 *)
| Chmod (path : string) (mode : Z)          (* os.chmod *)
| WriteFile (path : string) (content : string)  (* open(path, 'w') and f.write *)
| Systemctl (args : list string).           (* subprocess.run(['systemctl', ...], check=True) *)

Inductive message : Type :=
| MsgServiceFileCreated
| MsgServiceFileFailed
| MsgAgentCopied (target_path : string)
| MsgAgentAlsoCopied (work_agent_path : string)
| MsgServiceEnabled
| MsgAutostartFailed.

Inductive event : Type :=
| Did (op : operation) (worked : bool)
| Log (lvl : level) (msg : message).

(** A computation from the number of operations attempted so far; the
    result is None when an [Exception] was raised. *)
Definition M (A : Type) : Type := nat -> option A * nat * list event.

Definition ret {A} (a : A) : M A := fun k => (Some a, k, []).

Definition bind {A B} (m : M A) (f : A -> M B) : M B :=
  fun k =>
    match m k with
    | (Some a, k1, t1) =>
        match f a k1 with
        | (r, k2, t2) => (r, k2, t1 ++ t2)
        end
    | (None, k1, t1) => (None, k1, t1)
    end.

(** [try: m except Exception: h] *)
Definition try_except {A} (m : M A) (h : M A) : M A :=
  fun k =>
    match m k with
    | (Some a, k1, t1) => (Some a, k1, t1)
    | (None, k1, t1) =>
        match h k1 with
        | (r, k2, t2) => (r, k2, t1 ++ t2)
        end
    end.

Definition log (lvl : level) (msg : message) : M unit :=
  fun k => (Some tt, k, [Log lvl msg]).

Definition when (b : bool) (m : M unit) : M unit :=
  if b then m else ret tt.

Notation "m '>>' f" := (bind m (fun _ => f))
  (at level 90, right associativity) : autostart_scope.

Local Open Scope autostart_scope.

Definition operations (h : list event) : list (operation * bool) :=
  omap (fun e => match e with
                 | Did op worked => Some (op, worked)
                 | Log _ _ => None
                 end) h.

Definition value_of {A} (x : option A * nat * list event) : option A := fst (fst x).
Definition events {A} (x : option A * nat * list event) : list event := snd x.

Definition worked (o : operation * bool) : Prop := snd o = true.

(** An operation that is not a copy of a file onto itself. *)
Definition proper (o : operation * bool) : Prop :=
  match fst o with
  | Copy2 source target => source <> target
  | _ => True
  end.

Definition is_systemctl (op : operation) : bool :=
  match op with
  | Systemctl _ => true
  | _ => false
  end.

Definition is_write (op : operation) : bool :=
  match op with
  | WriteFile _ _ => true
  | _ => false
  end.

Definition service_path : string := "/etc/systemd/system/activity-agent.service".

Section Autostart.

Variable works : nat -> bool.        (* does the k-th operation work? *)
Variable current_path : string.      (* the value of os.path.abspath(sys.argv[0]) *)
Variable make_config_dir : bool.
  (* modified_unified_agent.py creates the directory of the
     configurations; unified_agent.py does not *)

Definition attempt (op : operation) : M unit :=
  fun k => ((if works k then Some tt else None), S k, [Did op (works k)]).

Definition create_service_file : M bool :=
  try_except
    (attempt (WriteFile service_path service_content) >>
     log INFO MsgServiceFileCreated >>
     ret true)
    (log ERROR MsgServiceFileFailed >>
     ret false).

(** The value is [Some true], [Some false] or None, as in Python. *)
Definition setup_autostart : M (option bool) :=
  try_except
    (let work_dir := "/opt/linux_agent" in
     attempt (Makedirs work_dir) >>
     let config_dir := ConfigManager.path_join work_dir "configs" in
     when make_config_dir (attempt (Makedirs config_dir)) >>
     attempt Abspath >>
     let target_path := "/usr/local/bin/activity_agent" in
     when (negb (String.eqb current_path target_path))
       (attempt (Copy2 current_path target_path) >>
        attempt (Chmod target_path 493) >>
        log INFO (MsgAgentCopied target_path)) >>
     let work_agent_path := ConfigManager.path_join work_dir "activity_agent" in
     when (negb (String.eqb current_path work_agent_path))
       (attempt (Copy2 current_path work_agent_path) >>
        attempt (Chmod work_agent_path 493) >>
        log INFO (MsgAgentAlsoCopied work_agent_path)) >>
     bind create_service_file (fun created =>
       if created
       then
         attempt (Systemctl ["daemon-reload"]) >>
         attempt (Systemctl ["enable"; "activity-agent.service"]) >>
         log INFO MsgServiceEnabled >>
         ret (Some true)
       else ret None))
    (log ERROR MsgAutostartFailed >>
     ret (Some false)).

End Autostart.

(** All operations work; all work but the [n]-th. *)
Definition all_work (k : nat) : bool := true.


End Autostart.

(** ** [main] with its command line

    [main_body] is [main] without options. With '--install' the
    installer and [setup_autostart] run first; their events and those of
    the agent are kept apart by a tag. The agent goes on reading the
    oracle where the installer stopped. *)




Section CommandLine.

Variable E : env.
Variable euid : Z.
Variable works : nat -> bool.
Variable current_path : string.
Variable make_config_dir : bool.
Variable cfg : agent_config.
Variable fuel : nat.





End CommandLine.

(** * Properties *)

(** ** The schedule evaluator *)

Ltac Zbool :=
  repeat match goal with
    | H : _ && _ = true |- _ => apply andb_prop in H as [? ?]
    | H : (_ =? _) = true |- _ => apply Z.eqb_eq in H
    | H : (_ <=? _) = true |- _ => apply Z.leb_le in H
    | H : (_ <? _) = true |- _ => apply Z.ltb_lt in H
    end.

Lemma digit_range c d : digit c = Some d -> 0 <= d <= 9.
Proof.
  unfold digit. intros H.
  destruct ((48 <=? Z.of_N (N_of_ascii c)) && (Z.of_N (N_of_ascii c) <=? 57)) eqn:Hb;
    [|discriminate].
  apply andb_prop in Hb as [H1 H2]. injection H as <-. lia.
Qed.

Lemma re_H_range s h r : In (h, r) (re_H s) -> 0 <= h < 24.
Proof.
  unfold re_H. intros H.
  repeat (apply in_app_or in H as [H | H]);
    destruct s as [|c1 [|c2 s']]; simpl in H; try contradiction;
    destruct (digit c1) as [a|] eqn:Ha; try contradiction;
    try (destruct (digit c2) as [d|] eqn:Hd; try contradiction);
    try apply digit_range in Ha; try apply digit_range in Hd;
    simpl in H;
    repeat match type of H with
      | In _ (if ?b then _ else _) => destruct b eqn:?; simpl in H
      | _ \/ _ => destruct H as [H | H]
      | False => contradiction
      | (_, _) = (_, _) => injection H as <- <-
      end; Zbool; lia.
Qed.

Lemma re_M_range s m r : In (m, r) (re_M s) -> 0 <= m < 60.
Proof.
  unfold re_M. intros H.
  repeat (apply in_app_or in H as [H | H]);
    destruct s as [|c1 [|c2 s']]; simpl in H; try contradiction;
    destruct (digit c1) as [a|] eqn:Ha; try contradiction;
    try (destruct (digit c2) as [d|] eqn:Hd; try contradiction);
    try apply digit_range in Ha; try apply digit_range in Hd;
    simpl in H;
    repeat match type of H with
      | In _ (if ?b then _ else _) => destruct b eqn:?; simpl in H
      | _ \/ _ => destruct H as [H | H]
      | False => contradiction
      | (_, _) = (_, _) => injection H as <- <-
      end; Zbool; lia.
Qed.

Lemma re_HM_range s h m r : In (h, m, r) (re_HM s) -> 0 <= h < 24 /\ 0 <= m < 60.
Proof.
  unfold re_HM. intros H.
  apply in_flat_map in H as [[h' r1] [Hh H]].
  apply in_flat_map in H as [r2 [_ H]].
  apply in_map_iff in H as [[m' r3] [Heq Hm]].
  injection Heq as -> -> ->.
  split; [eapply re_H_range | eapply re_M_range]; eassumption.
Qed.

(** What [strptime] returns is a time of day on a whole minute. *)
Lemma strptime_HM_valid s t :
  strptime_HM s = Ok t ->
  Tod.valid t /\ second t = 0 /\ microsecond t = 0.
Proof.
  unfold strptime_HM. intros H.
  destruct (re_HM s) as [|[[h m] rest] l] eqn:Hre; [discriminate|].
  destruct rest; [|discriminate]. injection H as <-.
  destruct (re_HM_range s h m "") as [Hh Hm]; [rewrite Hre; left; reflexivity|].
  unfold Tod.valid; simpl. lia.
Qed.

(** Python's tuple order on valid times is the order of the day. *)
Lemma time_le_spec a b :
  Tod.valid a -> Tod.valid b ->
  Tod.le a b = true <-> Tod.us_of_day a <= Tod.us_of_day b.
Proof.
  unfold Tod.valid, Tod.le, Tod.cmp, Tod.us_of_day.
  intros (Ha1 & Ha2 & Ha3 & Ha4) (Hb1 & Hb2 & Hb3 & Hb4).
  destruct (Z.compare_spec (hour a) (hour b));
    [destruct (Z.compare_spec (minute a) (minute b));
      [destruct (Z.compare_spec (second a) (second b));
        [destruct (Z.compare_spec (microsecond a) (microsecond b))|..]|..]|..];
    split; intros; try reflexivity; try discriminate; lia.
Qed.

Lemma time_le_false a b :
  Tod.valid a -> Tod.valid b ->
  Tod.le a b = false <-> Tod.us_of_day b < Tod.us_of_day a.
Proof.
  intros Ha Hb. pose proof (time_le_spec a b Ha Hb) as H.
  destruct (Tod.le a b).
  - split; [discriminate|]. intros Hlt.
    pose proof (proj1 H eq_refl). lia.
  - split; [intros _|reflexivity].
    destruct (Z.lt_ge_cases (Tod.us_of_day b) (Tod.us_of_day a)) as [Hlt|Hge];
      [assumption|].
    pose proof (proj2 H ltac:(lia)). discriminate.
Qed.

(** The end of a break as the code computes it, against the line of the
    day. *)
Lemma combine_add_minutes_time_spec today bs d :
  Tod.valid bs -> second bs = 0 -> microsecond bs = 0 ->
  1 <= today + (hour bs * 60 + minute bs + d) / 1440 <= MAXORDINAL ->
  exists be,
    combine_add_minutes_time today bs d = Ok be /\
    Tod.valid be /\
    Tod.us_of_day be = break_end_us bs d.
Proof.
  intros (Hh & Hm & _ & _) Hs Hu Hday.
  unfold combine_add_minutes_time.
  set (m0 := hour bs * 60 + minute bs) in *.
  replace (today * 1440 + m0 + d) with (m0 + d + today * 1440) by lia.
  rewrite Z.div_add, Z.mod_add by lia.
  replace ((m0 + d) / 1440 + today) with (today + (m0 + d) / 1440) by lia.
  destruct ((0 <? today + (m0 + d) / 1440) && (today + (m0 + d) / 1440 <=? MAXORDINAL)) eqn:Hb.
  2:{ apply andb_false_iff in Hb as [Hb|Hb]; lia. }
  eexists; split; [reflexivity|].
  pose proof (Z.mod_pos_bound (m0 + d) 1440 ltac:(lia)) as Hmins.
  set (mins := (m0 + d) mod 1440) in *.
  pose proof (Z.mod_pos_bound mins 60 ltac:(lia)).
  pose proof (Z.div_mod mins 60 ltac:(lia)) as Hdm.
  assert (0 <= mins / 60 < 24).
  { split; [apply Z.div_pos; lia | apply Z.div_lt_upper_bound; lia]. }
  split.
  - unfold Tod.valid; simpl. rewrite Hs, Hu. lia.
  - unfold break_end_us, Tod.day_us, Tod.us_of_day; simpl. rewrite Hs, Hu.
    fold m0.
    replace ((m0 * 60 + 0) * 1000000 + 0 + d * 60000000) with ((m0 + d) * 60000000) by lia.
    replace 86400000000 with (1440 * 60000000) by reflexivity.
    rewrite Z.mul_mod_distr_r by lia. fold mins. lia.
Qed.

(** A break that starts and ends on the same day: the end of its window
    is its start plus its duration, and it is evaluable on every date. *)
Lemma break_same_day today b bs :
  strptime_HM (start b) = Ok bs ->
  1 <= today <= MAXORDINAL ->
  0 <= duration_minutes b ->
  hour bs * 60 + minute bs + duration_minutes b < 1440 ->
  break_evaluable today b /\
  break_end_us bs (duration_minutes b)
    = Tod.us_of_day bs + duration_minutes b * 60000000.
Proof.
  intros Hs Ht Hd Hlt.
  destruct (strptime_HM_valid _ _ Hs) as ((Hh & Hm & _ & _) & Hsec & Hus).
  split.
  - exists bs. split; [assumption|]. rewrite Z.div_small by lia. lia.
  - unfold break_end_us, Tod.day_us, Tod.us_of_day. rewrite Hsec, Hus.
    apply Z.mod_small. lia.
Qed.

Lemma is_break_time_loop_spec now bs :
  datetime_valid now ->
  Forall (break_evaluable (dt_date now)) bs ->
  (Exists (in_break now) bs -> is_break_time_loop now bs = Ok true) /\
  (~ Exists (in_break now) bs -> is_break_time_loop now bs = Ok false).
Proof.
  intros [Hdate Hnow] Hall.
  induction Hall as [|b rest [st [Hst Hday]] _ IH]; simpl.
  - split; [intros H; inversion H | reflexivity].
  - rewrite Hst; simpl.
    destruct (strptime_HM_valid _ _ Hst) as (Hv & Hs & Hu).
    destruct (combine_add_minutes_time_spec (dt_date now) st (duration_minutes b) Hv Hs Hu Hday)
      as (be & -> & Hbe & Hend); simpl.
    assert (Hin : in_break now b <->
                  Tod.le st (dt_time now) && Tod.le (dt_time now) be = true).
    { rewrite andb_true_iff, !time_le_spec by assumption. rewrite Hend.
      unfold in_break. split.
      - intros (st' & Hst' & H). rewrite Hst in Hst'. injection Hst' as <-. exact H.
      - intros H. exists st. split; assumption. }
    destruct (Tod.le st (dt_time now) && Tod.le (dt_time now) be).
    + split; [reflexivity|]. intros Hn. exfalso. apply Hn. left. apply Hin. reflexivity.
    + destruct IH as [IH1 IH2]. split.
      * intros Hex. inversion Hex as [? ? Hb|? ? Hr]; subst.
        -- apply Hin in Hb. discriminate.
        -- apply IH1. assumption.
      * intros Hn. apply IH2. intros Hr. apply Hn. right. assumption.
Qed.

Lemma is_work_time_spec now ws st et :
  Tod.valid (dt_time now) ->
  strptime_HM (start_time ws) = Ok st ->
  strptime_HM (end_time ws) = Ok et ->
  exists w, is_work_time now ws = Ok w /\
    (w = true <->
     Tod.us_of_day st <= Tod.us_of_day (dt_time now) <= Tod.us_of_day et).
Proof.
  intros Hnow Hst Het. unfold is_work_time. rewrite Hst, Het; simpl.
  eexists; split; [reflexivity|].
  destruct (strptime_HM_valid _ _ Hst) as (Hvs & _).
  destruct (strptime_HM_valid _ _ Het) as (Hve & _).
  rewrite andb_true_iff, !time_le_spec by assumption. reflexivity.
Qed.

(** C2, as the code has it: the classification of an instant: off hours
    outside the work window whatever the breaks are, on break inside the
    work window when the window of some break holds the instant, working
    otherwise; never on break when the schedule has no break. The window
    of a break runs from its start to its start plus its duration taken
    as a time of day of the current date ([in_break]), so a break of
    less than a day that reaches midnight has a window without any
    instant. *)
Theorem classify_correct (now : datetime) (ws : work_schedule) (st et : time) :
  datetime_valid now ->
  strptime_HM (start_time ws) = Ok st ->
  strptime_HM (end_time ws) = Ok et ->
  Tod.us_of_day st <= Tod.us_of_day et ->
  (Tod.us_of_day (dt_time now) < Tod.us_of_day st \/
   Tod.us_of_day et < Tod.us_of_day (dt_time now) ->
   classify now ws = Ok OFF_HOURS) /\
  (Tod.us_of_day st <= Tod.us_of_day (dt_time now) <= Tod.us_of_day et ->
   Forall (break_evaluable (dt_date now)) (breaks ws) ->
   (Exists (in_break now) (breaks ws) -> classify now ws = Ok ON_BREAK) /\
   (~ Exists (in_break now) (breaks ws) -> classify now ws = Ok WORKING)) /\
  (breaks ws = [] -> classify now ws <> Ok ON_BREAK).
Proof.
  intros Hnow Hst Het _.
  destruct (is_work_time_spec now ws st et (proj2 Hnow) Hst Het) as (w & Hw & Hiff).
  unfold classify. rewrite Hw; simpl.
  split; [|split].
  - intros Hout. destruct w; [|reflexivity].
    pose proof (proj1 Hiff eq_refl). lia.
  - intros Hin Hall. destruct w; [|pose proof (proj2 Hiff Hin); discriminate]. simpl.
    unfold is_break_time.
    destruct (is_break_time_loop_spec now (breaks ws) Hnow Hall) as [H1 H2].
    split; intros H; [rewrite (H1 H) | rewrite (H2 H)]; reflexivity.
  - intros Hnil. destruct w; simpl; [|discriminate].
    unfold is_break_time. rewrite Hnil. simpl. discriminate.
Qed.

Lemma classify_correct_witness :
  classify (at_time 13 30) default_schedule = Ok ON_BREAK.
Proof.
  refine (proj1 (proj1 (proj2 (classify_correct (at_time 13 30) default_schedule
            (mk_time 9 0 0 0) (mk_time 18 0 0 0) _ _ _ _)) _ _) _).
  - unfold datetime_valid, Tod.valid, MAXORDINAL; simpl; lia.
  - reflexivity.
  - reflexivity.
  - vm_compute; discriminate.
  - vm_compute; split; discriminate.
  - repeat constructor. exists (mk_time 13 0 0 0). split; [reflexivity|].
    vm_compute; split; discriminate.
  - left. exists (mk_time 13 0 0 0). split; [reflexivity|].
    vm_compute; split; discriminate.
Defined.

(** For a break that ends before midnight the window of the code is the
    window of the specification. *)
Lemma in_break_before_midnight (now : datetime) (b : break_info) (bs : time) :
  strptime_HM (start b) = Ok bs ->
  0 <= duration_minutes b ->
  hour bs * 60 + minute bs + duration_minutes b < 1440 ->
  in_break now b <-> in_break_window now b.
Proof.
  intros Hbs Hd Hend.
  destruct (strptime_HM_valid _ _ Hbs) as ((Hh & Hm & _ & _) & Hs & Hu).
  assert (Heq : break_end_us bs (duration_minutes b)
                = Tod.us_of_day bs + duration_minutes b * 60000000).
  { unfold break_end_us, Tod.day_us, Tod.us_of_day. rewrite Hs, Hu.
    apply Z.mod_small. lia. }
  unfold in_break, in_break_window.
  split; intros (bs' & Hbs' & Hin); exists bs'; (split; [exact Hbs'|]);
    rewrite Hbs in Hbs'; injection Hbs' as <-; lia.
Qed.

(** C2 as stated fails for a break that ends at midnight: with work
    hours from 00:00 to 23:59 and a break of 60 minutes at 23:00, the
    instant 23:30 lies in the work window and in the window
    [[23:00, 23:00 + 60 min]] of the break, and the classification is
    WORKING, not ON_BREAK. *)
Lemma break_until_midnight_counterexample :
  let ws := mk_schedule "00:00" "23:59" [mk_break "23:00" 60] in
  let now := at_time 23 30 in
  datetime_valid now /\
  (exists st et,
     strptime_HM (start_time ws) = Ok st /\ strptime_HM (end_time ws) = Ok et /\
     Tod.us_of_day st <= Tod.us_of_day et /\
     Tod.us_of_day st <= Tod.us_of_day (dt_time now) <= Tod.us_of_day et) /\
  Exists (in_break_window now) (breaks ws) /\
  classify now ws = Ok WORKING /\
  classify now ws <> Ok ON_BREAK.
Proof.
  cbv zeta. split; [|split; [|split; [|split]]].
  - unfold datetime_valid, Tod.valid, MAXORDINAL; simpl; lia.
  - exists (mk_time 0 0 0 0), (mk_time 23 59 0 0).
    split; [reflexivity|]. split; [reflexivity|].
    vm_compute. repeat split; discriminate.
  - left. exists (mk_time 23 0 0 0). split; [reflexivity|].
    vm_compute. split; discriminate.
  - vm_compute. reflexivity.
  - vm_compute. discriminate.
Qed.

Lemma lunch_break_end date :
  1 <= date <= MAXORDINAL ->
  combine_add_minutes_time date (mk_time 13 0 0 0) 60 = Ok (mk_time 14 0 0 0).
Proof.
  intros Hd. unfold combine_add_minutes_time; simpl hour; simpl minute.
  replace (date * 1440 + (13 * 60 + 0) + 60) with (840 + date * 1440) by lia.
  rewrite Z.div_add, Z.mod_add by lia.
  change (840 / 1440) with 0. change (840 mod 1440) with 840.
  destruct ((0 <? 0 + date) && (0 + date <=? MAXORDINAL)) eqn:Hb.
  - reflexivity.
  - apply andb_false_iff in Hb as [Hb|Hb]; lia.
Qed.

Lemma classify_default date t :
  1 <= date <= MAXORDINAL ->
  classify (mk_datetime date t) default_schedule =
    if negb (Tod.le (mk_time 9 0 0 0) t && Tod.le t (mk_time 18 0 0 0))
    then Ok OFF_HOURS
    else if Tod.le (mk_time 13 0 0 0) t && Tod.le t (mk_time 14 0 0 0)
         then Ok ON_BREAK else Ok WORKING.
Proof.
  intros Hd. unfold classify, is_work_time, is_break_time, default_schedule.
  cbn [start_time end_time breaks dt_time dt_date is_break_time_loop start duration_minutes].
  change (strptime_HM "09:00") with (Ok (mk_time 9 0 0 0)).
  change (strptime_HM "18:00") with (Ok (mk_time 18 0 0 0)).
  change (strptime_HM "13:00") with (Ok (mk_time 13 0 0 0)).
  cbn [rbind]. rewrite (lunch_break_end date Hd). cbn [rbind].
  destruct (Tod.le (mk_time 9 0 0 0) t && Tod.le t (mk_time 18 0 0 0)); cbn [negb];
    [|reflexivity].
  destruct (Tod.le (mk_time 13 0 0 0) t && Tod.le t (mk_time 14 0 0 0)); reflexivity.
Qed.

(** C3: with the break 13:00 + 60 minutes inside the work window
    09:00-18:00, on any date: 12:59 is working time, 13:00 and 14:00 are
    break time, 14:01 is working time again; the ends 09:00 and 18:00 of
    the work window are working time. *)
Theorem boundaries_inclusive (date : Z) :
  1 <= date <= MAXORDINAL ->
  classify (mk_datetime date (mk_time 12 59 0 0)) default_schedule = Ok WORKING /\
  classify (mk_datetime date (mk_time 13 0 0 0)) default_schedule = Ok ON_BREAK /\
  classify (mk_datetime date (mk_time 14 0 0 0)) default_schedule = Ok ON_BREAK /\
  classify (mk_datetime date (mk_time 14 1 0 0)) default_schedule = Ok WORKING /\
  classify (mk_datetime date (mk_time 9 0 0 0)) default_schedule = Ok WORKING /\
  classify (mk_datetime date (mk_time 18 0 0 0)) default_schedule = Ok WORKING.
Proof.
  intros Hd. rewrite !(classify_default date _ Hd). repeat split; reflexivity.
Qed.

Lemma boundaries_inclusive_witness :
  classify (at_time 14 0) default_schedule = Ok ON_BREAK.
Proof.
  refine (proj1 (proj2 (proj2 (boundaries_inclusive 739000 _)))).
  unfold MAXORDINAL; lia.
Defined.

(** Some values of the parser and of the classification, for reference. *)
Example strptime_HM_examples :
  strptime_HM "09:00" = Ok (mk_time 9 0 0 0) /\
  strptime_HM "9:5" = Ok (mk_time 9 5 0 0) /\
  strptime_HM "23:59" = Ok (mk_time 23 59 0 0) /\
  strptime_HM "24:00" = Raise ValueError /\
  strptime_HM "12:60" = Raise ValueError /\
  strptime_HM "12:00:00" = Raise ValueError /\
  strptime_HM "noon" = Raise ValueError.
Proof. repeat split. Qed.

(** One microsecond after the end of the break is working time. *)
Example just_after_the_break :
  classify (mk_datetime 739000 (mk_time 14 0 0 1)) default_schedule = Ok WORKING.
Proof. reflexivity. Qed.

(** A break whose end falls after midnight has an empty window: its end
    is taken as a time of day, 01:00 here. *)
Example break_into_the_next_day :
  classify (mk_datetime 739000 (mk_time 23 30 0 0))
    (mk_schedule "00:00" "23:59" [mk_break "23:00" 120]) = Ok WORKING.
Proof. reflexivity. Qed.

(** ** The monad *)

Lemma bind_ok {A B} (m : M A) (k : A -> M B) s a s1 t1 :
  m s = (Ok a, s1, t1) ->
  bind m k s = (outcome_of (k a s1), final (k a s1), t1 ++ events (k a s1)).
Proof.
  intros H. unfold bind. rewrite H. destruct (k a s1) as [[r s2] t2]. reflexivity.
Qed.

Lemma bind_raise {A B} (m : M A) (k : A -> M B) s e s1 t1 :
  m s = (Raise e, s1, t1) -> bind m k s = (Raise e, s1, t1).
Proof. intros H. unfold bind. rewrite H. reflexivity. Qed.

Lemma triple_ret {A} (a : A) (Q : A -> state -> list event -> Prop) X :
  triple (Q a) (ret a) Q X.
Proof. intros s h H. simpl. rewrite app_nil_r. exact H. Qed.

Lemma triple_bind {A B} P (m : M A) (k : A -> M B) Q R X :
  triple P m Q X -> (forall a, triple (Q a) (k a) R X) -> triple P (bind m k) R X.
Proof.
  intros Hm Hk s h HP. specialize (Hm s h HP). unfold bind.
  destruct (m s) as [[[a|e] s1] t1]; [|exact Hm].
  specialize (Hk a s1 (h ++ t1) Hm).
  destruct (k a s1) as [[[b|e] s2] t2]; rewrite app_assoc; exact Hk.
Qed.

Lemma triple_conseq {A} (P P' : state -> list event -> Prop) (m : M A)
    (Q Q' : A -> state -> list event -> Prop) (X X' : state -> list event -> Prop) :
  triple P' m Q' X' ->
  (forall s h, P s h -> P' s h) ->
  (forall a s h, Q' a s h -> Q a s h) ->
  (forall s h, X' s h -> X s h) ->
  triple P m Q X.
Proof.
  intros Hm HP HQ HX s h H. specialize (Hm s h (HP s h H)).
  destruct (m s) as [[[a|e] s1] t1]; auto.
Qed.

Lemma triple_post {A} (P : state -> list event -> Prop) (m : M A)
    (Q Q' : A -> state -> list event -> Prop) (X : state -> list event -> Prop) :
  triple P m Q' X -> (forall a s h, Q' a s h -> Q a s h) -> triple P m Q X.
Proof. intros Hm HQ. eapply triple_conseq; [exact Hm | | exact HQ |]; auto. Qed.

Lemma triple_pre {A} (P P' : state -> list event -> Prop) (m : M A)
    (Q : A -> state -> list event -> Prop) (X : state -> list event -> Prop) :
  triple P' m Q X -> (forall s h, P s h -> P' s h) -> triple P m Q X.
Proof. intros Hm HP. eapply triple_conseq; [exact Hm | exact HP | |]; auto. Qed.

Lemma triple_when P (b : bool) (m : M unit) (Q : unit -> state -> list event -> Prop) X :
  (b = true -> triple P m Q X) ->
  (b = false -> forall s h, P s h -> Q tt s h) ->
  triple P (when b m) Q X.
Proof.
  intros Ht Hf. destruct b; simpl.
  - apply Ht; reflexivity.
  - intros s h H. simpl. rewrite app_nil_r. apply Hf; [reflexivity | exact H].
Qed.

Lemma triple_try_except {A} P (m : M A) (hd : exn -> M A) Q X X' :
  triple P m Q X' -> (forall e, triple X' (hd e) Q X) -> triple P (try_except m hd) Q X.
Proof.
  intros Hm Hh s h HP. specialize (Hm s h HP). unfold try_except.
  destruct (m s) as [[[a|e] s1] t1]; [exact Hm|].
  specialize (Hh e s1 (h ++ t1) Hm).
  destruct (hd e s1) as [[[b|e'] s2] t2]; rewrite app_assoc; exact Hh.
Qed.

Lemma triple_get_self {A} P (k : agent -> M A) Q X :
  (forall a, triple (fun s h => P s h /\ self s = a) (k a) Q X) ->
  triple P (bind get_self k) Q X.
Proof.
  intros Hk s h HP. unfold bind, get_self.
  specialize (Hk (self s) s h (conj HP eq_refl)).
  destruct (k (self s) s) as [[r s2] t2]. exact Hk.
Qed.

Section Behaves.

Context (R : agent -> agent -> Prop) (phi : event -> bool).
Context (R_refl : forall a, R a a) (R_trans : forall a b c, R a b -> R b c -> R a c).

Lemma behaves_ret {A} (a : A) : behaves R phi (ret a).
Proof. intros s. split; [apply R_refl | constructor]. Qed.

Lemma behaves_raise {A} e : behaves R phi (@raise A e).
Proof. intros s. split; [apply R_refl | constructor]. Qed.

Lemma behaves_get_self : behaves R phi get_self.
Proof. intros s. split; [apply R_refl | constructor]. Qed.

Lemma behaves_ask {A} (o : nat -> A) : behaves R phi (ask o).
Proof. intros s. split; [apply R_refl | constructor]. Qed.

Lemma behaves_lift {A} (r : result A) : behaves R phi (lift r).
Proof. destruct r; [apply behaves_ret | apply behaves_raise]. Qed.

Lemma behaves_emit e : phi e = true -> behaves R phi (emit e).
Proof. intros He s. split; [apply R_refl | repeat constructor; exact He]. Qed.

Lemma behaves_modify_self f : (forall a, R a (f a)) -> behaves R phi (modify_self f).
Proof. intros Hf s. split; [apply Hf | constructor]. Qed.

Lemma behaves_bind {A B} (m : M A) (k : A -> M B) :
  behaves R phi m -> (forall a, behaves R phi (k a)) -> behaves R phi (bind m k).
Proof.
  intros Hm Hk s. destruct (Hm s) as [Hr Ht].
  unfold bind. destruct (m s) as [[[a|e] s1] t1]; [|split; assumption].
  destruct (Hk a s1) as [Hr2 Ht2].
  destruct (k a s1) as [[r s2] t2]. unfold final, events in *; simpl in *.
  split; [eapply R_trans; eassumption | apply Forall_app; split; assumption].
Qed.

Lemma behaves_when b (m : M unit) : behaves R phi m -> behaves R phi (when b m).
Proof. destruct b; [auto | intros; apply behaves_ret]. Qed.

Lemma behaves_for_each {A} (l : list A) (body : A -> M unit) :
  (forall x, behaves R phi (body x)) -> behaves R phi (for_each l body).
Proof.
  intros Hb. induction l as [|x l IH]; simpl; [apply behaves_ret|].
  apply behaves_bind; auto.
Qed.

Lemma behaves_try_except {A} (m : M A) (hd : exn -> M A) :
  behaves R phi m -> (forall e, behaves R phi (hd e)) -> behaves R phi (try_except m hd).
Proof.
  intros Hm Hh s. destruct (Hm s) as [Hr Ht].
  unfold try_except. destruct (m s) as [[[a|e] s1] t1]; [split; assumption|].
  destruct (Hh e s1) as [Hr2 Ht2].
  destruct (hd e s1) as [[r s2] t2]. unfold final, events in *; simpl in *.
  split; [eapply R_trans; eassumption | apply Forall_app; split; assumption].
Qed.

End Behaves.

Lemma same_session_refl a : same_session a a.
Proof. repeat split. Qed.

Lemma same_session_trans a b c : same_session a b -> same_session b c -> same_session a c.
Proof.
  intros (H1 & H2 & H3 & H4) (H1' & H2' & H3' & H4').
  repeat split; congruence.
Qed.

Lemma any_change_refl a : any_change a a.
Proof. exact I. Qed.

Lemma any_change_trans a b c : any_change a b -> any_change b c -> any_change a c.
Proof. intros _ _. exact I. Qed.

(** A proof of [behaves] by the structure of the program. *)
Ltac behaves_step :=
  first
    [ apply behaves_ret
    | apply behaves_raise
    | apply behaves_get_self
    | apply behaves_ask
    | apply behaves_lift
    | apply behaves_emit
    | apply behaves_modify_self
    | apply behaves_when
    | apply behaves_for_each; [| |intros]
    | apply behaves_bind; [| |intros]
    | match goal with
      | |- behaves _ _ (let _ := _ in _) => cbv zeta
      | |- behaves _ _ (if ?b then _ else _) => destruct b
      | |- behaves _ _ (match ?x with _ => _ end) => destruct x
      end ].

Ltac behaves_auto Rr Rt :=
  repeat (behaves_step; try solve [exact Rr | exact Rt | reflexivity | intros; exact I]).

Ltac quiet := behaves_auto same_session_refl same_session_trans.
Ltac silent := behaves_auto any_change_refl any_change_trans.

(** ** Operations that leave the session alone *)

Section Quiet.

Variable E : env.

Lemma quiet_log lvl msg : behaves same_session neutral (log lvl msg).
Proof. unfold log. quiet. Qed.

Lemma quiet_sleep d : behaves same_session neutral (sleep E d).
Proof. unfold sleep. quiet. Qed.

Lemma quiet_randint a b : behaves same_session neutral (randint E a b).
Proof. unfold randint. quiet. Qed.

Lemma quiet_uniform a b : behaves same_session neutral (uniform E a b).
Proof. unfold uniform. quiet. Qed.

Lemma quiet_choice {A} (l : list A) : behaves same_session neutral (choice E l).
Proof. unfold choice. quiet. Qed.

Lemma quiet_run_step app cmd : behaves same_session neutral (run_step E app cmd).
Proof. unfold run_step, run_command, uniform, sleep, log. quiet. Qed.

Lemma quiet_simulate_activity app : behaves same_session neutral (simulate_activity E app).
Proof.
  unfold simulate_activity. quiet.
Qed.

Lemma quiet_should_switch_app : behaves same_session neutral (should_switch_app E).
Proof. unfold should_switch_app, time_time. quiet. Qed.

Lemma quiet_get_next_app : behaves same_session neutral (get_next_app E).
Proof. unfold get_next_app. quiet. Qed.

Lemma quiet_set_session_duration d :
  behaves same_session neutral (modify_self (set_session_duration d)).
Proof.
  apply behaves_modify_self. intros a. repeat split.
Qed.

End Quiet.

(** ** The history of 'open' and 'close' commands *)

Lemma bracketed_app p h t :
  bracketed p (h ++ t) =
    match bracketed p h with
    | Some q => bracketed q t
    | None => None
    end.
Proof.
  revert p. induction h as [|e h IH]; intros p; simpl; [reflexivity|].
  destruct e as [[a|a|a] c o| |]; simpl; try apply IH.
  destruct p; [reflexivity | apply IH].
Qed.

Lemma bracketed_neutral p t :
  Forall (fun e => neutral e = true) t -> bracketed p t = Some p.
Proof.
  induction 1 as [|e t He _ IH]; simpl; [reflexivity|].
  destruct e as [[a|a|a] c o| |]; simpl in *; try discriminate; exact IH.
Qed.

Lemma open_after_app p h t : open_after p (h ++ t) = open_after (open_after p h) t.
Proof.
  revert p. induction h as [|e h IH]; intros p; simpl; [reflexivity|].
  destruct e as [[a|a|a] c o| |]; simpl; apply IH.
Qed.

Lemma open_after_neutral p t :
  Forall (fun e => neutral e = true) t -> open_after p t = p.
Proof.
  induction 1 as [|e t He _ IH]; simpl; [reflexivity|].
  destruct e as [[a|a|a] c o| |]; simpl in *; try discriminate; exact IH.
Qed.

(** The checker is sound for the property it checks. *)
Lemma bracketed_sound tr :
  forall p, bracketed p tr <> None ->
    no_double_open tr /\
    (p = true -> forall t1 e t2, tr = t1 ++ e :: t2 -> is_open e = true ->
                 Exists (fun e => is_close e = true) t1).
Proof.
  induction tr as [|e tr IH]; intros p Hb.
  - split.
    + intros t1 e1 t2 e2 t3 Heq. destruct t1; discriminate.
    + intros _ t1 e t2 Heq. destruct t1; discriminate.
  - assert (Hcases :
      (is_open e = true /\ p = false /\ bracketed true tr <> None) \/
      (is_open e = false /\ is_close e = true /\ bracketed false tr <> None) \/
      (is_open e = false /\ is_close e = false /\ bracketed p tr <> None)).
    { destruct e as [[a|a|a] c o| |]; simpl in *; auto.
      destruct p; [congruence | auto]. }
    destruct Hcases as [(Ho & -> & Hr) | [(Ho & Hc & Hr) | (Ho & Hc & Hr)]];
      destruct (IH _ Hr) as [IH1 IH2]; (split; [|intros Hp]).
    + intros t1 e1 t2 e2 t3 Heq H1 H2. destruct t1 as [|x t1]; simpl in Heq.
      * injection Heq as <- ->. eapply IH2; eauto.
      * injection Heq as <- ->. eapply IH1; eauto.
    + discriminate.
    + intros t1 e1 t2 e2 t3 Heq H1 H2. destruct t1 as [|x t1]; simpl in Heq.
      * injection Heq as <- ->. congruence.
      * injection Heq as <- ->. eapply IH1; eauto.
    + intros t1 e1 t2 Heq H1. destruct t1 as [|x t1]; simpl in Heq.
      * injection Heq as <- ->. congruence.
      * injection Heq as <- ->. left. exact Hc.
    + intros t1 e1 t2 e2 t3 Heq H1 H2. destruct t1 as [|x t1]; simpl in Heq.
      * injection Heq as <- ->. congruence.
      * injection Heq as <- ->. eapply IH1; eauto.
    + intros t1 e1 t2 Heq H1. destruct t1 as [|x t1]; simpl in Heq.
      * injection Heq as <- ->. congruence.
      * injection Heq as <- ->. right. eapply IH2; eauto.
Qed.

(** ** The invariant of the session *)

Lemma session_inv_stable cfg tracked : stable (session_inv cfg tracked).
Proof.
  intros s s' h t (Hc & Hcc & Hco & Hop & Htr) (E1 & E2 & E3 & E4) Ht.
  unfold session_inv, coherent, opened_by_command in *.
  rewrite <- E1, <- E2, <- E3, <- E4.
  refine (conj Hc (conj Hcc (conj Hco (conj Hop _)))).
  intros H. destruct (Htr H) as [Hb Ho]. split.
  - rewrite bracketed_app, Hb. apply bracketed_neutral, Ht.
  - rewrite open_after_app, Ho. apply open_after_neutral, Ht.
Qed.

Lemma session_inv_idle_stable cfg tracked : stable (session_inv_idle cfg tracked).
Proof.
  intros s s' h t [Hi [H1 H2]] Hs Ht. split.
  - eapply session_inv_stable; eassumption.
  - destruct Hs as (_ & E2 & E3 & _). split; congruence.
Qed.

Lemma session_inv_on_stable cfg tracked app : stable (session_inv_on cfg tracked app).
Proof.
  intros s s' h t (Hi & H1 & H2) Hs Ht. split; [|split].
  - eapply session_inv_stable; eassumption.
  - destruct Hs as (_ & E2 & _). congruence.
  - exact H2.
Qed.

Lemma triple_quiet {A} (m : M A) (P X : state -> list event -> Prop) :
  behaves same_session neutral m -> stable P ->
  (forall s h, P s h -> X s h) ->
  triple P m (fun _ => P) X.
Proof.
  intros Hm HP HX s h H. destruct (Hm s) as [Hs Ht].
  destruct (m s) as [[[a|e] s1] t1]; unfold final, events in *; simpl in *.
  - eapply HP; eassumption.
  - apply HX. eapply HP; eassumption.
Qed.

Lemma triple_get_self' {A} P (k : agent -> M A) Q X :
  (forall a, triple P (k a) Q X) -> triple P (bind get_self k) Q X.
Proof.
  intros Hk. apply triple_get_self. intros a.
  eapply triple_conseq; [apply (Hk a) | | |]; intros; tauto.
Qed.

Lemma session_inv_idle_inv cfg tracked s h :
  session_inv_idle cfg tracked s h -> session_inv cfg tracked s h.
Proof. intros [H _]. exact H. Qed.

Lemma session_inv_on_inv cfg tracked app s h :
  session_inv_on cfg tracked app s h -> session_inv cfg tracked s h.
Proof. intros [H _]. exact H. Qed.

Lemma truthy_str_Some app : truthy_str app = true -> exists a, app = Some a /\ a <> "".
Proof.
  destruct app as [a|]; simpl; [|discriminate]. intros H. exists a. split; [reflexivity|].
  intros ->. discriminate.
Qed.

(** An agent in the invariant whose current application is not a true
    name has no current application. *)
Lemma session_inv_falsy cfg tracked s h :
  session_inv cfg tracked s h -> truthy_str (current_app (self s)) = false ->
  session_inv_idle cfg tracked s h.
Proof.
  intros Hi Hf. split; [exact Hi|].
  destruct Hi as (_ & _ & Hco & Hop & _).
  assert (Hn : current_app (self s) = None).
  { destruct (current_app (self s)) as [a|] eqn:Ha; [|reflexivity].
    destruct (Hop a Ha) as [Hne _]. simpl in Hf.
    destruct (String.eqb_spec a ""); [contradiction | discriminate]. }
  split; [exact Hn | apply Hco, Hn].
Qed.

Section Invariant.

Variable E : env.
Variable cfg : agent_config.
Variable tracked : bool.
Hypothesis closes : tracked = true -> every_profile_closes (cfg_custom_commands cfg).

Local Notation "'Inv'" := (session_inv cfg tracked).
Local Notation "'Idle'" := (session_inv_idle cfg tracked).
Local Notation "'On'" := (session_inv_on cfg tracked).

Lemma close_application_inv app :
  triple (On app) (close_application E app) (fun _ => Idle) Inv.
Proof.
  intros s h ((Hc & Hcc & Hco & Hop & Htr) & Hcur & Htruthy).
  destruct (truthy_str_Some _ Htruthy) as (a & -> & Hne).
  destruct (Hop a Hcur) as [_ Hopen].
  assert (Hclose : tracked = true ->
            is_Some (cmd_close (get_application_commands (Some a) (custom_commands (self s))))).
  { intros Ht. rewrite Hcc. apply (closes Ht).
    rewrite <- Hcc. intros Heq. rewrite Heq in Hopen. destruct Hopen; discriminate. }
  unfold close_application, run_command, log, bind, get_self, emit, ask, modify_self, ret.
  destruct (cmd_close (get_application_commands (Some a) (custom_commands (self s))))
    as [c|] eqn:Hcmd.
  - assert (Hgoal : forall l1 l2,
      Idle (mk_state (set_app_start_time None (set_current_app None (self s))) (S (tick s)))
           (h ++ [Log INFO (MsgClosing (Some a)); Exec (OnClose (Some a)) c l1; l2])
      \/ is_open l2 = true \/ is_close l2 = true).
    { intros l1 l2.
      destruct (is_open l2) eqn:Ho; [auto|]. destruct (is_close l2) eqn:Hcl; [auto|].
      left. split; [|split; reflexivity].
      refine (conj Hc (conj Hcc (conj _ (conj _ _)))); simpl.
      - split; reflexivity.
      - intros x Hx; discriminate.
      - intros Ht. destruct (Htr Ht) as [Hb Ho']. simpl.
        rewrite bracketed_app, Hb, open_after_app, Ho'. simpl.
        destruct l2 as [[x|x|x] c' o'| |]; simpl in *; try discriminate; auto. }
    destruct (env_exec E (tick s)) as [rc|]; [destruct (rc =? 0)|]; simpl;
      match goal with
      | |- Idle _ (h ++ [_; Exec _ _ ?o; ?l]) =>
          destruct (Hgoal o l) as [H|[H|H]]; [exact H | discriminate | discriminate]
      end.
  - simpl. rewrite app_nil_r. split; [|split; reflexivity].
    refine (conj Hc (conj Hcc (conj _ (conj _ _)))); simpl.
    + split; reflexivity.
    + intros x Hx; discriminate.
    + intros Ht. destruct (Hclose Ht); discriminate.
Qed.

Lemma open_application_inv app :
  triple (fun s h => Idle s h /\ truthy_str app = true)
    (open_application E app) (fun _ => Inv) Inv.
Proof.
  intros s h (((Hc & Hcc & Hco & Hop & Htr) & Hcur & Hstart) & Htruthy).
  destruct (truthy_str_Some _ Htruthy) as (a & -> & Hne).
  unfold open_application, run_command, time_time, log, bind, get_self, emit, ask,
    modify_self, ret.
  destruct (cmd_open (get_application_commands (Some a) (custom_commands (self s))))
    as [c|] eqn:Hcmd.
  - assert (Hgoal : forall l1 l2 k,
      Inv (mk_state (set_app_start_time (Some (env_time E (S (tick s))))
                       (set_current_app (Some a) (self s))) k)
          (h ++ [Log INFO (MsgOpening (Some a)); Exec (OnOpen (Some a)) c l1; l2])
      \/ is_open l2 = true \/ is_close l2 = true).
    { intros l1 l2 k.
      destruct (is_open l2) eqn:Ho; [auto|]. destruct (is_close l2) eqn:Hcl; [auto|].
      left. refine (conj Hc (conj Hcc (conj _ (conj _ _)))); simpl.
      - split; discriminate.
      - intros x Hx. injection Hx as <-. split; [exact Hne|].
        unfold set_app_start_time, set_current_app; cbn [custom_commands].
        rewrite Hcmd. eexists; reflexivity.
      - intros Ht. destruct (Htr Ht) as [Hb Ho']. rewrite Hcur in Hb, Ho'. simpl in Hb.
        rewrite bracketed_app, Hb, open_after_app, Ho'. simpl.
        destruct l2 as [[x|x|x] c' o'| |]; simpl in *; try discriminate; auto. }
    destruct (env_exec E (tick s)) as [rc|]; [destruct (rc =? 0)|]; simpl;
      match goal with
      | |- Inv (mk_state _ ?k) (h ++ [_; Exec _ _ ?o; ?l]) =>
          destruct (Hgoal o l k) as [H|[H|H]]; [exact H | discriminate | discriminate]
      end.
  - simpl. rewrite app_nil_r.
    exact (conj Hc (conj Hcc (conj Hco (conj Hop Htr)))).
Qed.

Lemma triple_if_current_app (k : appname -> M unit) :
  (forall app, triple (On app) (k app) (fun _ => Idle) Inv) ->
  triple Inv (if_current_app k) (fun _ => Idle) Inv.
Proof.
  intros Hk. unfold if_current_app. apply triple_get_self. intros a.
  destruct (truthy_str (current_app a)) eqn:Ht.
  - eapply triple_conseq; [apply (Hk (current_app a)) | | |]; try (intros; assumption).
    intros s h [Hi <-]. split; [exact Hi | split; [reflexivity | exact Ht]].
  - eapply triple_conseq; [apply (triple_ret tt (fun _ => Idle) Inv) | | |];
      try (intros; assumption).
    intros s h [Hi <-]. eapply session_inv_falsy; eassumption.
Qed.

Lemma close_current_inv :
  triple Inv (if_current_app (close_application E)) (fun _ => Idle) Inv.
Proof. apply triple_if_current_app. apply close_application_inv. Qed.

Lemma close_current_logged_inv msg :
  triple Inv
    (if_current_app (fun app => log INFO msg >> close_application E app))
    (fun _ => Idle) Inv.
Proof.
  apply triple_if_current_app. intros app.
  eapply triple_bind.
  - apply triple_quiet; [apply quiet_log | apply session_inv_on_stable |].
    apply session_inv_on_inv.
  - intros []. apply close_application_inv.
Qed.

Ltac inv_side :=
  first [ apply session_inv_stable | apply session_inv_idle_stable
        | apply session_inv_on_stable | (intros; assumption)
        | apply session_inv_idle_inv | apply session_inv_on_inv ].

Ltac quiet_op :=
  apply triple_quiet;
    [ first [ apply quiet_set_session_duration | apply quiet_get_next_app
            | apply quiet_should_switch_app | apply quiet_simulate_activity
            | apply quiet_sleep | apply quiet_log | apply quiet_randint
            | quiet ]
    | inv_side | inv_side ].

Tactic Notation "quiet_then" "as" simple_intropattern(x) :=
  eapply triple_bind; [quiet_op | intros x].

Lemma switch_inv :
  triple Inv
    (if_current_app (close_application E) >>
     let* pause_time := randint E 30 120 in
     log INFO (MsgPausing pause_time) >>
     sleep E (seconds pause_time) >>
     let* next_app := get_next_app E in
     if truthy_str next_app then
       let* opened := open_application E next_app in
       when opened (
         let* d := randint E 300 900 in
         modify_self (set_session_duration d) >>
         sleep E (seconds 5))
     else ret tt)
    (fun _ => Inv) Inv.
Proof.
  eapply triple_bind; [apply close_current_inv; exact closes | intros []].
  quiet_then as pause_time. quiet_then as []. quiet_then as [].
  quiet_then as next_app.
  destruct (truthy_str next_app) eqn:Ht.
  - eapply triple_bind.
    + eapply triple_pre; [apply (open_application_inv next_app)|].
      intros s h Hi. split; [exact Hi | exact Ht].
    + intros opened. apply triple_when; [intros _ | intros _ s h Hi; exact Hi].
      quiet_then as d. quiet_then as []. quiet_op.
  - eapply triple_pre; [apply (triple_ret tt (fun _ => Inv) Inv)|].
    apply session_inv_idle_inv.
Qed.

Lemma pause_inv msg :
  triple Inv
    (if_current_app (fun app => log INFO msg >> close_application E app) >>
     log INFO (match msg with MsgWorkTimeEnded => MsgOutsideWorkHours | _ => MsgBreakSleeping end) >>
     sleep E (seconds 300))
    (fun _ => Inv) Inv.
Proof.
  eapply triple_bind.
  - apply close_current_logged_inv; exact closes.
  - intros []. quiet_then as [].
    eapply triple_post; [quiet_op|].
    intros [] s h Hi. apply session_inv_idle_inv. exact Hi.
Qed.

Lemma iteration_inv : triple Inv (iteration E) (fun _ => Inv) Inv.
Proof.
  unfold iteration. apply triple_get_self'. intros a.
  quiet_then as current_time. quiet_then as work.
  destruct work; cbn [negb].
  - quiet_then as brk. destruct brk.
    + apply (pause_inv MsgBreakClosing).
    + quiet_then as switch.
      eapply triple_bind;
        [apply triple_when; [intros _; apply switch_inv | intros _ s h Hi; exact Hi]
        | intros []].
      eapply triple_bind; [|intros []].
      * apply triple_quiet; [|inv_side|inv_side].
        unfold if_current_app. quiet.
      * quiet_then as activity_pause. quiet_op.
  - apply (pause_inv MsgWorkTimeEnded).
Qed.

Lemma run_loop_inv fuel : triple Inv (run_loop E fuel) (fun _ => Inv) Inv.
Proof.
  induction fuel as [|n IH]; simpl.
  - apply (triple_ret StillRunning (fun _ => Inv) Inv).
  - eapply triple_bind; [apply iteration_inv | intros []; exact IH].
Qed.

Lemma run_inv fuel : triple Inv (run E fuel) (fun _ => Inv) Inv.
Proof.
  unfold run. apply triple_get_self'. intros a.
  do 4 (quiet_then as []). apply run_loop_inv.
Qed.

Lemma on_exception_inv e : triple Inv (on_exception E e) (fun _ => Idle) Inv.
Proof.
  unfold on_exception.
  eapply triple_bind; [|intros []].
  - apply triple_quiet; [|inv_side|inv_side]. destruct e; apply quiet_log.
  - eapply triple_bind; [apply close_current_inv; exact closes | intros []].
    apply (triple_ret Returned (fun _ => Idle) Inv).
Qed.

End Invariant.

(** ** The whole program *)

Section Program.

Variable E : env.
Variable cfg : agent_config.

(** What [main] does before [run]: one log record and the construction
    of the agent. *)
Lemma boot_eq {A} (k : M A) :
  (log INFO MsgStartingUnified >> ActivityAgent_init E cfg >> k) (boot cfg) =
    (outcome_of (k (fresh E cfg)), final (k (fresh E cfg)),
     Log INFO MsgStartingUnified :: events (k (fresh E cfg))).
Proof.
  cbv beta iota zeta delta
    [bind log emit ActivityAgent_init randint ask modify_self ret boot self tick
     fresh final events outcome_of fst snd app].
  destruct (k _) as [[r s] t]. reflexivity.
Qed.

Lemma fresh_idle tracked :
  session_inv_idle cfg tracked (fresh E cfg) [Log INFO MsgStartingUnified].
Proof.
  split; [|split; reflexivity].
  refine (conj eq_refl (conj eq_refl (conj _ (conj _ _)))); simpl.
  - split; reflexivity.
  - intros x Hx; discriminate.
  - intros _. split; reflexivity.
Qed.

Lemma boot_inv {A} (k : M A) Q X tracked :
  triple (session_inv_idle cfg tracked) k Q X ->
  triple (fun s h => s = boot cfg /\ h = [])
    (log INFO MsgStartingUnified >> ActivityAgent_init E cfg >> k) Q X.
Proof.
  intros Hk s h [-> ->]. rewrite boot_eq.
  specialize (Hk (fresh E cfg) [Log INFO MsgStartingUnified] (fresh_idle tracked)).
  destruct (k (fresh E cfg)) as [[r s] t]. exact Hk.
Qed.

Lemma main_until_exception_inv tracked fuel :
  (tracked = true -> every_profile_closes (cfg_custom_commands cfg)) ->
  session_inv cfg tracked
    (final (main_until_exception E cfg fuel)) (events (main_until_exception E cfg fuel)).
Proof.
  intros Hcl.
  assert (Ht : triple (fun s h => s = boot cfg /\ h = [])
                 (log INFO MsgStartingUnified >> ActivityAgent_init E cfg >> run E fuel)
                 (fun _ => session_inv cfg tracked) (session_inv cfg tracked)).
  { apply (boot_inv _ _ _ tracked).
    eapply triple_pre; [apply run_inv; exact Hcl | apply session_inv_idle_inv]. }
  specialize (Ht (boot cfg) [] (conj eq_refl eq_refl)).
  unfold main_until_exception.
  destruct ((log INFO MsgStartingUnified >> ActivityAgent_init E cfg >> run E fuel) (boot cfg))
    as [[[r|e] s] t]; exact Ht.
Qed.

Lemma main_inv tracked fuel :
  (tracked = true -> every_profile_closes (cfg_custom_commands cfg)) ->
  session_inv cfg tracked (final (main E cfg fuel)) (events (main E cfg fuel)).
Proof.
  intros Hcl.
  assert (Ht : triple (fun s h => s = boot cfg /\ h = [])
                 (main_body E cfg fuel)
                 (fun _ => session_inv cfg tracked) (session_inv cfg tracked)).
  { apply (boot_inv _ _ _ tracked).
    eapply triple_try_except.
    - eapply triple_pre; [apply run_inv; exact Hcl | apply session_inv_idle_inv].
    - intros e. eapply triple_post; [apply on_exception_inv; exact Hcl|].
      intros a s h. apply session_inv_idle_inv. }
  specialize (Ht (boot cfg) [] (conj eq_refl eq_refl)).
  unfold main.
  destruct (main_body E cfg fuel (boot cfg)) as [[[r|e] s] t]; exact Ht.
Qed.

(** [main] is [main_until_exception] followed, when [run] raised, by the
    [except] clause. *)
Lemma main_cases fuel :
  match main_until_exception E cfg fuel with
  | (Ok r, s, t) => main E cfg fuel = (Ok r, s, t)
  | (Raise e, s, t) =>
      main E cfg fuel =
        (outcome_of (on_exception E e s), final (on_exception E e s),
         t ++ events (on_exception E e s))
  end.
Proof.
  unfold main, main_body, main_until_exception. rewrite !boot_eq.
  unfold try_except.
  destruct (run E fuel (fresh E cfg)) as [[[r|e] s2] t2]; [reflexivity|].
  unfold final, events, outcome_of; cbn [fst snd].
  destruct (on_exception E e s2) as [[r3 s3] t3]. reflexivity.
Qed.

End Program.

(** ** Single operations *)

Section Operations.

Variable E : env.

Lemma bind_get_self {A} (k : agent -> M A) s : bind get_self k s = k (self s) s.
Proof. unfold bind, get_self. destruct (k (self s) s) as [[r s'] t]. reflexivity. Qed.

Lemma bind_ask {A B} (o : nat -> A) (k : A -> M B) s :
  bind (ask o) k s = k (o (tick s)) (advance 1 s).
Proof.
  unfold bind, ask, advance. simpl.
  destruct (k (o (tick s)) _) as [[r s'] t]. reflexivity.
Qed.

Lemma bind_lift_ok {A B} (a : A) (k : A -> M B) s : bind (lift (Ok a)) k s = k a s.
Proof. unfold bind, lift, ret. destruct (k a s) as [[r s'] t]. reflexivity. Qed.

Lemma bind_lift_raise {A B} e (k : A -> M B) s :
  bind (lift (Raise e)) k s = (Raise e, s, []).
Proof. reflexivity. Qed.

Lemma run_command_eq site command s :
  run_command E site command s =
    (Ok tt, advance 1 s,
     [Exec site command (env_exec E (tick s)); command_log command (env_exec E (tick s))]).
Proof.
  unfold run_command. rewrite bind_ask. unfold bind, emit, log, emit, command_log.
  destruct (env_exec E (tick s)) as [rc|]; [destruct (rc =? 0)|]; reflexivity.
Qed.

Lemma choice_spec {A} (l : list A) s :
  l <> [] ->
  exists x, x ∈ l /\ choice E l s = (Ok x, advance 1 s, []).
Proof.
  intros Hne. unfold choice. rewrite bind_ask.
  assert (Hlt : (env_random E (tick s) mod length l < length l)%nat).
  { apply Nat.mod_upper_bound. destruct l; [contradiction | simpl; lia]. }
  destruct (lookup_lt_is_Some_2 _ _ Hlt) as [x Hx].
  exists x. split; [eapply list_elem_of_lookup_2; eassumption|].
  rewrite Hx. reflexivity.
Qed.

Lemma run_step_eq app cmd s :
  env_interrupt E (2 + tick s)%nat = false ->
  exists d,
    run_step E app cmd s =
      (Ok tt, advance 3 s,
       [Exec (OnStep app) cmd (env_exec E (tick s));
        command_log cmd (env_exec E (tick s)); Sleep d]).
Proof.
  intros Hi. unfold run_step, bind. rewrite run_command_eq.
  unfold uniform. rewrite bind_ask. unfold ret, sleep, bind, emit, ask.
  cbn [advance self tick Nat.add] in *. rewrite Hi.
  eexists. unfold advance; simpl. reflexivity.
Qed.

Lemma executor_calls_command_log c o : executor_calls [command_log c o] = [].
Proof. destruct o as [rc|]; simpl; [destruct (rc =? 0)|]; reflexivity. Qed.

Lemma run_steps_spec app cmds :
  (forall k, env_interrupt E k = false) ->
  forall s,
    exists s' t,
      for_each cmds (run_step E app) s = (Ok tt, s', t) /\
      self s' = self s /\
      executor_calls t = List.map (fun c => (OnStep app, c)) cmds.
Proof.
  intros Hi. induction cmds as [|c cmds IH]; intros s; simpl.
  - exists s, []. repeat split.
  - destruct (run_step_eq app c s (Hi _)) as [d Hstep].
    destruct (IH (advance 3 s)) as (s' & t & Hrest & Hself & Hcalls).
    rewrite (bind_ok _ _ _ _ _ _ Hstep), Hrest.
    eexists _, _. split; [reflexivity|]. split; [exact Hself|].
    unfold events; simpl. destruct (env_exec E (tick s)) as [rc|]; simpl;
      [destruct (rc =? 0)|]; simpl; rewrite Hcalls; reflexivity.
Qed.

End Operations.

(** ** Claims about single operations *)

Lemma pause_branch_silent E msg msg' d :
  is_simulation (Log INFO msg) = false ->
  is_simulation (Log INFO msg') = false ->
  behaves any_change pause_event
    (if_current_app (fun app => log INFO msg >> close_application E app) >>
     log INFO msg' >> sleep E d).
Proof.
  intros H1 H2.
  unfold if_current_app, close_application, run_command, log, sleep.
  silent; unfold pause_event; try rewrite H1; try rewrite H2; reflexivity.
Qed.

Lemma silent_no_simulation {A} (m : M A) s :
  behaves any_change pause_event m ->
  no_simulation (events (m s)) /\ only_closes (events (m s)).
Proof.
  intros Hm. destruct (Hm s) as [_ Ht]. unfold no_simulation, only_closes.
  split; (eapply Forall_impl; [exact Ht|]); intros e He; unfold pause_event in He;
    apply andb_prop in He as [He1 He2].
  - destruct (is_simulation e); [discriminate | reflexivity].
  - intros Hx. rewrite Hx in He2. exact He2.
Qed.

Lemma no_simulation_not_Exists tr :
  no_simulation tr -> ~ Exists (fun e => is_simulation e = true) tr.
Proof.
  intros Hn Hex. apply Exists_exists in Hex as (e & Hin & He).
  unfold no_simulation in Hn. rewrite Forall_forall in Hn.
  specialize (Hn e Hin). congruence.
Qed.

(** C1: in an iteration that begins off hours or on a break, the agent
    chooses no activity script and runs no step of one (the only command
    it may run is the 'close' command of the current application); an
    iteration in which a script is chosen or a step is run began in
    working time. *)
Theorem no_activity_outside_work (E : env) (s : state) :
  let now := env_now E (tick s) in
  let ws := cfg_work_schedule (config (self s)) in
  let tr := events (iteration E s) in
  (classify now ws = Ok OFF_HOURS \/ classify now ws = Ok ON_BREAK ->
   no_simulation tr /\ only_closes tr) /\
  (Exists (fun e => is_simulation e = true) tr -> classify now ws = Ok WORKING).
Proof.
  intros now ws tr.
  assert (Hcases :
    ((no_simulation tr /\ only_closes tr) /\ classify now ws <> Ok WORKING) \/
    classify now ws = Ok WORKING).
  { subst tr. unfold iteration. rewrite bind_get_self.
    unfold datetime_now. rewrite bind_ask. fold now. fold ws.
    unfold classify.
    destruct (is_work_time now ws) as [w|e] eqn:Hw; cbn [rbind].
    2:{ left. rewrite bind_lift_raise. repeat split; try constructor; discriminate. }
    rewrite bind_lift_ok. destruct w; cbn [negb].
    2:{ left. split; [|discriminate].
        apply silent_no_simulation. apply pause_branch_silent; reflexivity. }
    destruct (is_break_time now ws) as [b|e] eqn:Hb; cbn [rbind].
    2:{ left. rewrite bind_lift_raise. repeat split; try constructor; discriminate. }
    rewrite bind_lift_ok. destruct b.
    - left. split; [|discriminate].
      apply silent_no_simulation. apply pause_branch_silent; reflexivity.
    - right. reflexivity. }
  split.
  - intros Hc. destruct Hcases as [[Hn _]|Hw]; [exact Hn|].
    rewrite Hw in Hc. destruct Hc; discriminate.
  - intros Hex. destruct Hcases as [[[Hn _] _]|Hw]; [|exact Hw].
    exfalso. eapply no_simulation_not_Exists; eassumption.
Qed.

Lemma no_activity_outside_work_witness :
  no_simulation
    (events (iteration (calm_at 13 30)
               (agent_on USER_CONFIG (Some "Slack") (Some 1)))).
Proof.
  apply (proj1 (no_activity_outside_work (calm_at 13 30)
                  (agent_on USER_CONFIG (Some "Slack") (Some 1)))).
  right. reflexivity.
Defined.

Lemma get_next_app_eq E s :
  applications_used (config (self s)) <> [] ->
  get_next_app E s =
    let apps := applications_used (config (self s)) in
    let available := filter (fun app => Some app <> current_app (self s)) apps in
    match choice E (match available with [] => apps | _ => available end) s with
    | (Ok app, s', t) => (Ok (Some app), s', t)
    | (Raise e, s', t) => (Raise e, s', t)
    end.
Proof.
  intros Hne. unfold get_next_app. rewrite bind_get_self.
  destruct (applications_used (config (self s))) as [|a l] eqn:Happs; [contradiction|].
  cbv zeta. unfold bind, ret.
  destruct (choice E _ s) as [[[x|e] s'] t]; [rewrite app_nil_r|]; reflexivity.
Qed.

(** C5, as the code has it: when the list holds an application other
    than the current one, the next application is a member of the list
    and is not the current one; when every entry is the current
    application (a single entry, or the same entry repeated), the current
    application is returned; with the list A, B and A current, B is
    returned. *)
Theorem get_next_app_excludes_current (E : env) (s : state) :
  let apps := applications_used (config (self s)) in
  let cur := current_app (self s) in
  (Exists (fun app => Some app <> cur) apps ->
   exists app, outcome_of (get_next_app E s) = Ok (Some app) /\
               app ∈ apps /\ Some app <> cur) /\
  (apps <> [] -> Forall (fun app => Some app = cur) apps ->
   outcome_of (get_next_app E s) = Ok cur) /\
  (apps = ["A"; "B"] -> cur = Some "A" ->
   outcome_of (get_next_app E s) = Ok (Some "B")).
Proof.
  intros apps cur.
  assert (Hex : Exists (fun app => Some app <> cur) apps ->
    exists app, outcome_of (get_next_app E s) = Ok (Some app) /\
                app ∈ filter (fun app => Some app <> cur) apps).
  { intros Hex.
    assert (Hne : apps <> []) by (intros Heq; rewrite Heq in Hex; inversion Hex).
    rewrite (get_next_app_eq E s Hne). cbv zeta. fold apps. fold cur.
    assert (Hf : filter (fun app => Some app <> cur) apps <> []).
    { apply Exists_exists in Hex as (x & Hin & Hx). intros Heq.
      assert (Hx' : x ∈ filter (fun app => Some app <> cur) apps).
      { apply list_elem_of_filter. split; [exact Hx | exact Hin]. }
      rewrite Heq in Hx'. inversion Hx'. }
    destruct (filter (fun app => Some app <> cur) apps) as [|y l] eqn:Hfil; [contradiction|].
    destruct (choice_spec E (y :: l) s Hf) as (x & Hin & ->).
    exists x. split; [reflexivity | exact Hin]. }
  split; [|split].
  - intros H. destruct (Hex H) as (app & Ho & Hin).
    apply list_elem_of_filter in Hin as [Hx Hin]. exists app. auto.
  - intros Hne Hall. rewrite (get_next_app_eq E s Hne). cbv zeta. fold apps. fold cur.
    assert (Hf : filter (fun app => Some app <> cur) apps = []).
    { destruct (filter (fun app => Some app <> cur) apps) as [|y l] eqn:Hfil; [reflexivity|].
      assert (Hy : y ∈ filter (fun app => Some app <> cur) apps)
        by (rewrite Hfil; left).
      apply list_elem_of_filter in Hy as [Hy Hin].
      rewrite Forall_forall in Hall.
      specialize (Hall y Hin). contradiction. }
    rewrite Hf. destruct (choice_spec E apps s Hne) as (x & Hin & ->).
    unfold outcome_of; simpl. rewrite Forall_forall in Hall.
    rewrite (Hall x); [reflexivity | exact Hin].
  - intros Happs Hcur.
    destruct Hex as (app & Ho & Hin).
    { rewrite Happs, Hcur. right. left. discriminate. }
    rewrite Ho. rewrite Happs, Hcur in Hin.
    apply list_elem_of_filter in Hin as [Hx Hin].
    apply list_elem_of_In in Hin. simpl in Hin.
    destruct Hin as [<-|[<-|[]]]; [contradiction | reflexivity].
Qed.

Lemma get_next_app_excludes_current_witness :
  let s := agent_on USER_CONFIG (Some "Slack") (Some 1) in
  exists app, outcome_of (get_next_app (calm_at 10 0) s) = Ok (Some app) /\
              app ∈ applications_used USER_CONFIG /\ Some app <> Some "Slack".
Proof.
  apply (proj1 (get_next_app_excludes_current (calm_at 10 0)
                  (agent_on USER_CONFIG (Some "Slack") (Some 1)))).
  left. discriminate.
Defined.

(** C5 as stated fails on a list that repeats the current application:
    two entries, the current application among them, and it is returned
    again. *)
Lemma get_next_app_duplicates_counterexample :
  let s := agent_on config_with_duplicates (Some "A") (Some 1) in
  (2 <= length (applications_used (config (self s))))%nat /\
  "A" ∈ applications_used (config (self s)) /\
  current_app (self s) = Some "A" /\
  outcome_of (get_next_app (calm_at 10 0) s) = Ok (Some "A").
Proof.
  repeat split.
  - simpl. lia.
  - left.
Qed.

(** C6: whatever the executor answers for each step (success, a failing
    exit status, an exception), as long as no Ctrl-C arrives, the agent
    runs every step of the chosen script, in order and once each, and
    [simulate_activity] returns normally with the session untouched. *)
Theorem simulate_activity_best_effort (E : env) (s : state) (app : appname)
    (activities : list activity) :
  (forall k, env_interrupt E k = false) ->
  cmd_activities (get_application_commands app (custom_commands (self s))) = Some activities ->
  activities <> [] ->
  exists act,
    act ∈ activities /\
    outcome_of (simulate_activity E app s) = Ok tt /\
    executor_calls (events (simulate_activity E app s))
      = List.map (fun c => (OnStep app, c)) (commands act) /\
    length (executor_calls (events (simulate_activity E app s))) = length (commands act) /\
    self (final (simulate_activity E app s)) = self s.
Proof.
  intros Hi Hacts Hne.
  unfold simulate_activity. rewrite bind_get_self. cbv zeta. rewrite Hacts.
  destruct (choice_spec E activities s Hne) as (act & Hin & Hch).
  destruct (run_steps_spec E app (commands act) Hi (advance 1 s))
    as (s' & t & Hsteps & Hself & Hcalls).
  exists act. split; [exact Hin|].
  rewrite (bind_ok _ _ _ _ _ _ Hch).
  assert (Hrest :
    (log INFO (MsgSimulating app (description act)) >>
     for_each (commands act) (run_step E app)) (advance 1 s)
    = (Ok tt, s', Log INFO (MsgSimulating app (description act)) :: t)).
  { unfold bind at 1. unfold log, emit. rewrite Hsteps. reflexivity. }
  rewrite Hrest. unfold outcome_of, events, final; simpl.
  rewrite Hcalls. repeat split.
  - rewrite length_map. reflexivity.
  - exact Hself.
Qed.

Lemma simulate_activity_best_effort_witness :
  let s := agent_on USER_CONFIG (Some "Slack") (Some 1) in
  exists act,
    act ∈ [mk_activity "Checking messages"
             ["xdotool key ctrl+k"; "sleep 1"; "xdotool type 'general'"; "xdotool key Return"];
           mk_activity "Typing message"
             ["xdotool type 'Good morning team!'"; "xdotool key Return"]] /\
    outcome_of (simulate_activity failing (Some "Slack") s) = Ok tt /\
    executor_calls (events (simulate_activity failing (Some "Slack") s))
      = List.map (fun c => (OnStep (Some "Slack"), c)) (commands act) /\
    length (executor_calls (events (simulate_activity failing (Some "Slack") s)))
      = length (commands act) /\
    self (final (simulate_activity failing (Some "Slack") s)) = self s.
Proof.
  apply (simulate_activity_best_effort failing
           (agent_on USER_CONFIG (Some "Slack") (Some 1)) (Some "Slack")).
  - reflexivity.
  - reflexivity.
  - discriminate.
Defined.

(** C7: with no current application and no start time, closing the
    current application, through the guard used by [run] and [main] or
    by [close_application] on the value of [current_app], issues no
    event at all and leaves the agent as it was. *)
Theorem close_when_idle_is_noop (E : env) (s : state) :
  current_app (self s) = None ->
  app_start_time (self s) = None ->
  if_current_app (close_application E) s = (Ok tt, s, []) /\
  close_application E (current_app (self s)) s = (Ok tt, s, []) /\
  executor_calls (events (close_application E (current_app (self s)) s)) = [].
Proof.
  intros Hc Ht. destruct s as [[c cur st d cc] k]. simpl in *. subst cur st.
  repeat split.
Qed.

Lemma close_when_idle_is_noop_witness :
  let s := agent_on USER_CONFIG None None in
  if_current_app (close_application (calm_at 10 0)) s = (Ok tt, s, []) /\
  close_application (calm_at 10 0) (current_app (self s)) s = (Ok tt, s, []) /\
  executor_calls (events (close_application (calm_at 10 0) (current_app (self s)) s)) = [].
Proof.
  apply (close_when_idle_is_noop (calm_at 10 0) (agent_on USER_CONFIG None None));
    reflexivity.
Defined.

(** C8, as the code has it: for a name that is in neither dictionary the
    catalog returns the empty dictionary; [open_application] then returns
    False and [simulate_activity] returns, both without any event and
    without touching the agent; [close_application] issues no event and
    clears the session. Nothing is logged. A custom dictionary, when
    there is one for the name, is the one returned. *)
Theorem lookup_miss_is_noop (E : env) (s : state) (key : string) :
  custom_commands (self s) !! key = None ->
  app_configs !! key = None ->
  get_application_commands (Some key) (custom_commands (self s)) = no_commands /\
  open_application E (Some key) s = (Ok false, s, []) /\
  simulate_activity E (Some key) s = (Ok tt, s, []) /\
  close_application E (Some key) s = (Ok tt, mk_state (cleared (self s)) (tick s), []) /\
  (forall (custom : gmap string app_commands) c,
     custom !! key = Some c -> get_application_commands (Some key) custom = c).
Proof.
  intros Hcu Hbi.
  assert (Hl : get_application_commands (Some key) (custom_commands (self s)) = no_commands).
  { unfold get_application_commands. rewrite Hcu, Hbi. reflexivity. }
  split; [exact Hl|]. split; [|split; [|split]].
  - unfold open_application. rewrite bind_get_self. cbv zeta. rewrite Hl. reflexivity.
  - unfold simulate_activity. rewrite bind_get_self. cbv zeta. rewrite Hl. reflexivity.
  - unfold close_application. rewrite bind_get_self. cbv zeta. rewrite Hl. reflexivity.
  - intros custom c Hc. unfold get_application_commands. rewrite Hc. reflexivity.
Qed.

Lemma lookup_miss_is_noop_witness :
  let s := agent_on USER_CONFIG (Some "Slack") (Some 1) in
  open_application (calm_at 10 0) (Some "Terminal") s = (Ok false, s, []).
Proof.
  apply (lookup_miss_is_noop (calm_at 10 0)
           (agent_on USER_CONFIG (Some "Slack") (Some 1)) "Terminal");
    reflexivity.
Defined.

(** C8 as stated fails: no warning is logged for a name that the catalog
    does not know. *)
Lemma lookup_miss_not_logged_counterexample :
  let s := agent_on USER_CONFIG (Some "Slack") (Some 1) in
  custom_commands (self s) !! "Terminal" = None /\
  app_configs !! "Terminal" = None /\
  ~ warns (events (open_application (calm_at 10 0) (Some "Terminal") s)) /\
  ~ warns (events (close_application (calm_at 10 0) (Some "Terminal") s)) /\
  ~ warns (events (simulate_activity (calm_at 10 0) (Some "Terminal") s)).
Proof.
  repeat split; try reflexivity; intros [msg Hin]; vm_compute in Hin; exact Hin.
Qed.

(** ** Claims about the loop and the program *)

Lemma builtin_profiles :
  map_Forall (fun _ c => is_Some (cmd_open c) /\ is_Some (cmd_close c) /\
                         is_Some (cmd_activities c)) app_configs.
Proof.
  unfold app_configs. cbn [list_to_map foldr fst snd].
  repeat (apply map_Forall_insert_2; [repeat split; eexists; reflexivity|]).
  apply map_Forall_empty.
Qed.

(** Every built-in profile has a 'close' command. *)
Lemma builtin_profiles_close : every_profile_closes ∅.
Proof.
  intros [key|] Hne; [|contradiction].
  unfold get_application_commands in *. rewrite lookup_empty in *.
  destruct (app_configs !! key) as [c|] eqn:Hk; simpl in *; [|contradiction].
  apply (builtin_profiles key c Hk).
Qed.

Lemma untracked (P : Prop) : false = true -> P.
Proof. discriminate. Qed.

(** C4: when every profile has a 'close' command, in the history of the
    agent, after any number of iterations and also at an exception and
    after the [except] clause of [main], no two 'open' commands are issued
    without a 'close' command between them, and [current_app] is the one
    application that the history leaves open, or None when it leaves
    none. *)
Theorem at_most_one_open (E : env) (cfg : agent_config) (fuel : nat) :
  every_profile_closes (cfg_custom_commands cfg) ->
  (no_double_open (events (main_until_exception E cfg fuel)) /\
   current_app (self (final (main_until_exception E cfg fuel)))
     = open_after None (events (main_until_exception E cfg fuel))) /\
  (no_double_open (events (main E cfg fuel)) /\
   current_app (self (final (main E cfg fuel)))
     = open_after None (events (main E cfg fuel))).
Proof.
  intros Hcl.
  pose proof (main_until_exception_inv E cfg true fuel (fun _ => Hcl))
    as (_ & _ & _ & _ & H1).
  pose proof (main_inv E cfg true fuel (fun _ => Hcl)) as (_ & _ & _ & _ & H2).
  destruct (H1 eq_refl) as [Hb1 Ho1]. destruct (H2 eq_refl) as [Hb2 Ho2].
  split; (split; [|congruence]).
  - apply (bracketed_sound _ false). rewrite Hb1. discriminate.
  - apply (bracketed_sound _ false). rewrite Hb2. discriminate.
Qed.

Lemma at_most_one_open_witness :
  no_double_open (events (main (interrupted_at 40) USER_CONFIG 3)).
Proof.
  apply (at_most_one_open (interrupted_at 40) USER_CONFIG 3).
  exact builtin_profiles_close.
Defined.

Lemma keeps_coherent_refl a : keeps_coherent a a.
Proof. intros H. exact H. Qed.

Lemma keeps_coherent_trans a b c :
  keeps_coherent a b -> keeps_coherent b c -> keeps_coherent a c.
Proof. unfold keeps_coherent. auto. Qed.

Lemma all_events (tr : list event) : Forall (fun e => any_event e = true) tr.
Proof. apply Forall_forall. reflexivity. Qed.

Lemma open_application_coherent E app :
  behaves keeps_coherent any_event (open_application E app).
Proof.
  intros s. split; [|apply all_events]. intros Hco.
  unfold open_application. rewrite bind_get_self. cbv zeta.
  destruct app as [a|]; [|exact Hco].
  destruct (cmd_open _) as [c|]; [|exact Hco].
  unfold bind at 1. unfold log, emit. unfold bind at 1. rewrite run_command_eq.
  unfold bind, modify_self, time_time, ask, ret; simpl. split; discriminate.
Qed.

Lemma close_application_coherent E app :
  behaves keeps_coherent any_event (close_application E app).
Proof.
  intros s. split; [|apply all_events]. intros _.
  unfold close_application. rewrite bind_get_self. cbv zeta.
  destruct (cmd_close _) as [c|].
  - unfold bind at 1. unfold bind at 1. unfold log, emit. rewrite run_command_eq.
    unfold bind, modify_self, ret; simpl. split; reflexivity.
  - unfold bind, modify_self, ret; simpl. split; reflexivity.
Qed.

Ltac coherent_auto :=
  repeat (first [ apply open_application_coherent
                | apply close_application_coherent
                | behaves_step ];
          try solve [ exact keeps_coherent_refl | exact keeps_coherent_trans
                    | reflexivity | (intros ? H; exact H) ]).

Lemma iteration_coherent E : behaves keeps_coherent any_event (iteration E).
Proof.
  unfold iteration, if_current_app, should_switch_app, get_next_app,
    simulate_activity, datetime_now, time_time.
  coherent_auto.
Qed.

Lemma run_loop_coherent E fuel : behaves keeps_coherent any_event (run_loop E fuel).
Proof.
  induction fuel as [|n IH]; simpl.
  - apply behaves_ret, keeps_coherent_refl.
  - apply behaves_bind; [exact keeps_coherent_trans | apply iteration_coherent |].
    intros _. exact IH.
Qed.

(** C10: the agent starts with [current_app] and [app_start_time] both
    None; from any state in which the two fields are None together or set
    together, [open_application], [close_application], an iteration of the
    loop and any number of iterations lead to such a state, whether they
    return or raise; so does [main] as a whole. *)
Theorem session_coherent (E : env) (cfg : agent_config) :
  coherent (self (fresh E cfg)) /\
  (forall s app, coherent (self s) ->
     coherent (self (final (open_application E app s)))) /\
  (forall s app, coherent (self s) ->
     coherent (self (final (close_application E app s)))) /\
  (forall s, coherent (self s) -> coherent (self (final (iteration E s)))) /\
  (forall s fuel, coherent (self s) -> coherent (self (final (run_loop E fuel s)))) /\
  (forall fuel,
     coherent (self (final (main_until_exception E cfg fuel))) /\
     coherent (self (final (main E cfg fuel)))).
Proof.
  split; [split; reflexivity|].
  split; [intros s app; apply (open_application_coherent E app s)|].
  split; [intros s app; apply (close_application_coherent E app s)|].
  split; [intros s; apply (iteration_coherent E s)|].
  split; [intros s fuel; apply (run_loop_coherent E fuel s)|].
  intros fuel. split.
  - apply (main_until_exception_inv E cfg false fuel), untracked.
  - apply (main_inv E cfg false fuel), untracked.
Qed.

Lemma session_coherent_witness :
  coherent (self (final (open_application (calm_at 10 0) (Some "Slack")
                           (agent_on USER_CONFIG None None)))).
Proof.
  apply (proj1 (proj2 (session_coherent (calm_at 10 0) USER_CONFIG))).
  split; reflexivity.
Defined.




(** * Further properties of the agent *)

(** ** The schedule evaluator at its edges *)

(** X1: a schedule whose end is before its start (a night shift) has no
    working time at all: every instant is off hours. *)
Theorem overnight_schedule_never_works (now : datetime) (ws : work_schedule)
    (st et : time) :
  Tod.valid (dt_time now) ->
  strptime_HM (start_time ws) = Ok st ->
  strptime_HM (end_time ws) = Ok et ->
  Tod.us_of_day et < Tod.us_of_day st ->
  classify now ws = Ok OFF_HOURS.
Proof.
  intros Hnow Hst Het Hlt.
  destruct (is_work_time_spec now ws st et Hnow Hst Het) as (w & Hw & Hiff).
  unfold classify. rewrite Hw; simpl.
  destruct w; [|reflexivity]. pose proof (proj1 Hiff eq_refl). lia.
Qed.

Lemma overnight_schedule_never_works_witness :
  classify (at_time 23 0) (mk_schedule "22:00" "06:00" []) = Ok OFF_HOURS.
Proof.
  apply (overnight_schedule_never_works (at_time 23 0)
           (mk_schedule "22:00" "06:00" []) (mk_time 22 0 0 0) (mk_time 6 0 0 0)).
  - unfold Tod.valid; simpl; lia.
  - reflexivity.
  - reflexivity.
  - vm_compute. reflexivity.
Defined.

(** X2: a break shorter than a day that reaches midnight or goes beyond
    it never applies: its end is taken as a time of day, which lies before
    its start, so the break is skipped as if it were not listed. *)
Theorem break_reaching_midnight_is_ignored (now : datetime) (s e : string)
    (b : break_info) (rest : list break_info) (bs : time) :
  datetime_valid now ->
  dt_date now < MAXORDINAL ->
  strptime_HM (start b) = Ok bs ->
  0 <= duration_minutes b < 1440 ->
  1440 <= hour bs * 60 + minute bs + duration_minutes b ->
  is_break_time now (mk_schedule s e (b :: rest))
    = is_break_time now (mk_schedule s e rest).
Proof.
  intros [Hdate Hnow] Hmax Hbs Hd Hover.
  destruct (strptime_HM_valid _ _ Hbs) as (Hv & Hs & Hu).
  pose proof Hv as (Hh & Hm & _ & _).
  assert (Hq : (hour bs * 60 + minute bs + duration_minutes b) / 1440 = 1).
  { symmetry. apply (Z.div_unique _ 1440 1
      (hour bs * 60 + minute bs + duration_minutes b - 1440)); lia. }
  destruct (combine_add_minutes_time_spec (dt_date now) bs (duration_minutes b) Hv Hs Hu)
    as (be & Hbe & Hvbe & Hend).
  { rewrite Hq. unfold MAXORDINAL in *. lia. }
  unfold is_break_time; simpl. rewrite Hbs; simpl. rewrite Hbe; simpl.
  assert (Hlt : Tod.us_of_day be < Tod.us_of_day bs).
  { rewrite Hend. unfold break_end_us, Tod.day_us, Tod.us_of_day. rewrite Hs, Hu.
    set (x := ((hour bs * 60 + minute bs) * 60 + 0) * 1000000 + 0
              + duration_minutes b * 60000000).
    assert (Hmod : x mod 86400000000 = x - 86400000000).
    { symmetry. apply (Z.mod_unique x 86400000000 1); subst x; lia. }
    rewrite Hmod. subst x. lia. }
  destruct (Tod.le bs (dt_time now) && Tod.le (dt_time now) be) eqn:Hin; [|reflexivity].
  apply andb_prop in Hin as [H1 H2].
  apply time_le_spec in H1; [|assumption|assumption].
  apply time_le_spec in H2; [|assumption|assumption]. lia.
Qed.

Lemma break_reaching_midnight_is_ignored_witness :
  is_break_time (at_time 23 30) (mk_schedule "00:00" "23:59" [mk_break "23:00" 120])
    = is_break_time (at_time 23 30) (mk_schedule "00:00" "23:59" []).
Proof.
  apply (break_reaching_midnight_is_ignored (at_time 23 30) "00:00" "23:59"
           (mk_break "23:00" 120) [] (mk_time 23 0 0 0)).
  - unfold datetime_valid, Tod.valid, MAXORDINAL; simpl; lia.
  - unfold MAXORDINAL; simpl; lia.
  - reflexivity.
  - simpl; lia.
  - simpl; lia.
Defined.

(** ** Opening, simulating and pausing *)

Section MoreOperations.

Variable E : env.

Lemma sleep_eq d s :
  sleep E d s =
    (if env_interrupt E (tick s) then Raise KeyboardInterrupt else Ok tt,
     advance 1 s, [Sleep d]).
Proof.
  unfold sleep. unfold bind at 1. unfold emit. rewrite bind_ask.
  destruct (env_interrupt E (tick s)); reflexivity.
Qed.

Lemma close_application_eq app s :
  close_application E app s =
    match cmd_close (get_application_commands app (custom_commands (self s))) with
    | Some c =>
        (Ok tt, mk_state (cleared (self s)) (S (tick s)),
         [Log INFO (MsgClosing app); Exec (OnClose app) c (env_exec E (tick s));
          command_log c (env_exec E (tick s))])
    | None => (Ok tt, mk_state (cleared (self s)) (tick s), [])
    end.
Proof.
  unfold close_application. rewrite bind_get_self. cbv zeta.
  destruct (cmd_close _) as [c|].
  - unfold bind at 1. unfold bind at 1. unfold log, emit. rewrite run_command_eq.
    reflexivity.
  - reflexivity.
Qed.

Lemma open_application_eq app s :
  open_application E app s =
    match cmd_open (get_application_commands app (custom_commands (self s))) with
    | Some c =>
        (Ok true,
         mk_state (set_app_start_time (Some (env_time E (S (tick s))))
                     (set_current_app app (self s))) (S (S (tick s))),
         [Log INFO (MsgOpening app); Exec (OnOpen app) c (env_exec E (tick s));
          command_log c (env_exec E (tick s))])
    | None => (Ok false, s, [])
    end.
Proof.
  unfold open_application. rewrite bind_get_self. cbv zeta.
  destruct (cmd_open _) as [c|]; [|reflexivity].
  unfold bind at 1. unfold log, emit. unfold bind at 1. rewrite run_command_eq.
  reflexivity.
Qed.

End MoreOperations.

(** X3: [open_application] does not look at what the 'open' command did:
    whenever the dictionary of the application has an 'open' command it
    issues that command once, records the application as current with the
    time of the clock, and returns True, whether the command succeeded,
    exited with an error or could not be started. *)
Theorem open_application_trusts_the_command (E : env) (s : state)
    (app : appname) (c : string) :
  cmd_open (get_application_commands app (custom_commands (self s))) = Some c ->
  outcome_of (open_application E app s) = Ok true /\
  executor_calls (events (open_application E app s)) = [(OnOpen app, c)] /\
  current_app (self (final (open_application E app s))) = app /\
  app_start_time (self (final (open_application E app s)))
    = Some (env_time E (S (tick s))) /\
  session_duration (self (final (open_application E app s))) = session_duration (self s).
Proof.
  intros Hc. rewrite open_application_eq, Hc. unfold outcome_of, events, final; simpl.
  repeat split.
  destruct (env_exec E (tick s)) as [rc|]; simpl; [destruct (rc =? 0)|]; reflexivity.
Qed.

Lemma open_application_trusts_the_command_witness :
  let s := agent_on USER_CONFIG None None in
  outcome_of (open_application failing (Some "Slack") s) = Ok true /\
  executor_calls (events (open_application failing (Some "Slack") s))
    = [(OnOpen (Some "Slack"), "slack")] /\
  current_app (self (final (open_application failing (Some "Slack") s))) = Some "Slack" /\
  app_start_time (self (final (open_application failing (Some "Slack") s)))
    = Some (env_time failing 1) /\
  session_duration (self (final (open_application failing (Some "Slack") s)))
    = session_duration (self s).
Proof.
  apply (open_application_trusts_the_command failing
           (agent_on USER_CONFIG None None) (Some "Slack") "slack").
  reflexivity.
Defined.

(** X4: an empty list of activities is not a lookup miss: with
    'activities': [] in the dictionary of the application,
    [simulate_activity] raises IndexError (from random.choice) before any
    event, where a dictionary without the key returns quietly. *)
Theorem simulate_activity_empty_list_raises (E : env) (s : state) (app : appname) :
  cmd_activities (get_application_commands app (custom_commands (self s))) = Some [] ->
  simulate_activity E app s = (Raise IndexError, advance 1 s, []).
Proof.
  intros Hc. unfold simulate_activity. rewrite bind_get_self. cbv zeta. rewrite Hc.
  unfold choice, bind at 1. rewrite bind_ask. reflexivity.
Qed.

Lemma simulate_activity_empty_list_raises_witness :
  let cfg := mk_config "u" "r" default_schedule ["X"]
               {[ "X" := mk_app (Some "xterm") (Some "pkill xterm") (Some []) ]} in
  simulate_activity (calm_at 10 0) (Some "X") (agent_on cfg (Some "X") (Some 1))
    = (Raise IndexError, advance 1 (agent_on cfg (Some "X") (Some 1)), []).
Proof.
  apply simulate_activity_empty_list_raises. reflexivity.
Defined.





(** ** Steps that always return and call no executor *)

Lemma calm_ret {A} (a : A) : calm (ret a).
Proof. intros s. exists a, s, []. repeat split. constructor. Qed.

Lemma calm_get_self : calm get_self.
Proof. intros s. exists (self s), s, []. repeat split. constructor. Qed.

Lemma calm_ask {A} (o : nat -> A) : calm (ask o).
Proof. intros s. eexists _, _, []. repeat split. constructor. Qed.

Lemma calm_emit e : plain e = true -> calm (emit e).
Proof. intros He s. exists tt, s, [e]. repeat split. repeat constructor. exact He. Qed.

Lemma calm_bind {A B} (m : M A) (k : A -> M B) :
  calm m -> (forall a, calm (k a)) -> calm (bind m k).
Proof.
  intros Hm Hk s. destruct (Hm s) as (a & s1 & t1 & Hms & Hs1 & Ht1).
  destruct (Hk a s1) as (b & s2 & t2 & Hks & Hs2 & Ht2).
  exists b, s2, (t1 ++ t2). unfold bind. rewrite Hms, Hks.
  repeat split; [congruence | apply Forall_app; split; assumption].
Qed.

Lemma calm_when b (m : M unit) : calm m -> calm (when b m).
Proof. destruct b; [auto | intros; apply calm_ret]. Qed.

Ltac calm_step :=
  first
    [ apply calm_ret
    | apply calm_get_self
    | apply calm_ask
    | apply calm_emit; reflexivity
    | apply calm_when
    | apply calm_bind; [|intros]
    | match goal with
      | |- calm (let _ := _ in _) => cbv zeta
      | |- calm (if ?b then _ else _) => destruct b
      end ].

Ltac calm_auto := repeat calm_step.

Lemma calm_log lvl msg : calm (log lvl msg).
Proof. unfold log. calm_auto. Qed.

Lemma calm_randint E a b : calm (randint E a b).
Proof. unfold randint. calm_auto. Qed.

Lemma calm_should_switch_app E : calm (should_switch_app E).
Proof. unfold should_switch_app, time_time. calm_auto. Qed.

Lemma triple_calm {A} (m : M A) (P X : state -> list event -> Prop) :
  calm m -> steady P -> triple P m (fun _ => P) X.
Proof.
  intros Hm HP s h H. destruct (Hm s) as (a & s' & t & -> & Hs & Ht).
  eapply HP; eassumption.
Qed.

Lemma steady_and (P : state -> list event -> Prop) (F : Prop) :
  steady P -> steady (fun s h => P s h /\ F).
Proof. intros HP s s' h t [H HF] Hs Ht. split; [eapply HP; eassumption | exact HF]. Qed.

Lemma steady_current (P : state -> list event -> Prop) app :
  steady P -> steady (fun s h => P s h /\ current_app (self s) = app).
Proof.
  intros HP s s' h t [H Hc] Hs Ht. split; [eapply HP; eassumption | congruence].
Qed.

(** A fact that does not depend on the state can be taken out of a
    precondition. *)
Lemma triple_pure {A} (P : state -> list event -> Prop) (F : Prop) (m : M A) Q X :
  (F -> triple P m Q X) -> triple (fun s h => P s h /\ F) m Q X.
Proof. intros Hm s h [H HF]. apply (Hm HF s h H). Qed.

Lemma triple_exn {A} (P : state -> list event -> Prop) (m : M A)
    (Q : A -> state -> list event -> Prop) (X X' : state -> list event -> Prop) :
  triple P m Q X' -> (forall s h, X' s h -> X s h) -> triple P m Q X.
Proof. intros Hm HX. eapply triple_conseq; [exact Hm | | |]; auto. Qed.

Lemma triple_lift {A} (P : state -> list event -> Prop) (r : result A) :
  triple P (lift r) (fun a s h => P s h /\ r = Ok a)
    (fun s h => P s h /\ exists e, r = Raise e).
Proof.
  intros s h H. destruct r as [a|e]; simpl; rewrite app_nil_r; split; eauto.
Qed.

Lemma triple_if_current (P Q X : state -> list event -> Prop) (k : appname -> M unit) :
  (forall app, truthy_str app = true ->
     triple (fun s h => P s h /\ current_app (self s) = app) (k app) (fun _ => Q) X) ->
  (forall s h, P s h -> Q s h) ->
  triple P (if_current_app k) (fun _ => Q) X.
Proof.
  intros Hk HPQ. unfold if_current_app. apply triple_get_self. intros a.
  destruct (truthy_str (current_app a)) eqn:Ht.
  - eapply triple_pre; [apply (Hk (current_app a) Ht)|].
    intros s h [H <-]. split; [exact H | reflexivity].
  - eapply triple_pre; [apply (triple_ret tt (fun _ => Q) X)|].
    intros s h [H _]. apply HPQ, H.
Qed.

Section Steps.

Variable E : env.

Lemma sleep_triple (P : state -> list event -> Prop) d :
  steady P ->
  triple P (sleep E d) (fun _ => P)
    (fun s h => P s h /\ exists k, env_interrupt E k = true).
Proof.
  intros HP s h H. rewrite sleep_eq.
  assert (H' : P (advance 1 s) (h ++ [Sleep d])).
  { eapply HP; [exact H | reflexivity | repeat constructor]. }
  destruct (env_interrupt E (tick s)) eqn:Hi; [split; eauto | exact H'].
Qed.

Lemma randint_triple (P X : state -> list event -> Prop) a b :
  steady P -> a <= b ->
  triple P (randint E a b) (fun v s h => P s h /\ a <= v <= b) X.
Proof.
  intros HP Hab s h H. unfold randint. rewrite bind_ask. unfold ret. split.
  - eapply HP; [exact H | reflexivity | constructor].
  - pose proof (Z.mod_pos_bound (Z.of_nat (env_random E (tick s))) (b - a + 1)
                  ltac:(lia)). lia.
Qed.

Lemma datetime_now_triple (P X : state -> list event -> Prop) :
  steady P ->
  triple P (datetime_now E) (fun now s h => P s h /\ exists k, now = env_now E k) X.
Proof.
  intros HP s h H. unfold datetime_now, ask. split.
  - eapply HP; [exact H | reflexivity | constructor].
  - eauto.
Qed.

Lemma choice_triple {A} (P : state -> list event -> Prop) (l : list A) :
  steady P ->
  triple P (choice E l) (fun x s h => P s h /\ x ∈ l) (fun s h => P s h /\ l = []).
Proof.
  intros HP s h H. destruct l as [|y l'].
  - unfold choice. rewrite bind_ask. simpl. split; [|reflexivity].
    eapply HP; [exact H | reflexivity | constructor].
  - destruct (choice_spec E (y :: l') s ltac:(discriminate)) as (x & Hin & ->).
    split; [|exact Hin]. eapply HP; [exact H | reflexivity | constructor].
Qed.

Lemma get_next_app_triple (P X : state -> list event -> Prop) (cfg : agent_config) :
  steady P ->
  (forall s h, P s h -> config (self s) = cfg) ->
  triple P (get_next_app E)
    (fun r s h => P s h /\
       (r = None \/ exists a, r = Some a /\ a ∈ applications_used cfg)) X.
Proof.
  intros HP Hcfg s h H. pose proof (Hcfg s h H) as Hc.
  destruct (applications_used (config (self s))) as [|a0 l0] eqn:Happs.
  - unfold get_next_app. rewrite bind_get_self, Happs. simpl. rewrite app_nil_r.
    split; [exact H | left; reflexivity].
  - rewrite get_next_app_eq by (rewrite Happs; discriminate). cbv zeta.
    rewrite Happs.
    set (fl := filter (fun app => Some app <> current_app (self s)) (a0 :: l0)).
    assert (Hsub : forall x, x ∈ match fl with [] => a0 :: l0 | _ => fl end ->
                             x ∈ applications_used cfg).
    { intros x Hx. rewrite <- Hc, Happs. destruct fl as [|y fl'] eqn:Hfl; [exact Hx|].
      subst fl. rewrite <- Hfl in Hx. apply list_elem_of_filter in Hx as [_ Hx]. exact Hx. }
    destruct (choice_spec E (match fl with [] => a0 :: l0 | _ => fl end) s)
      as (x & Hin & ->).
    { destruct fl; discriminate. }
    split.
    + eapply HP; [exact H | reflexivity | constructor].
    + right. exists x. split; [reflexivity | apply Hsub, Hin].
Qed.

End Steps.

(** ** The invariant of provenance *)

Lemma plain_allowed cfg t :
  Forall (fun e => plain e = true) t -> Forall (allowed cfg) t.
Proof.
  intros H. eapply Forall_impl; [exact H|].
  intros e He. destruct e; simpl in *; [discriminate | exact I | exact I].
Qed.

Lemma provenance_extend cfg s s' h t :
  provenance_inv cfg s h -> self s' = self s -> Forall (allowed cfg) t ->
  provenance_inv cfg s' (h ++ t).
Proof.
  intros (H1 & H2 & H3 & H4 & H5) Hs Ht. unfold provenance_inv. rewrite Hs.
  refine (conj H1 (conj H2 (conj H3 (conj H4 _)))).
  apply Forall_app. split; assumption.
Qed.

Lemma provenance_steady cfg : steady (provenance_inv cfg).
Proof.
  intros s s' h t H Hs Ht. eapply provenance_extend; eauto using plain_allowed.
Qed.

Lemma allowed_command_log cfg c o : allowed cfg (command_log c o).
Proof. destruct o as [rc|]; simpl; [destruct (rc =? 0)|]; exact I. Qed.

Ltac agent_simpl :=
  cbn [self tick config current_app app_start_time session_duration custom_commands
       set_app_start_time set_current_app set_session_duration cleared].

Section Provenance.

Variable E : env.
Variable cfg : agent_config.

Local Notation "'Prov'" := (provenance_inv cfg).
Local Notation "'Crash'" := (fun s h => provenance_inv cfg s h /\ crash_cause E cfg).

Lemma close_application_prov (X : state -> list event -> Prop) app :
  triple (fun s h => Prov s h /\ current_app (self s) = app)
    (close_application E app) (fun _ => Prov) X.
Proof.
  intros s h [(H1 & H2 & H3 & H4 & H5) Hcur]. rewrite close_application_eq.
  destruct (cmd_close _) as [c|] eqn:Hc.
  - refine (conj H1 (conj H2 (conj _ (conj H4 _)))); agent_simpl.
    + intros a Ha; discriminate.
    + apply Forall_app. split; [exact H5|].
      repeat constructor; [|apply allowed_command_log].
      destruct app as [a|]; [|discriminate Hc].
      destruct (H3 a Hcur) as (Hne & Hin & Hopen).
      exists a. split; [reflexivity|]. split; [exact Hin|]. cbv zeta.
      split; [exact Hopen|]. rewrite <- H2. exact Hc.
  - rewrite app_nil_r. refine (conj H1 (conj H2 (conj _ (conj H4 H5)))); agent_simpl.
    intros a Ha; discriminate.
Qed.

Lemma open_application_prov (X : state -> list event -> Prop) app :
  triple (fun s h => Prov s h /\
            exists a, app = Some a /\ a <> "" /\ a ∈ applications_used cfg)
    (open_application E app) (fun _ => Prov) X.
Proof.
  intros s h [(H1 & H2 & H3 & H4 & H5) (a & -> & Hne & Hin)].
  rewrite open_application_eq.
  destruct (cmd_open _) as [c|] eqn:Hc.
  - assert (Hacc : accounted cfg (OnOpen (Some a)) c).
    { exists a. split; [reflexivity|]. split; [exact Hin|]. cbv zeta.
      rewrite <- H2, Hc. eauto. }
    refine (conj H1 (conj H2 (conj _ (conj H4 _)))); agent_simpl.
    + intros x Hx. injection Hx as <-. rewrite <- H2, Hc. eauto.
    + apply Forall_app. split; [exact H5|].
      repeat constructor; [exact Hacc | apply allowed_command_log].
  - rewrite app_nil_r. exact (conj H1 (conj H2 (conj H3 (conj H4 H5)))).
Qed.

Lemma set_session_duration_prov (X : state -> list event -> Prop) d :
  triple (fun s h => Prov s h /\ 300 <= d <= 900)
    (modify_self (set_session_duration d)) (fun _ => Prov) X.
Proof.
  intros s h [(H1 & H2 & H3 & H4 & H5) Hd]. simpl. rewrite app_nil_r.
  exact (conj H1 (conj H2 (conj H3 (conj Hd H5)))).
Qed.

Lemma run_command_prov (X : state -> list event -> Prop) site c :
  accounted cfg site c ->
  triple Prov (run_command E site c) (fun _ => Prov) X.
Proof.
  intros Hacc s h H. rewrite run_command_eq.
  eapply provenance_extend; [exact H | reflexivity|].
  repeat constructor; [exact Hacc | apply allowed_command_log].
Qed.

Lemma run_steps_prov app cmds :
  (forall c, c ∈ cmds -> accounted cfg (OnStep app) c) ->
  triple Prov (for_each cmds (run_step E app)) (fun _ => Prov) Crash.
Proof.
  induction cmds as [|c cmds IH]; intros Hacc; simpl.
  - apply (triple_ret tt (fun _ => Prov) Crash).
  - eapply triple_bind.
    + unfold run_step. eapply triple_bind.
      * apply run_command_prov, Hacc, list_elem_of_here.
      * intros []. eapply triple_bind.
        -- apply triple_calm; [unfold uniform; calm_auto | apply provenance_steady].
        -- intros pause. eapply triple_exn; [apply sleep_triple, provenance_steady|].
           intros s h [H Hi]. split; [exact H | left; exact Hi].
    + intros []. apply IH. intros c' Hc'. apply Hacc, list_elem_of_further, Hc'.
Qed.

Lemma simulate_activity_prov app :
  triple (fun s h => Prov s h /\ current_app (self s) = app)
    (simulate_activity E app) (fun _ => Prov) Crash.
Proof.
  unfold simulate_activity. apply triple_get_self. intros a. cbv zeta.
  destruct (cmd_activities (get_application_commands app (custom_commands a)))
    as [activities|] eqn:Hacts.
  2:{ eapply triple_pre; [apply (triple_ret tt (fun _ => Prov) Crash)|].
      intros s h [[H _] _]. exact H. }
  destruct app as [x|]; [|discriminate Hacts].
  intros s h [[H Hcur] Ha]. subst a.
  pose proof H as (H1 & H2 & H3 & H4 & H5).
  destruct (H3 x Hcur) as (Hne & Hin & Hopen).
  rewrite H2 in Hacts.
  revert s h H Hcur H1 H2 H3 H4 H5.
  assert (Ht : triple Prov
    (let* act := choice E activities in
     log INFO (MsgSimulating (Some x) (description act)) >>
     for_each (commands act) (run_step E (Some x)))
    (fun _ => Prov) Crash).
  { eapply triple_bind.
    - eapply triple_exn; [apply choice_triple, provenance_steady|].
      intros s h [H ->]. split; [exact H|]. right. right. exists x. auto.
    - intros act. apply triple_pure. intros Hact.
      eapply triple_bind;
        [apply triple_calm; [apply calm_log | apply provenance_steady]|intros []].
      apply run_steps_prov. intros c Hc. exists x.
      split; [reflexivity|]. split; [exact Hin|]. cbv zeta.
      split; [exact Hopen|]. exists activities, act. auto. }
  intros s h H _ _ _ _ _ _. apply (Ht s h H).
Qed.

Lemma pause_prov msg msg' :
  triple Prov
    (if_current_app (fun app => log INFO msg >> close_application E app) >>
     log INFO msg' >> sleep E (seconds 300))
    (fun _ => Prov) Crash.
Proof.
  eapply triple_bind; [|intros []].
  - apply (triple_if_current Prov Prov); [|auto]. intros app _.
    eapply triple_bind;
      [apply triple_calm; [apply calm_log | apply steady_current, provenance_steady]
      |intros []].
    apply close_application_prov.
  - eapply triple_bind;
      [apply triple_calm; [apply calm_log | apply provenance_steady]|intros []].
    eapply triple_exn; [apply sleep_triple, provenance_steady|].
    intros s h [H Hi]. split; [exact H | left; exact Hi].
Qed.

Lemma switch_prov :
  triple Prov
    (if_current_app (close_application E) >>
     let* pause_time := randint E 30 120 in
     log INFO (MsgPausing pause_time) >>
     sleep E (seconds pause_time) >>
     let* next_app := get_next_app E in
     if truthy_str next_app then
       let* opened := open_application E next_app in
       when opened (
         let* d := randint E 300 900 in
         modify_self (set_session_duration d) >>
         sleep E (seconds 5))
     else ret tt)
    (fun _ => Prov) Crash.
Proof.
  eapply triple_bind; [|intros []].
  { apply (triple_if_current Prov Prov); [|auto]. intros app _. apply close_application_prov. }
  eapply triple_bind;
    [apply triple_calm; [apply calm_randint | apply provenance_steady]|intros pause_time].
  eapply triple_bind;
    [apply triple_calm; [apply calm_log | apply provenance_steady]|intros []].
  eapply triple_bind; [|intros []].
  { eapply triple_exn; [apply sleep_triple, provenance_steady|].
    intros s h [H Hi]. split; [exact H | left; exact Hi]. }
  eapply triple_bind;
    [apply (get_next_app_triple E Prov Crash cfg);
       [apply provenance_steady | intros s h H; apply H]
    |intros next_app].
  apply triple_pure. intros Hnext.
  destruct (truthy_str next_app) eqn:Ht.
  2:{ apply (triple_ret tt (fun _ => Prov) Crash). }
  destruct (truthy_str_Some _ Ht) as (a & -> & Hne).
  destruct Hnext as [Hn|(a' & Ha' & Hin)]; [discriminate|]. injection Ha' as <-.
  eapply triple_bind.
  - eapply triple_pre; [apply (open_application_prov Crash (Some a))|].
    intros s h H. split; [exact H | eauto].
  - intros opened. apply triple_when; [intros _ | intros _ s h H; exact H].
    eapply triple_bind;
      [apply (randint_triple E Prov Crash 300 900); [apply provenance_steady | lia]
      |intros d].
    eapply triple_bind; [apply set_session_duration_prov | intros []].
    eapply triple_exn; [apply sleep_triple, provenance_steady|].
    intros s h [H Hi]. split; [exact H | left; exact Hi].
Qed.

Lemma triple_get_self_cfg {A} (k : agent -> M A) Q X :
  (forall a, config a = cfg -> triple Prov (k a) Q X) ->
  triple Prov (bind get_self k) Q X.
Proof.
  intros Hk. apply triple_get_self. intros a s h [H <-].
  apply (Hk (self s) (proj1 H) s h H).
Qed.

Lemma iteration_prov : triple Prov (iteration E) (fun _ => Prov) Crash.
Proof.
  unfold iteration. apply triple_get_self_cfg. intros a Ha. rewrite Ha.
  eapply triple_bind;
    [apply (datetime_now_triple E Prov Crash), provenance_steady | intros now].
  apply triple_pure. intros [k ->].
  eapply triple_bind.
  { eapply triple_exn; [apply triple_lift|].
    intros s h [H [e He]]. split; [exact H|]. right. left. exists k, e.
    unfold classify. rewrite He. reflexivity. }
  intros work. apply triple_pure. intros Hw.
  destruct work; cbn [negb]; [|apply pause_prov].
  eapply triple_bind.
  { eapply triple_exn; [apply triple_lift|].
    intros s h [H [e He]]. split; [exact H|]. right. left. exists k, e.
    unfold classify. rewrite Hw; simpl. rewrite He. reflexivity. }
  intros brk. apply triple_pure. intros Hb.
  destruct brk; [apply pause_prov|].
  eapply triple_bind;
    [apply triple_calm; [apply calm_should_switch_app | apply provenance_steady]
    |intros switch].
  eapply triple_bind;
    [apply triple_when; [intros _; apply switch_prov | intros _ s h H; exact H]
    |intros []].
  eapply triple_bind; [|intros []].
  { apply (triple_if_current Prov Prov); [|auto]. intros app _. apply simulate_activity_prov. }
  eapply triple_bind;
    [apply triple_calm; [apply calm_randint | apply provenance_steady]|intros p].
  eapply triple_exn; [apply sleep_triple, provenance_steady|].
  intros s h [H Hi]. split; [exact H | left; exact Hi].
Qed.

Lemma run_loop_prov fuel :
  triple Prov (run_loop E fuel) (fun r s h => Prov s h /\ r = StillRunning) Crash.
Proof.
  induction fuel as [|n IH]; simpl.
  - intros s h H. simpl. rewrite app_nil_r. auto.
  - eapply triple_bind; [apply iteration_prov | intros []; exact IH].
Qed.

Lemma run_prov fuel :
  triple Prov (run E fuel) (fun r s h => Prov s h /\ r = StillRunning) Crash.
Proof.
  unfold run. apply triple_get_self_cfg. intros a _.
  do 4 (eapply triple_bind;
          [apply triple_calm; [apply calm_log | apply provenance_steady]|intros []]).
  apply run_loop_prov.
Qed.

Lemma on_exception_prov (X : state -> list event -> Prop) e :
  triple Prov (on_exception E e) (fun r s h => Prov s h /\ r = Returned) X.
Proof.
  unfold on_exception.
  eapply triple_bind; [|intros []].
  - apply triple_calm; [destruct e; apply calm_log | apply provenance_steady].
  - eapply triple_bind; [|intros []].
    + apply (triple_if_current Prov Prov); [|auto]. intros app _. apply close_application_prov.
    + intros s h H. simpl. rewrite app_nil_r. auto.
Qed.

Lemma fresh_prov : Prov (fresh E cfg) [Log INFO MsgStartingUnified].
Proof.
  refine (conj eq_refl (conj eq_refl (conj _ (conj _ _)))).
  - intros a Ha; discriminate.
  - unfold fresh, final; simpl.
    change (900 - 300 + 1) with 601.
    pose proof (Z.mod_pos_bound (Z.of_nat (env_random E 0)) 601 ltac:(lia)). lia.
  - repeat constructor.
Qed.

(** The invariant at the point where [run] is left, with the reason when
    it was left by an exception. *)
Lemma main_until_exception_prov fuel :
  Prov (final (main_until_exception E cfg fuel)) (events (main_until_exception E cfg fuel)) /\
  (outcome_of (main_until_exception E cfg fuel) = Ok StillRunning \/
   ((exists e, outcome_of (main_until_exception E cfg fuel) = Raise e) /\
    crash_cause E cfg)).
Proof.
  unfold main_until_exception. rewrite boot_eq.
  pose proof (run_prov fuel (fresh E cfg) [Log INFO MsgStartingUnified] fresh_prov) as H.
  destruct (run E fuel (fresh E cfg)) as [[[r|e] s] t];
    unfold final, events, outcome_of; simpl in *.
  - destruct H as [H ->]. auto.
  - destruct H as [H Hc]. split; [exact H|]. right. eauto.
Qed.

Lemma main_prov fuel :
  Prov (final (main E cfg fuel)) (events (main E cfg fuel)) /\
  exists r, outcome_of (main E cfg fuel) = Ok r.
Proof.
  assert (Ht : triple Prov (try_except (run E fuel) (on_exception E))
                 (fun r s h => Prov s h) (fun _ _ => False)).
  { eapply triple_try_except.
    - eapply triple_post; [apply run_prov|]. intros r s h [H _]. exact H.
    - intros e. eapply triple_conseq; [apply (on_exception_prov (fun _ _ => False)) | | |].
      + intros s h [H _]. exact H.
      + intros r s h [H _]. exact H.
      + auto. }
  unfold main, main_body. rewrite boot_eq.
  specialize (Ht (fresh E cfg) [Log INFO MsgStartingUnified] fresh_prov).
  destruct (try_except (run E fuel) (on_exception E) (fresh E cfg)) as [[[r|e] s] t];
    unfold final, events, outcome_of; simpl in *.
  - split; [exact Ht | eauto].
  - contradiction.
Qed.

End Provenance.

(** ** What the running agent keeps and what it never does *)

(** X6: the target length of a session is between 300 and 900 seconds
    from the construction of the agent on, after any number of
    iterations, at an exception and after the [except] clause of
    [main]. *)
Theorem session_duration_in_range (E : env) (cfg : agent_config) (fuel : nat) :
  300 <= session_duration (self (fresh E cfg)) <= 900 /\
  300 <= session_duration (self (final (main_until_exception E cfg fuel))) <= 900 /\
  300 <= session_duration (self (final (main E cfg fuel))) <= 900.
Proof.
  split; [apply (fresh_prov E cfg)|]. split.
  - apply (main_until_exception_prov E cfg fuel).
  - apply (main_prov E cfg fuel).
Qed.

(** X7: the current application of the running agent is always an entry
    of [applications_used], is not the empty string, and has an 'open'
    command in the catalog. *)
Theorem current_app_is_configured (E : env) (cfg : agent_config) (fuel : nat)
    (a : string) :
  current_app (self (final (main_until_exception E cfg fuel))) = Some a ->
  a <> "" /\ a ∈ applications_used cfg /\
  is_Some (cmd_open (get_application_commands (Some a) (cfg_custom_commands cfg))).
Proof.
  intros Ha.
  destruct (main_until_exception_prov E cfg fuel) as [(_ & _ & H3 & _) _].
  apply (H3 a Ha).
Qed.

Lemma current_app_is_configured_witness :
  "Visual Studio Code" <> "" /\
  "Visual Studio Code" ∈ applications_used USER_CONFIG /\
  is_Some (cmd_open (get_application_commands (Some "Visual Studio Code")
                       (cfg_custom_commands USER_CONFIG))).
Proof.
  apply (current_app_is_configured (calm_at 10 0) USER_CONFIG 1 "Visual Studio Code").
  reflexivity.
Defined.

(** X8: every command that the program hands to the executor, in the
    loop and in the [except] clause of [main], is taken from the catalog
    entry of an application of [applications_used]: it is the 'open'
    command, the 'close' command, or a command of one of the activities
    of that entry. *)
Theorem every_command_is_from_the_catalog (E : env) (cfg : agent_config)
    (fuel : nat) (site : call_site) (c : string) (o : outcome) :
  In (Exec site c o) (events (main E cfg fuel)) ->
  accounted cfg site c.
Proof.
  intros Hin.
  destruct (main_prov E cfg fuel) as [(_ & _ & _ & _ & Hall) _].
  rewrite Forall_forall in Hall. apply list_elem_of_In in Hin.
  apply (Hall _ Hin).
Qed.

Lemma every_command_is_from_the_catalog_witness :
  accounted USER_CONFIG (OnClose (Some "Visual Studio Code")) "pkill -f code".
Proof.
  apply (every_command_is_from_the_catalog (interrupted_at 8) USER_CONFIG 1
           (OnClose (Some "Visual Studio Code")) "pkill -f code" (Exited 0)).
  vm_compute. tauto.
Defined.

Lemma allowed_no_calls cfg tr :
  (forall a, a ∈ applications_used cfg ->
     cmd_open (get_application_commands (Some a) (cfg_custom_commands cfg)) = None) ->
  Forall (allowed cfg) tr -> executor_calls tr = [].
Proof.
  intros Hno. induction 1 as [|e tr He _ IH]; simpl; [reflexivity|].
  destruct e as [site c o| |]; try exact IH.
  destruct He as (a & _ & Hin & Hopen & _). rewrite (Hno a Hin) in Hopen.
  destruct Hopen; discriminate.
Qed.

(** X9: when no application of [applications_used] has an 'open' command
    in the catalog (an empty list, or only names that the catalog does not
    know), the program never calls the executor. *)
Theorem nothing_to_open_nothing_run (E : env) (cfg : agent_config) (fuel : nat) :
  (forall a, a ∈ applications_used cfg ->
     cmd_open (get_application_commands (Some a) (cfg_custom_commands cfg)) = None) ->
  executor_calls (events (main E cfg fuel)) = [] /\
  current_app (self (final (main E cfg fuel))) = None.
Proof.
  intros Hno. destruct (main_prov E cfg fuel) as [(_ & _ & H3 & _ & Hall) _].
  split; [apply (allowed_no_calls cfg _ Hno Hall)|].
  destruct (current_app _) as [a|] eqn:Ha; [|reflexivity].
  destruct (H3 a eq_refl) as (_ & Hin & Hopen). rewrite (Hno a Hin) in Hopen.
  destruct Hopen; discriminate.
Qed.

Lemma nothing_to_open_nothing_run_witness :
  let cfg := mk_config "u" "r" default_schedule ["Terminal"; "Notes"] ∅ in
  executor_calls (events (main (calm_at 10 0) cfg 5)) = [] /\
  current_app (self (final (main (calm_at 10 0) cfg 5))) = None.
Proof.
  apply (nothing_to_open_nothing_run (calm_at 10 0)
           (mk_config "u" "r" default_schedule ["Terminal"; "Notes"] ∅) 5).
  intros a Ha. simpl in Ha.
  apply elem_of_cons in Ha as [->|Ha]; [reflexivity|].
  apply elem_of_cons in Ha as [->|Ha]; [reflexivity|].
  inversion Ha.
Defined.

(** X10: with Ctrl-C delivered during [time.sleep], the loop of [run]
    never returns normally, and it is left by an exception only for one
    of three reasons: a Ctrl-C, a work schedule that cannot be evaluated
    (a time string that strptime rejects, a break whose end is not a
    representable date), or an application of the list whose dictionary
    has an empty list of activities. Without any of them the loop is
    still running after any number of iterations. *)
Theorem run_raises_only_for_a_cause (E : env) (cfg : agent_config) (fuel : nat) :
  (forall e, outcome_of (main_until_exception E cfg fuel) = Raise e ->
     crash_cause E cfg) /\
  (~ crash_cause E cfg ->
     outcome_of (main_until_exception E cfg fuel) = Ok StillRunning) /\
  outcome_of (main_until_exception E cfg fuel) <> Ok Returned.
Proof.
  destruct (main_until_exception_prov E cfg fuel) as [_ [H|[[e' He'] Hc]]].
  - rewrite H. split; [intros e He; discriminate|]. split; [reflexivity | discriminate].
  - rewrite He'. split; [intros e He; exact Hc|]. split; [contradiction | discriminate].
Qed.

Lemma no_crash_cause_in_calm_world : ~ crash_cause (calm_at 10 0) USER_CONFIG.
Proof.
  intros [[k Hk]|[(k & e & He)|(a & Ha & Hacts)]].
  - discriminate.
  - discriminate.
  - simpl in Ha. repeat (apply elem_of_cons in Ha as [->|Ha]; [discriminate|]).
    inversion Ha.
Qed.

Lemma run_raises_only_for_a_cause_witness :
  outcome_of (main_until_exception (calm_at 10 0) USER_CONFIG 3) = Ok StillRunning.
Proof.
  apply (proj1 (proj2 (run_raises_only_for_a_cause (calm_at 10 0) USER_CONFIG 3))).
  exact no_crash_cause_in_calm_world.
Defined.

Lemma main_outcomes (E : env) (cfg : agent_config) (fuel : nat) :
  (outcome_of (main E cfg fuel) = Ok StillRunning /\
   main E cfg fuel = main_until_exception E cfg fuel) \/
  (outcome_of (main E cfg fuel) = Ok Returned /\
   (exists e, outcome_of (main_until_exception E cfg fuel) = Raise e) /\
   idle (self (final (main E cfg fuel)))).
Proof.
  pose proof (main_cases E cfg fuel) as Hm.
  pose proof (main_until_exception_prov E cfg fuel) as [_ Hout].
  pose proof (main_until_exception_inv E cfg false fuel (untracked _)) as Hinv.
  destruct (main_until_exception E cfg fuel) as [[[r|e] s1] t1] eqn:Hu;
    unfold outcome_of, final, events in *; simpl in *.
  - left. destruct Hout as [Hr|[[e He] _]]; [|discriminate].
    rewrite Hm. split; [exact Hr | reflexivity].
  - right.
    pose proof (on_exception_inv E cfg false (untracked _) e s1 t1 Hinv) as Hh.
    pose proof (on_exception_prov E cfg (fun _ _ => False) e s1 t1) as Hp.
    rewrite Hm in *. destruct (on_exception E e s1) as [[[r|e'] s2] t2];
      unfold outcome_of, final, events in *; simpl in *.
    + assert (r = Returned) as ->.
      { apply Hp. pose proof (main_until_exception_prov E cfg fuel) as [Hq _].
        rewrite Hu in Hq. exact Hq. }
      split; [reflexivity|]. split; [eauto | apply Hh].
    + exfalso. apply Hp. pose proof (main_until_exception_prov E cfg fuel) as [Hq _].
      rewrite Hu in Hq. exact Hq.
Qed.

(** X11: when [main] returns, [run] was left by an exception and no
    application is current: each of the two [except] clauses closes the
    current application, which clears it, before [main] returns. As long
    as [main] has not returned it is inside [run], and nothing of the
    [except] clauses has happened. *)
Theorem main_returns_after_cleanup (E : env) (cfg : agent_config) (fuel : nat) :
  (outcome_of (main E cfg fuel) = Ok Returned ->
     (exists e, outcome_of (main_until_exception E cfg fuel) = Raise e) /\
     current_app (self (final (main E cfg fuel))) = None) /\
  (outcome_of (main E cfg fuel) = Ok StillRunning ->
     main E cfg fuel = main_until_exception E cfg fuel).
Proof.
  destruct (main_outcomes E cfg fuel) as [[Hr Heq]|(Hr & He & Hidle & _)].
  - split; [intros H; rewrite Hr in H; discriminate | intros _; exact Heq].
  - split; [intros _; split; [exact He | exact Hidle]|].
    intros H. rewrite Hr in H. discriminate.
Qed.

Lemma main_returns_after_cleanup_witness :
  (exists e, outcome_of (main_until_exception (interrupted_at 8) USER_CONFIG 1) = Raise e) /\
  current_app (self (final (main (interrupted_at 8) USER_CONFIG 1))) = None.
Proof.
  apply (main_returns_after_cleanup (interrupted_at 8) USER_CONFIG 1).
  vm_compute. reflexivity.
Defined.

(** ** The choice of the next application inside [run] *)

Lemma triple_if_current' (P Q X : state -> list event -> Prop) (k : appname -> M unit) :
  (forall app, truthy_str app = true ->
     triple (fun s h => P s h /\ current_app (self s) = app) (k app) (fun _ => Q) X) ->
  (forall s h, P s h -> truthy_str (current_app (self s)) = false -> Q s h) ->
  triple P (if_current_app k) (fun _ => Q) X.
Proof.
  intros Hk HPQ. unfold if_current_app. apply triple_get_self. intros a.
  destruct (truthy_str (current_app a)) eqn:Ht.
  - eapply triple_pre; [apply (Hk (current_app a) Ht)|].
    intros s h [H <-]. split; [exact H | reflexivity].
  - eapply triple_pre; [apply (triple_ret tt (fun _ => Q) X)|].
    intros s h [H <-]. apply HPQ; assumption.
Qed.

Lemma filter_all {A} (P : A -> Prop) `{forall x, Decision (P x)} (l : list A) :
  (forall x, P x) -> filter P l = l.
Proof.
  intros HP. induction l as [|a l IH]; [reflexivity|].
  rewrite filter_cons_True by apply HP. rewrite IH. reflexivity.
Qed.

Lemma bind_ext {A B} (m : M A) (f g : A -> M B) s :
  (forall a s', f a s' = g a s') -> bind m f s = bind m g s.
Proof.
  intros H. unfold bind. destruct (m s) as [[[a|e] s1] t1]; [|reflexivity].
  rewrite H. reflexivity.
Qed.

Lemma bind_assoc {A B C} (m : M A) (f : A -> M B) (g : B -> M C) s :
  bind (bind m f) g s = bind m (fun a => bind (f a) g) s.
Proof.
  unfold bind. destruct (m s) as [[[a|e] s1] t1]; [|reflexivity].
  destruct (f a s1) as [[[b|e] s2] t2]; [|reflexivity].
  destruct (g b s2) as [[r s3] t3]. rewrite app_assoc. reflexivity.
Qed.

Lemma get_next_app_idle E s :
  current_app (self s) = None ->
  outcome_of (get_next_app E s)
    = Ok (applications_used (config (self s))
            !! (env_random E (tick s) mod length (applications_used (config (self s))))%nat) /\
  self (final (get_next_app E s)) = self s /\
  events (get_next_app E s) = [].
Proof.
  intros Hcur. unfold get_next_app. rewrite bind_get_self. cbv zeta. rewrite Hcur.
  destruct (applications_used (config (self s))) as [|a l] eqn:Happs; [repeat split|].
  rewrite filter_all by (intros; discriminate). unfold choice.
  rewrite bind_assoc, bind_ask.
  assert (Hlt : (env_random E (tick s) mod length (a :: l) < length (a :: l))%nat).
  { apply Nat.mod_upper_bound. simpl; lia. }
  destruct (lookup_lt_is_Some_2 _ _ Hlt) as [x Hx]. rewrite Hx.
  unfold bind, ret, outcome_of, final, events; simpl. repeat split.
Qed.

Lemma steady_idle cfg :
  steady (fun s h => config (self s) = cfg /\ current_app (self s) = None).
Proof. intros s s' h t [H1 H2] Hs _. rewrite Hs. auto. Qed.

(** X12: inside [run] the exclusion of the current application never
    applies. [get_next_app] is only called after the guarded close, which
    has already reset [current_app] to None, so the application is drawn
    from the whole list: the one just closed can be opened again. *)
Theorem exclusion_never_applies_in_run (E : env) (s : state) (r : appname) :
  current_app (self s) <> Some "" ->
  outcome_of (pick_next E s) = Ok r ->
  exists k,
    r = applications_used (config (self s))
          !! (env_random E k mod length (applications_used (config (self s))))%nat.
Proof.
  intros Hne Hr.
  set (cfg := config (self s)).
  assert (Ht : triple
    (fun s h => config (self s) = cfg /\ current_app (self s) <> Some "")
    (pick_next E)
    (fun r _ _ => exists k,
       r = applications_used cfg !! (env_random E k mod length (applications_used cfg))%nat)
    (fun _ _ => True)).
  { unfold pick_next. eapply triple_bind.
    - apply (triple_if_current' _
               (fun s h => config (self s) = cfg /\ current_app (self s) = None)).
      + intros app _ s0 h [[Hc _] _]. rewrite close_application_eq.
        destruct (cmd_close _); split; assumption || reflexivity.
      + intros s0 h [Hc Hn] Hf. split; [exact Hc|].
        destruct (current_app (self s0)) as [a|]; [|reflexivity].
        simpl in Hf. destruct (String.eqb_spec a ""); [subst; contradiction | discriminate].
    - intros []. eapply triple_bind;
        [apply triple_calm; [apply calm_randint | apply steady_idle]|intros p].
      eapply triple_bind;
        [apply triple_calm; [apply calm_log | apply steady_idle]|intros []].
      eapply triple_bind;
        [eapply triple_exn; [apply sleep_triple, steady_idle | auto]|intros []].
      intros s0 h [Hc Hcur].
      destruct (get_next_app_idle E s0 Hcur) as (Ho & _ & _).
      destruct (get_next_app E s0) as [[[x|e] s1] t1];
        unfold outcome_of in Ho; simpl in Ho; [|exact I].
      injection Ho as ->. rewrite Hc. eauto. }
  specialize (Ht s [] (conj eq_refl Hne)).
  destruct (pick_next E s) as [[[x|e] s1] t1]; unfold outcome_of in Hr; simpl in Hr;
    [|discriminate].
  injection Hr as <-. exact Ht.
Qed.

Lemma exclusion_never_applies_in_run_witness :
  exists k,
    Some "Slack"
      = applications_used USER_CONFIG
          !! (env_random (drawing 2) k mod length (applications_used USER_CONFIG))%nat.
Proof.
  apply (exclusion_never_applies_in_run (drawing 2)
           (agent_on USER_CONFIG (Some "Slack") (Some 1)) (Some "Slack")).
  - discriminate.
  - reflexivity.
Defined.

(** The switch of [iteration] is [pick_next] followed by the opening. *)
Lemma switch_is_pick_next E s :
  (if_current_app (close_application E) >>
   let* pause_time := randint E 30 120 in
   log INFO (MsgPausing pause_time) >>
   sleep E (seconds pause_time) >>
   let* next_app := get_next_app E in
   if truthy_str next_app then
     let* opened := open_application E next_app in
     when opened (
       let* d := randint E 300 900 in
       modify_self (set_session_duration d) >>
       sleep E (seconds 5))
   else ret tt) s
  = (let* next_app := pick_next E in
     if truthy_str next_app then
       let* opened := open_application E next_app in
       when opened (
         let* d := randint E 300 900 in
         modify_self (set_session_duration d) >>
         sleep E (seconds 5))
     else ret tt) s.
Proof.
  unfold pick_next.
  rewrite bind_assoc. apply bind_ext. intros [] s1.
  rewrite bind_assoc. apply bind_ext. intros p s2.
  rewrite bind_assoc. apply bind_ext. intros [] s3.
  rewrite bind_assoc. reflexivity.
Qed.

(** ** A working iteration of an idle agent *)

Lemma executor_calls_app h t :
  executor_calls (h ++ t) = executor_calls h ++ executor_calls t.
Proof.
  induction h as [|e h IH]; [reflexivity|].
  destruct e; simpl; rewrite IH; reflexivity.
Qed.

Lemma executor_calls_plain t :
  Forall (fun e => plain e = true) t -> executor_calls t = [].
Proof.
  induction 1 as [|e t He _ IH]; [reflexivity|].
  destruct e; simpl in *; [discriminate | exact IH | exact IH].
Qed.

Lemma at_calls_steady cfg cur calls : steady (at_calls cfg cur calls).
Proof.
  intros s s' h t (H1 & H2 & H3 & H4) Hs Ht. unfold at_calls. rewrite Hs.
  rewrite executor_calls_app, (executor_calls_plain t Ht), app_nil_r. auto.
Qed.

Lemma steady_and_l (F : Prop) (P : state -> list event -> Prop) :
  steady P -> steady (fun s h => F /\ P s h).
Proof. intros HP s s' h t [HF H] Hs Ht. split; [exact HF | eapply HP; eassumption]. Qed.

Lemma steady_exists {T} (P : T -> state -> list event -> Prop) :
  (forall x, steady (P x)) -> steady (fun s h => exists x, P x s h).
Proof. intros HP s s' h t [x H] Hs Ht. exists x. eapply HP; eassumption. Qed.

Lemma triple_exists {T A} (P : T -> state -> list event -> Prop) (m : M A) Q X :
  (forall x, triple (P x) m Q X) -> triple (fun s h => exists x, P x s h) m Q X.
Proof. intros Hm s h [x H]. apply (Hm x s h H). Qed.

Lemma classify_working now ws :
  classify now ws = Ok WORKING ->
  is_work_time now ws = Ok true /\ is_break_time now ws = Ok false.
Proof.
  unfold classify. destruct (is_work_time now ws) as [[|]|e]; simpl; try discriminate.
  destruct (is_break_time now ws) as [[|]|e]; simpl; try discriminate. auto.
Qed.

Lemma iteration_working_eq E s :
  classify (env_now E (tick s)) (cfg_work_schedule (config (self s))) = Ok WORKING ->
  iteration E s = working_branch E (advance 1 s).
Proof.
  intros Hc. apply classify_working in Hc as [Hw Hb].
  unfold iteration. rewrite bind_get_self. unfold datetime_now. rewrite bind_ask.
  rewrite Hw, bind_lift_ok. cbn [negb]. rewrite Hb, bind_lift_ok. reflexivity.
Qed.

Section WorkingIteration.

Variable E : env.
Variable cfg : agent_config.
Hypothesis no_interrupt : forall k, env_interrupt E k = false.

Local Notation "'Never'" := (fun (_ : state) (_ : list event) => False).

Lemma sleep_never (P : state -> list event -> Prop) d :
  steady P -> triple P (sleep E d) (fun _ => P) Never.
Proof.
  intros HP. eapply triple_exn; [apply sleep_triple, HP|].
  intros s h [_ [k Hk]]. rewrite no_interrupt in Hk. discriminate.
Qed.

Lemma simulate_activity_calls a activities calls :
  cmd_activities (get_application_commands (Some a) (cfg_custom_commands cfg))
    = Some activities ->
  activities <> [] ->
  triple (at_calls cfg (Some a) calls) (simulate_activity E (Some a))
    (fun _ s h => exists act, act ∈ activities /\
       at_calls cfg (Some a)
         (calls ++ List.map (fun x => (OnStep (Some a), x)) (commands act)) s h)
    Never.
Proof.
  intros Hacts Hne s h (H1 & H2 & H3 & H4).
  unfold simulate_activity. rewrite bind_get_self. cbv zeta. rewrite H2, Hacts.
  destruct (choice_spec E activities s Hne) as (act & Hin & Hch).
  destruct (run_steps_spec E (Some a) (commands act) no_interrupt (advance 1 s))
    as (s' & t & Hsteps & Hself & Hcalls).
  rewrite (bind_ok _ _ _ _ _ _ Hch).
  assert (Hrest :
    (log INFO (MsgSimulating (Some a) (description act)) >>
     for_each (commands act) (run_step E (Some a))) (advance 1 s)
    = (Ok tt, s', Log INFO (MsgSimulating (Some a) (description act)) :: t)).
  { unfold bind at 1. unfold log, emit. rewrite Hsteps. reflexivity. }
  rewrite Hrest. unfold outcome_of, events, final; simpl.
  exists act. split; [exact Hin|]. unfold at_calls. rewrite Hself.
  rewrite executor_calls_app. simpl. rewrite H4, Hcalls. auto.
Qed.

Lemma working_branch_from_idle :
  applications_used cfg <> [] ->
  (forall a, a ∈ applications_used cfg -> launchable cfg a) ->
  triple (at_calls cfg None []) (working_branch E)
    (fun _ s h => exists a act calls,
       a ∈ applications_used cfg /\ opened_and_simulated cfg a act calls /\
       at_calls cfg (Some a) calls s h)
    Never.
Proof.
  intros Hne Hall. unfold working_branch.
  eapply triple_bind.
  { (* should_switch_app on an idle agent *)
    instantiate (1 := fun b s h => at_calls cfg None [] s h /\ b = true).
    intros s h H. pose proof H as (_ & _ & Hcur & _).
    unfold should_switch_app. rewrite bind_get_self, Hcur. simpl.
    rewrite app_nil_r. auto. }
  intros switch. apply triple_pure. intros ->. cbn [when].
  eapply triple_bind.
  { (* the switch: nothing to close, then one application is opened *)
    instantiate (1 := fun _ s h => exists a c,
      at_calls cfg (Some a) [(OnOpen (Some a), c)] s h /\
      (a ∈ applications_used cfg /\
       cmd_open (get_application_commands (Some a) (cfg_custom_commands cfg)) = Some c)).
    eapply triple_bind.
    { apply (triple_if_current' _ (at_calls cfg None [])); [|auto].
      intros app Ht s h [(_ & _ & Hcur & _) Happ]. rewrite Hcur in Happ. subst app.
      discriminate. }
    intros []. eapply triple_bind;
      [apply triple_calm; [apply calm_randint | apply at_calls_steady]|intros p].
    eapply triple_bind;
      [apply triple_calm; [apply calm_log | apply at_calls_steady]|intros []].
    eapply triple_bind; [apply sleep_never, at_calls_steady|intros []].
    eapply triple_bind.
    { instantiate (1 := fun r s h =>
        at_calls cfg None [] s h /\ exists a, r = Some a /\ a ∈ applications_used cfg).
      intros s h H. pose proof H as (Hc & _ & Hcur & _).
      destruct (get_next_app_idle E s Hcur) as (Ho & Hs & Ht).
      destruct (get_next_app E s) as [[[r|e] s1] t1];
        unfold outcome_of, final, events in *; simpl in *; [|discriminate].
      subst t1. injection Ho as ->. rewrite Hc.
      split; [eapply at_calls_steady; [exact H | exact Hs | constructor]|].
      assert (Hlt : (env_random E (tick s) mod length (applications_used cfg)
                     < length (applications_used cfg))%nat).
      { apply Nat.mod_upper_bound. destruct (applications_used cfg);
          [contradiction | simpl; lia]. }
      destruct (lookup_lt_is_Some_2 _ _ Hlt) as [x Hx].
      exists x. split; [exact Hx | eapply list_elem_of_lookup_2; eassumption]. }
    intros next_app. apply triple_pure. intros (a & -> & Hin).
    destruct (Hall a Hin) as (Hna & c & activities & Hopen & _).
    assert (Ht : truthy_str (Some a) = true).
    { simpl. destruct (String.eqb_spec a ""); [contradiction | reflexivity]. }
    rewrite Ht.
    eapply triple_bind.
    { instantiate (1 := fun opened s h =>
        at_calls cfg (Some a) [(OnOpen (Some a), c)] s h /\ opened = true).
      intros s h (H1 & H2 & H3 & H4). rewrite open_application_eq, H2, Hopen.
      split; [|reflexivity]. unfold at_calls. agent_simpl.
      rewrite executor_calls_app, H4. repeat split; try assumption.
      destruct (env_exec E (tick s)) as [rc|]; simpl; [destruct (rc =? 0)|]; reflexivity. }
    intros opened. apply triple_pure. intros ->. cbn [when].
    eapply triple_post.
    - eapply triple_bind;
        [apply triple_calm; [apply calm_randint | apply at_calls_steady]|intros d].
      eapply triple_bind.
      + instantiate (1 := fun _ => at_calls cfg (Some a) [(OnOpen (Some a), c)]).
        intros s h H. simpl. rewrite app_nil_r. exact H.
      + intros []. apply sleep_never, at_calls_steady.
    - intros [] s h H. exists a, c. auto. }
  intros []. apply triple_exists. intros a. apply triple_exists. intros c.
  apply triple_pure. intros [Hin Hopen].
  destruct (Hall a Hin) as (Hna & c' & activities & Hopen' & Hacts & Hnonempty).
  rewrite Hopen in Hopen'. injection Hopen' as <-.
  eapply triple_post.
  - eapply triple_bind.
    { apply (triple_if_current' _
        (fun s h => exists act, act ∈ activities /\
           at_calls cfg (Some a)
             ([(OnOpen (Some a), c)]
              ++ List.map (fun x => (OnStep (Some a), x)) (commands act)) s h)).
      - intros app Ht s h [H Happ]. pose proof H as (_ & _ & Hcur & _).
        rewrite Hcur in Happ. subst app.
        apply (simulate_activity_calls a activities [(OnOpen (Some a), c)] Hacts Hnonempty).
        exact H.
      - intros s h (_ & _ & Hcur & _) Hf. rewrite Hcur in Hf. simpl in Hf.
        destruct (String.eqb_spec a ""); [contradiction | discriminate]. }
    intros [].
    assert (Hst : steady (fun s h => exists act, act ∈ activities /\
           at_calls cfg (Some a)
             ([(OnOpen (Some a), c)]
              ++ List.map (fun x => (OnStep (Some a), x)) (commands act)) s h)).
    { apply steady_exists. intros act. apply steady_and_l, at_calls_steady. }
    eapply triple_bind; [apply triple_calm; [apply calm_randint | exact Hst]|intros p].
    apply sleep_never, Hst.
  - intros [] s h (act & Hact & H).
    exists a, act, ([(OnOpen (Some a), c)]
                    ++ List.map (fun x => (OnStep (Some a), x)) (commands act)).
    split; [exact Hin|]. split; [|exact H]. exists c, activities. auto.
Qed.

End WorkingIteration.

(** X13: an iteration in working time of an agent that has no current
    application, when every application of the list can be opened and
    simulated and no Ctrl-C arrives: the iteration returns, one
    application of the list has become current, and the calls to the
    executor are its 'open' command followed by the commands of one of
    its activities, in order, and nothing else. *)
Theorem working_iteration_from_idle (E : env) (s : state) :
  let cfg := config (self s) in
  (forall k, env_interrupt E k = false) ->
  custom_commands (self s) = cfg_custom_commands cfg ->
  current_app (self s) = None ->
  classify (env_now E (tick s)) (cfg_work_schedule cfg) = Ok WORKING ->
  applications_used cfg <> [] ->
  (forall a, a ∈ applications_used cfg -> launchable cfg a) ->
  exists a act calls,
    a ∈ applications_used cfg /\
    opened_and_simulated cfg a act calls /\
    outcome_of (iteration E s) = Ok tt /\
    current_app (self (final (iteration E s))) = Some a /\
    executor_calls (events (iteration E s)) = calls.
Proof.
  intros cfg Hi Hcc Hcur Hw Hne Hall.
  rewrite (iteration_working_eq E s Hw).
  pose proof (working_branch_from_idle E cfg Hi Hne Hall (advance 1 s) []) as H.
  destruct (working_branch E (advance 1 s)) as [[[[]|e] s1] t1];
    unfold outcome_of, final, events; simpl in *.
  - destruct H as (a & act & calls & Hin & Hos & (_ & _ & Hc & Hcalls)).
    { repeat split; assumption. }
    exists a, act, calls. auto.
  - exfalso. apply H. repeat split; assumption.
Qed.

Lemma user_config_launchable a :
  a ∈ applications_used USER_CONFIG -> launchable USER_CONFIG a.
Proof.
  intros Ha. simpl in Ha.
  repeat (apply elem_of_cons in Ha as [->|Ha];
          [split; [discriminate|]; eexists _, _;
           split; [reflexivity|]; split; [reflexivity | discriminate]|]).
  inversion Ha.
Qed.

Lemma working_iteration_from_idle_witness :
  let s := agent_on USER_CONFIG None None in
  exists a act calls,
    a ∈ applications_used USER_CONFIG /\
    opened_and_simulated USER_CONFIG a act calls /\
    outcome_of (iteration (calm_at 10 0) s) = Ok tt /\
    current_app (self (final (iteration (calm_at 10 0) s))) = Some a /\
    executor_calls (events (iteration (calm_at 10 0) s)) = calls.
Proof.
  apply (working_iteration_from_idle (calm_at 10 0) (agent_on USER_CONFIG None None)).
  - reflexivity.
  - reflexivity.
  - reflexivity.
  - reflexivity.
  - discriminate.
  - exact user_config_launchable.
Defined.

(** ** A working iteration inside a session *)





(** * The installer *)

Lemma installer_runs_app (h1 h2 : list Installer.event) :
  Installer.runs (h1 ++ h2) = Installer.runs h1 ++ Installer.runs h2.
Proof. unfold Installer.runs. apply omap_app. Qed.

Lemma installer_commands_run_app (h1 h2 : list Installer.event) :
  Installer.commands_run (h1 ++ h2) = Installer.commands_run h1 ++ Installer.commands_run h2.
Proof. unfold Installer.commands_run. rewrite installer_runs_app. apply map_app. Qed.

Lemma installer_bind_ok {A B} (m : Installer.M A) (k : A -> Installer.M B) s a s1 t1 :
  m s = (Ok a, s1, t1) ->
  Installer.bind m k s =
    (Installer.outcome_of (k a s1), Installer.final (k a s1), t1 ++ Installer.events (k a s1)).
Proof.
  intros H. unfold Installer.bind. rewrite H.
  destruct (k a s1) as [[r s2] t2]. reflexivity.
Qed.

Lemma installer_bind_raise {A B} (m : Installer.M A) (k : A -> Installer.M B) s e s1 t1 :
  m s = (Raise e, s1, t1) ->
  Installer.bind m k s = (Raise e, s1, t1).
Proof. intros H. unfold Installer.bind. rewrite H. reflexivity. Qed.

Lemma installer_triple_eta {A} (x : result A * Installer.state * list Installer.event) :
  x = (Installer.outcome_of x, Installer.final x, Installer.events x).
Proof. destruct x as [[r s] t]. reflexivity. Qed.

Lemma installer_run_trace_runs c co o :
  Installer.runs (Installer.run_trace c co o) = [(c, co, o)].
Proof. destruct o; reflexivity. Qed.

Lemma installer_runs_log lvl msg (l : list Installer.event) :
  Installer.runs (Installer.Log lvl msg :: l) = Installer.runs l.
Proof. reflexivity. Qed.

Lemma installer_runs_sleep d (l : list Installer.event) :
  Installer.runs (Installer.Sleep d :: l) = Installer.runs l.
Proof. reflexivity. Qed.

Lemma installer_runs_trace c co o (l : list Installer.event) :
  Installer.runs (Installer.run_trace c co o ++ l) = (c, co, o) :: Installer.runs l.
Proof. rewrite installer_runs_app, installer_run_trace_runs. reflexivity. Qed.

Lemma installer_runs_nil : Installer.runs [] = [].
Proof. reflexivity. Qed.

Ltac installer_runs :=
  repeat (rewrite <- ?app_comm_cons, ?installer_runs_log, ?installer_runs_sleep,
            ?installer_runs_trace, ?installer_runs_nil; cbn [app]);
  rewrite ?installer_runs_log, ?installer_runs_sleep, ?installer_runs_nil.

Section InstallerSteps.

Variable E : env.
Variable euid : Z.

Lemma installer_run_command_eq (c : string) (co : bool) (s : Installer.state) :
  Installer.run_command E c co s =
    (Ok (Installer.succeeded (env_exec E (Installer.tick s)), env_exec E (Installer.tick s)),
     Installer.mk_state (Installer.self s) (S (Installer.tick s)),
     Installer.run_trace c co (env_exec E (Installer.tick s))).
Proof.
  unfold Installer.run_command, Installer.bind, Installer.ask, Installer.emit,
    Installer.log, Installer.ret, Installer.run_trace.
  cbn [Installer.tick Installer.self].
  destruct (env_exec E (Installer.tick s)); reflexivity.
Qed.

Lemma is_app_installed_eq (key : string) (info : Installer.install_info) (s : Installer.state) :
  Installer.INSTALLATION_CONFIG !! key = Some info ->
  Installer.is_app_installed E key s =
    (Ok (Installer.succeeded (env_exec E (Installer.tick s))),
     Installer.mk_state (Installer.self s) (S (Installer.tick s)),
     Installer.run_trace (Installer.check_command info) true (env_exec E (Installer.tick s))).
Proof.
  intros H. unfold Installer.is_app_installed. rewrite H.
  rewrite (installer_bind_ok _ _ _ _ _ _ (installer_run_command_eq _ _ _)).
  unfold Installer.ret, Installer.outcome_of, Installer.final, Installer.events; simpl.
  rewrite ?app_nil_r. reflexivity.
Qed.

Lemma run_install_commands_cons (c : string) (rest : list string) (s : Installer.state) :
  let o := env_exec E (Installer.tick s) in
  let s1 := Installer.mk_state (Installer.self s) (S (Installer.tick s)) in
  let s2 := Installer.mk_state (Installer.self s) (S (S (Installer.tick s))) in
  let pre := Installer.Log INFO (Installer.MsgExecuting c) :: Installer.run_trace c false o in
  Installer.run_install_commands E (c :: rest) s =
    if Installer.succeeded o
    then
      if env_interrupt E (S (Installer.tick s))
      then (Raise KeyboardInterrupt, s2, pre ++ [Installer.Sleep (seconds 2)])
      else (Installer.outcome_of (Installer.run_install_commands E rest s2),
            Installer.final (Installer.run_install_commands E rest s2),
            pre ++ Installer.Sleep (seconds 2) ::
              Installer.events (Installer.run_install_commands E rest s2))
    else (Ok (Some false), s1,
          pre ++ [Installer.Log ERROR (Installer.MsgFailedToExecute c o)]).
Proof.
  cbv zeta. cbn [Installer.run_install_commands].
  unfold Installer.bind at 1. unfold Installer.log at 1, Installer.emit at 1.
  rewrite (installer_bind_ok _ _ _ _ _ _ (installer_run_command_eq _ _ _)).
  cbn [fst snd].
  destruct (Installer.succeeded (env_exec E (Installer.tick s))) eqn:Hs; cbn [negb].
  - unfold Installer.sleep.
    unfold Installer.bind, Installer.emit, Installer.ask, Installer.raise, Installer.ret.
    cbn [Installer.tick Installer.self].
    destruct (env_interrupt E (S (Installer.tick s))).
    + unfold Installer.outcome_of, Installer.final, Installer.events. simpl.
      rewrite ?app_nil_r. reflexivity.
    + destruct (Installer.run_install_commands E rest _) as [[r s'] t].
      unfold Installer.outcome_of, Installer.final, Installer.events. simpl.
      reflexivity.
  - unfold Installer.bind, Installer.log, Installer.emit, Installer.ret.
    unfold Installer.outcome_of, Installer.final, Installer.events. simpl.
    reflexivity.
Qed.

(** What the loop of [install_app] does. *)
Lemma run_install_commands_spec (cmds : list string) (s : Installer.state) :
  let x := Installer.run_install_commands E cmds s in
  let rs := Installer.runs (Installer.events x) in
  Installer.self (Installer.final x) = Installer.self s /\
  List.map (fun r => fst (fst r)) rs `prefix_of` cmds /\
  Forall Installer.run_plain rs /\
  match Installer.outcome_of x with
  | Ok None =>
      List.map (fun r => fst (fst r)) rs = cmds /\ Forall Installer.run_ok rs
  | Ok (Some v) =>
      v = false /\
      exists front r, rs = front ++ [r] /\ Forall Installer.run_ok front /\
                      Installer.succeeded (snd r) = false
  | Raise e =>
      e = KeyboardInterrupt /\ Forall Installer.run_ok rs /\ rs <> [] /\
      exists k, env_interrupt E k = true
  end.
Proof.
  cbv zeta. revert s. induction cmds as [|c rest IH]; intros s.
  - simpl. repeat split; auto; apply prefix_nil.
  - rewrite run_install_commands_cons. cbv zeta.
    destruct (Installer.succeeded (env_exec E (Installer.tick s))) eqn:Hs.
    + destruct (env_interrupt E (S (Installer.tick s))) eqn:Hi.
      * unfold Installer.outcome_of, Installer.final, Installer.events;
          cbn [fst snd Installer.self].
        installer_runs. cbn [List.map fst snd].
        split; [reflexivity|].
        split; [apply prefix_cons, prefix_nil|].
        split; [repeat constructor|].
        split; [reflexivity|].
        split; [repeat constructor; exact Hs|].
        split; [discriminate | eauto].
      * specialize (IH (Installer.mk_state (Installer.self s) (S (S (Installer.tick s))))).
        destruct IH as (Hself & Hpre & Hplain & Hout).
        destruct (Installer.run_install_commands E rest
                    (Installer.mk_state (Installer.self s) (S (S (Installer.tick s)))))
          as [[r s'] t].
        unfold Installer.outcome_of, Installer.final, Installer.events in *.
        cbn [fst snd Installer.self] in *.
        installer_runs. cbn [List.map fst snd].
        split; [exact Hself|].
        split; [apply prefix_cons; exact Hpre|].
        split; [constructor; [reflexivity | exact Hplain]|].
        destruct r as [[v|]|e].
        -- destruct Hout as (Hv & front & r0 & Hrs & Hfront & Hr).
           split; [exact Hv|].
           exists ((c, false, env_exec E (Installer.tick s)) :: front), r0.
           rewrite Hrs. split; [reflexivity|]. split; [|exact Hr].
           constructor; [exact Hs | exact Hfront].
        -- destruct Hout as (Hcmds & Hok). split.
           ++ f_equal. exact Hcmds.
           ++ constructor; [exact Hs | exact Hok].
        -- destruct Hout as (He & Hok & _ & Hk).
           split; [exact He|]. split; [constructor; [exact Hs | exact Hok]|].
           split; [discriminate | exact Hk].
    + unfold Installer.outcome_of, Installer.final, Installer.events;
        cbn [fst snd Installer.self].
      installer_runs. cbn [List.map fst snd].
      split; [reflexivity|].
      split; [apply prefix_cons, prefix_nil|].
      split; [repeat constructor|].
      split; [reflexivity|].
      exists [], (c, false, env_exec E (Installer.tick s)).
      split; [reflexivity|]. split; [constructor | exact Hs].
Qed.

End InstallerSteps.

Lemma installer_bind_log {B} lvl msg (k : unit -> Installer.M B) s :
  Installer.bind (Installer.log lvl msg) k s =
    (Installer.outcome_of (k tt s), Installer.final (k tt s),
     Installer.Log lvl msg :: Installer.events (k tt s)).
Proof.
  unfold Installer.bind, Installer.log, Installer.emit.
  destruct (k tt s) as [[r s2] t2]. reflexivity.
Qed.

Section InstallApp.

Variable E : env.

Lemma install_app_unknown (key : string) (s : Installer.state) :
  Installer.INSTALLATION_CONFIG !! key = None ->
  Installer.install_app E key s
    = (Ok true, s, [Installer.Log WARNING (Installer.MsgNoInstallationConfig key)]).
Proof.
  intros H. unfold Installer.install_app. rewrite H. reflexivity.
Qed.

(** The three ways through [install_app] for a configured application:
    found installed; installation left before its end; installation run
    to its end and checked. *)
Lemma install_app_cases (key : string) (info : Installer.install_info)
    (s : Installer.state) :
  Installer.INSTALLATION_CONFIG !! key = Some info ->
  let x := Installer.install_app E key s in
  let rs := Installer.runs (Installer.events x) in
  let check o := (Installer.check_command info, true, o) in
  (exists o, rs = [check o] /\ Installer.succeeded o = true /\
     Installer.outcome_of x = Ok true /\
     Installer.self (Installer.final x) = Installer.self s) \/
  (exists o0 mid, rs = check o0 :: mid /\ Installer.succeeded o0 = false /\
     Forall Installer.run_plain mid /\
     List.map (fun r => fst (fst r)) mid `prefix_of` Installer.install_commands info /\
     Installer.self (Installer.final x) = Installer.self s /\
     ((Installer.outcome_of x = Ok false /\
       exists front r, mid = front ++ [r] /\ Forall Installer.run_ok front /\
                       Installer.succeeded (snd r) = false) \/
      (Installer.outcome_of x = Raise KeyboardInterrupt /\
       Forall Installer.run_ok mid /\ mid <> [] /\
       exists k, env_interrupt E k = true))) \/
  (exists o0 mid o1, rs = check o0 :: mid ++ [check o1] /\
     Installer.succeeded o0 = false /\
     Forall Installer.run_plain mid /\ Forall Installer.run_ok mid /\
     List.map (fun r => fst (fst r)) mid = Installer.install_commands info /\
     Installer.outcome_of x = Ok (Installer.succeeded o1) /\
     Installer.self (Installer.final x)
       = if Installer.succeeded o1
         then Installer.append_installed key (Installer.self s)
         else Installer.self s).
Proof.
  intros Hcfg. cbv zeta. unfold Installer.install_app. rewrite Hcfg.
  rewrite (installer_bind_ok _ _ _ _ _ _ (is_app_installed_eq E key info s Hcfg)).
  set (o0 := env_exec E (Installer.tick s)).
  set (s1 := Installer.mk_state (Installer.self s) (S (Installer.tick s))).
  destruct (Installer.succeeded o0) eqn:H0.
  - left. exists o0.
    unfold Installer.bind, Installer.log, Installer.emit, Installer.ret,
      Installer.outcome_of, Installer.final, Installer.events; cbn [fst snd].
    installer_runs. auto.
  - right. rewrite installer_bind_log.
    pose proof (run_install_commands_spec E (Installer.install_commands info) s1) as Hloop.
    cbv zeta in Hloop.
    destruct (Installer.run_install_commands E (Installer.install_commands info) s1)
      as [[r s2] t] eqn:Hrun.
    unfold Installer.outcome_of, Installer.final, Installer.events in Hloop.
    cbn [fst snd] in Hloop.
    destruct Hloop as (Hself & Hpre & Hplain & Hout).
    destruct r as [[v|]|e].
    + (* return False inside the loop *)
      left. destruct Hout as (-> & front & r & Hrs & Hfront & Hr).
      rewrite (installer_bind_ok _ _ _ _ _ _ Hrun).
      exists o0, (Installer.runs t).
      unfold Installer.ret, Installer.outcome_of, Installer.final, Installer.events;
        cbn [fst snd].
      installer_runs. rewrite app_nil_r.
      split; [reflexivity|]. split; [exact H0|]. split; [exact Hplain|].
      split; [exact Hpre|]. split; [exact Hself|].
      left. split; [reflexivity|]. exists front, r. auto.
    + (* the loop ran to its end *)
      right. destruct Hout as (Hcmds & Hok).
      rewrite (installer_bind_ok _ _ _ _ _ _ Hrun).
      rewrite (installer_bind_ok _ _ _ _ _ _ (is_app_installed_eq E key info s2 Hcfg)).
      set (o1 := env_exec E (Installer.tick s2)).
      exists o0, (Installer.runs t), o1.
      destruct (Installer.succeeded o1) eqn:H1;
        unfold Installer.bind, Installer.log, Installer.emit, Installer.ret,
          Installer.modify_self, Installer.outcome_of, Installer.final, Installer.events;
        cbn [fst snd Installer.self Installer.tick];
        installer_runs; rewrite ?installer_runs_app; installer_runs;
        rewrite ?app_nil_r, ?installer_run_trace_runs;
        (split; [reflexivity|]); (split; [exact H0|]); (split; [exact Hplain|]);
        (split; [exact Hok|]); (split; [exact Hcmds|]);
        (split; [reflexivity|]); rewrite ?Hself; reflexivity.
    + (* Ctrl-C during a pause *)
      left. destruct Hout as (-> & Hok & Hne & Hk).
      rewrite (installer_bind_raise _ _ _ _ _ _ Hrun).
      exists o0, (Installer.runs t).
      unfold Installer.outcome_of, Installer.final, Installer.events; cbn [fst snd].
      installer_runs.
      split; [reflexivity|]. split; [exact H0|]. split; [exact Hplain|].
      split; [exact Hpre|]. split; [exact Hself|].
      right. auto.
Qed.

End InstallApp.

Lemma Forall_removelast {A} (P : A -> Prop) (l : list A) :
  Forall P l -> Forall P (removelast l).
Proof.
  induction 1 as [|x l Hx Hl IH]; [constructor|].
  simpl. destruct l; [constructor|]. constructor; assumption.
Qed.

Lemma removelast_cons_snoc {A} (a b : A) (l : list A) :
  removelast (a :: l ++ [b]) = a :: l.
Proof. rewrite app_comm_cons. apply removelast_last. Qed.

Lemma removelast_cons_cons {A} (a : A) (l : list A) :
  l <> [] -> removelast (a :: l) = a :: removelast l.
Proof. destruct l; [contradiction | reflexivity]. Qed.

Lemma goes_on_check c o :
  Installer.succeeded o = false -> Installer.goes_on (c, true, o).
Proof. intros H. unfold Installer.goes_on. simpl. exact H. Qed.

Lemma goes_on_install (l : list (string * bool * outcome)) :
  Forall Installer.run_plain l -> Forall Installer.run_ok l -> Forall Installer.goes_on l.
Proof.
  intros Hp Ho. induction Hp as [|r l Hr Hl IH]; [constructor|].
  inversion Ho; subst. constructor; [|auto].
  unfold Installer.goes_on. unfold Installer.run_plain in Hr.
  unfold Installer.run_ok in *. rewrite Hr. simpl. assumption.
Qed.

(** X15: for a configured application, [install_app] runs a non-empty
    prefix of the sequence: check command, install commands in the order
    of the list, check command. It goes from one command to the next only
    after a failed check or a successful install command, so that an
    install command that fails is the last command run. *)
Theorem install_app_stops_at_first_failure (E : env) (key : string)
    (info : Installer.install_info) (s : Installer.state) :
  Installer.INSTALLATION_CONFIG !! key = Some info ->
  let h := Installer.events (Installer.install_app E key s) in
  Installer.commands_run h `prefix_of`
    (Installer.check_command info :: Installer.install_commands info
       ++ [Installer.check_command info]) /\
  Installer.commands_run h <> [] /\
  Forall Installer.goes_on (removelast (Installer.runs h)).
Proof.
  intros Hcfg. cbv zeta. unfold Installer.commands_run.
  destruct (install_app_cases E key info s Hcfg)
    as [(o & -> & Ho & _) | [(o0 & mid & -> & H0 & Hplain & Hpre & _ & Hend)
                            | (o0 & mid & o1 & -> & H0 & Hplain & Hok & Hcmds & _)]].
  - simpl. split; [apply prefix_cons, prefix_nil|]. split; [discriminate | constructor].
  - cbn [List.map fst snd]. split; [apply prefix_cons, prefix_app_r, Hpre|].
    split; [discriminate|].
    destruct Hend as [(_ & front & r & -> & Hfront & Hr) | (_ & Hok & Hne & _)].
    + rewrite removelast_cons_snoc. constructor; [apply goes_on_check, H0|].
      apply goes_on_install; [|exact Hfront].
      apply Forall_app in Hplain. tauto.
    + rewrite (removelast_cons_cons _ _ Hne).
      constructor; [apply goes_on_check, H0|].
      apply Forall_removelast, goes_on_install; assumption.
  - cbn [List.map fst snd]. rewrite map_app, Hcmds. cbn [List.map fst snd].
    split; [reflexivity|]. split; [discriminate|].
    rewrite removelast_cons_snoc. constructor; [apply goes_on_check, H0|].
    apply goes_on_install; assumption.
Qed.

Lemma install_app_stops_at_first_failure_witness :
  let h := Installer.events (Installer.install_app failing "xdotool" (Installer.fresh 0)) in
  Installer.commands_run h `prefix_of`
    ["xdotool version"; "sudo apt update"; "sudo apt install -y xdotool"; "xdotool version"] /\
  Installer.commands_run h <> [] /\
  Forall Installer.goes_on (removelast (Installer.runs h)).
Proof.
  apply (install_app_stops_at_first_failure failing "xdotool"
           (Installer.mk_install "xdotool version"
              ["sudo apt update"; "sudo apt install -y xdotool"])
           (Installer.fresh 0)).
  vm_compute. reflexivity.
Defined.

(** X16: what the value returned by [install_app] means. For an
    application without installation config it is True, with no command
    run. For a configured application it is the success of the last
    command run, and True only when that command is the check command;
    the application is appended to [installed_apps] exactly when True is
    returned after more than one command, that is, after an installation
    that passed the final check. *)
Theorem install_app_verdict (E : env) (key : string) (s : Installer.state) (b : bool) :
  let x := Installer.install_app E key s in
  let rs := Installer.runs (Installer.events x) in
  Installer.outcome_of x = Ok b ->
  match Installer.INSTALLATION_CONFIG !! key with
  | None => b = true /\ rs = [] /\ Installer.self (Installer.final x) = Installer.self s
  | Some info =>
      (exists r, last rs = Some r /\ Installer.succeeded (snd r) = b /\
                 (b = true -> fst r = (Installer.check_command info, true))) /\
      Installer.installed_apps (Installer.self (Installer.final x))
        = if b && (1 <? length rs)%nat
          then Installer.installed_apps (Installer.self s) ++ [key]
          else Installer.installed_apps (Installer.self s)
  end.
Proof.
  cbv zeta. intros Hb.
  destruct (Installer.INSTALLATION_CONFIG !! key) as [info|] eqn:Hcfg.
  - destruct (install_app_cases E key info s Hcfg)
      as [(o & Hrs & Ho & Hout & Hself)
         | [(o0 & mid & Hrs & H0 & Hplain & Hpre & Hself & Hend)
           | (o0 & mid & o1 & Hrs & H0 & Hplain & Hok & Hcmds & Hout & Hself)]];
      rewrite Hrs, Hself.
    + rewrite Hout in Hb. injection Hb as <-. split.
      * eexists. split; [reflexivity|]. split; [exact Ho | reflexivity].
      * reflexivity.
    + destruct Hend as [(Hout & front & r & -> & Hfront & Hr) | (Hout & _)];
        rewrite Hout in Hb; [|discriminate].
      injection Hb as <-. split; [|reflexivity].
      exists r. rewrite app_comm_cons, last_snoc.
      split; [reflexivity|]. split; [exact Hr | discriminate].
    + rewrite Hout in Hb. injection Hb as <-. split.
      * eexists. rewrite app_comm_cons, last_snoc.
        split; [reflexivity|]. split; reflexivity.
      * assert (Hlen : (1 <? length ((Installer.check_command info, true, o0)
                          :: mid ++ [(Installer.check_command info, true, o1)]))%nat = true).
        { apply Nat.ltb_lt. simpl. rewrite length_app. simpl. lia. }
        rewrite Hlen, andb_true_r. destruct (Installer.succeeded o1); reflexivity.
  - rewrite (install_app_unknown E key s Hcfg) in *.
    unfold Installer.outcome_of, Installer.final, Installer.events in *; simpl in *.
    injection Hb as <-. auto.
Qed.

Lemma install_app_verdict_witness :
  let x := Installer.install_app (failing_until 1) "xdotool" (Installer.fresh 0) in
  let rs := Installer.runs (Installer.events x) in
  (exists r, last rs = Some r /\ Installer.succeeded (snd r) = true /\
             (true = true -> fst r = ("xdotool version", true))) /\
  Installer.installed_apps (Installer.self (Installer.final x))
    = if true && (1 <? length rs)%nat then [] ++ ["xdotool"] else [].
Proof.
  apply (install_app_verdict (failing_until 1) "xdotool" (Installer.fresh 0) true).
  vm_compute. reflexivity.
Defined.

(** X17: [install_app] raises only KeyboardInterrupt, only when Ctrl-C
    arrives during one of the pauses after an install command, and then
    [installed_apps] is left as it was; without Ctrl-C it returns. A
    command that fails or cannot be started never raises. *)
Theorem install_app_raises_only_on_interrupt (E : env) (key : string)
    (s : Installer.state) :
  let x := Installer.install_app E key s in
  (forall e, Installer.outcome_of x = Raise e ->
     e = KeyboardInterrupt /\ (exists k, env_interrupt E k = true) /\
     Installer.self (Installer.final x) = Installer.self s) /\
  ((forall k, env_interrupt E k = false) ->
     exists b, Installer.outcome_of x = Ok b).
Proof.
  cbv zeta.
  assert (Hraise : forall e, Installer.outcome_of (Installer.install_app E key s) = Raise e ->
     e = KeyboardInterrupt /\ (exists k, env_interrupt E k = true) /\
     Installer.self (Installer.final (Installer.install_app E key s)) = Installer.self s).
  { intros e He.
    destruct (Installer.INSTALLATION_CONFIG !! key) as [info|] eqn:Hcfg.
    - destruct (install_app_cases E key info s Hcfg)
        as [(o & _ & _ & Hout & _)
           | [(o0 & mid & _ & _ & _ & _ & Hself & Hend)
             | (o0 & mid & o1 & _ & _ & _ & _ & _ & Hout & _)]];
        try (rewrite Hout in He; discriminate).
      destruct Hend as [(Hout & _) | (Hout & _ & _ & Hk)]; rewrite Hout in He;
        [discriminate|].
      injection He as <-. auto.
    - rewrite (install_app_unknown E key s Hcfg) in He. discriminate. }
  split; [exact Hraise|].
  intros Hi. destruct (Installer.outcome_of (Installer.install_app E key s)) as [b|e] eqn:Hx.
  - eauto.
  - destruct (Hraise e eq_refl) as (_ & [k Hk] & _). rewrite Hi in Hk. discriminate.
Qed.

Lemma install_app_raises_only_on_interrupt_witness :
  exists b, Installer.outcome_of
              (Installer.install_app failing "docker" (Installer.fresh 0)) = Ok b.
Proof.
  apply (install_app_raises_only_on_interrupt failing "docker" (Installer.fresh 0)).
  reflexivity.
Defined.

(** ** [install_all_dependencies] *)

Lemma freshly_installed_mono (key : string) (rs pre post : list (string * bool * outcome)) :
  Installer.freshly_installed key rs ->
  Installer.freshly_installed key (pre ++ rs ++ post).
Proof.
  intros (info & o0 & o1 & Hcfg & H0 & Hf & H1 & Hs).
  exists info, o0, o1. rewrite !elem_of_app. tauto.
Qed.

Lemma known_command_check key info :
  Installer.INSTALLATION_CONFIG !! key = Some info ->
  Installer.known_command (Installer.check_command info).
Proof. intros H. right. exists key, info. auto. Qed.

Lemma known_command_install key info (l : list (string * bool * outcome)) :
  Installer.INSTALLATION_CONFIG !! key = Some info ->
  List.map (fun r => fst (fst r)) l `prefix_of` Installer.install_commands info ->
  Forall Installer.known_command (List.map (fun r => fst (fst r)) l).
Proof.
  intros Hcfg [rest Hrest]. apply Forall_forall. intros c Hc.
  right. exists key, info. split; [exact Hcfg|]. right.
  rewrite Hrest. apply elem_of_app. auto.
Qed.

Section InstallAll.

Variable E : env.

Lemma install_app_accounts (key : string) (s : Installer.state) :
  Installer.accounts_for E [key] s (Installer.install_app E key s).
Proof.
  unfold Installer.accounts_for, Installer.commands_run.
  destruct (Installer.INSTALLATION_CONFIG !! key) as [info|] eqn:Hcfg.
  - destruct (install_app_cases E key info s Hcfg)
      as [(o & Hrs & Ho & Hout & Hself)
         | [(o0 & mid & Hrs & H0 & Hplain & Hpre & Hself & Hend)
           | (o0 & mid & o1 & Hrs & H0 & Hplain & Hok & Hcmds & Hout & Hself)]];
      rewrite Hrs, Hself.
    + rewrite Hout. split; [|split; [|exact I]].
      * exists []. rewrite app_nil_r. split; [reflexivity|].
        split; [apply sublist_nil_l|]. intros a Ha. inversion Ha.
      * simpl. constructor; [apply (known_command_check key info Hcfg) | constructor].
    + split; [|split].
      * exists []. rewrite app_nil_r. split; [reflexivity|].
        split; [apply sublist_nil_l|]. intros a Ha. inversion Ha.
      * cbn [List.map fst snd]. constructor.
        -- apply (known_command_check key info Hcfg).
        -- apply (known_command_install key info mid Hcfg Hpre).
      * destruct Hend as [(Hout & _) | (Hout & _ & _ & Hk)]; rewrite Hout; auto.
    + rewrite Hout. split; [|split; [|exact I]].
      * destruct (Installer.succeeded o1) eqn:H1.
        -- exists [key]. split; [reflexivity|]. split; [reflexivity|].
           intros a Ha. apply list_elem_of_singleton in Ha. subst a.
           exists info, o0, o1. split; [exact Hcfg|].
           split; [apply list_elem_of_here|]. split; [exact H0|].
           split; [|exact H1].
           apply list_elem_of_further, elem_of_app. right. apply list_elem_of_here.
        -- exists []. rewrite app_nil_r. split; [reflexivity|].
           split; [apply sublist_nil_l|]. intros a Ha. inversion Ha.
      * cbn [List.map fst snd]. rewrite map_app. cbn [List.map fst snd].
        constructor; [apply (known_command_check key info Hcfg)|].
        apply Forall_app. split.
        -- apply (known_command_install key info mid Hcfg). rewrite Hcmds. reflexivity.
        -- constructor; [apply (known_command_check key info Hcfg) | constructor].
  - rewrite (install_app_unknown E key s Hcfg).
    unfold Installer.outcome_of, Installer.final, Installer.events; simpl.
    split; [|split; [constructor | exact I]].
    exists []. rewrite app_nil_r. split; [reflexivity|].
    split; [apply sublist_nil_l|]. intros a Ha. inversion Ha.
Qed.

Lemma install_one_eq (app : string) (s : Installer.state) :
  let y := Installer.install_app E app s in
  Installer.install_one E app s =
    match Installer.outcome_of y with
    | Ok ok =>
        (Ok tt, Installer.final y,
         Installer.events y ++
           if ok then [] else [Installer.Log WARNING (Installer.MsgFailedContinuing app)])
    | Raise e => (Raise e, Installer.final y, Installer.events y)
    end.
Proof.
  cbv zeta. unfold Installer.install_one, Installer.bind.
  destruct (Installer.install_app E app s) as [[[ok|e] s1] t];
    unfold Installer.outcome_of, Installer.final, Installer.events; cbn [fst snd];
    [|reflexivity].
  destruct ok; reflexivity.
Qed.

Lemma installer_runs_warning (t : list Installer.event) (b : bool) app :
  Installer.runs (t ++ if b then [] else [Installer.Log WARNING (Installer.MsgFailedContinuing app)])
    = Installer.runs t.
Proof. rewrite installer_runs_app. destruct b; simpl; apply app_nil_r. Qed.

Lemma install_one_accounts (app : string) (s : Installer.state) :
  Installer.accounts_for E [app] s (Installer.install_one E app s).
Proof.
  pose proof (install_app_accounts app s) as H.
  rewrite install_one_eq. cbv zeta.
  unfold Installer.accounts_for, Installer.commands_run in *.
  destruct (Installer.install_app E app s) as [[[ok|e] s1] t];
    unfold Installer.outcome_of, Installer.final, Installer.events in *;
    cbn [fst snd] in *; [|exact H].
  rewrite installer_runs_warning. exact H.
Qed.

Lemma accounts_for_each (keys : list string) (s : Installer.state) :
  Installer.accounts_for E keys s
    (Installer.for_each keys (Installer.install_one E) s).
Proof.
  revert s. induction keys as [|key rest IH]; intros s.
  - unfold Installer.accounts_for; simpl. split; [|split; [constructor | exact I]].
    exists []. rewrite app_nil_r. split; [reflexivity|].
    split; [reflexivity|]. intros a Ha. inversion Ha.
  - cbn [Installer.for_each]. pose proof (install_one_accounts key s) as H1.
    unfold Installer.bind.
    destruct (Installer.install_one E key s) as [[[[]|e] s1] t1].
    + specialize (IH s1).
      destruct (Installer.for_each rest (Installer.install_one E) s1) as [[r s2] t2].
      unfold Installer.accounts_for, Installer.commands_run,
        Installer.outcome_of, Installer.final, Installer.events in *.
      cbn [fst snd] in *.
      destruct H1 as ((l1 & Hl1 & Hsub1 & Hfresh1) & Hknown1 & _).
      destruct IH as ((l2 & Hl2 & Hsub2 & Hfresh2) & Hknown2 & Hout).
      split; [|split; [|exact Hout]].
      * exists (l1 ++ l2). rewrite Hl2, Hl1, app_assoc. split; [reflexivity|].
        split.
        -- change (key :: rest) with ([key] ++ rest). apply sublist_app; assumption.
        -- intros a Ha. rewrite installer_runs_app. apply elem_of_app in Ha.
           destruct Ha as [Ha|Ha].
           ++ apply (freshly_installed_mono a _ [] _). exact (Hfresh1 a Ha).
           ++ rewrite <- (app_nil_r (Installer.runs t2)).
              apply freshly_installed_mono. exact (Hfresh2 a Ha).
      * rewrite installer_runs_app, map_app. apply Forall_app. auto.
    + unfold Installer.accounts_for, Installer.commands_run,
        Installer.outcome_of, Installer.final, Installer.events in *.
      cbn [fst snd] in *.
      destruct H1 as ((l1 & Hl1 & Hsub1 & Hfresh1) & Hknown1 & Hout).
      split; [|split; assumption].
      exists l1. split; [exact Hl1|]. split; [|exact Hfresh1].
      etransitivity; [exact Hsub1|]. apply sublist_skip, sublist_nil_l.
Qed.

Lemma install_all_dependencies_no_root (euid : Z) (s : Installer.state) :
  euid <> 0 ->
  Installer.install_all_dependencies E euid s
    = (Ok false, s, [Installer.Log ERROR Installer.MsgRootRequired]).
Proof.
  intros H. unfold Installer.install_all_dependencies, Installer.check_root_privileges.
  unfold Installer.bind at 1. unfold Installer.ret at 1.
  destruct (Z.eqb_spec euid 0); [contradiction|]. reflexivity.
Qed.

Lemma install_all_dependencies_root (s : Installer.state) :
  let o := env_exec E (Installer.tick s) in
  let s1 := Installer.mk_state (Installer.self s) (S (Installer.tick s)) in
  let y := Installer.for_each Installer.apps_to_install (Installer.install_one E) s1 in
  let pre := Installer.Log INFO Installer.MsgUpdatingSystem ::
             Installer.run_trace "sudo apt update" false o in
  Installer.install_all_dependencies E 0 s =
    match Installer.outcome_of y with
    | Ok _ =>
        (Ok true, Installer.final y,
         pre ++ Installer.events y ++
           [Installer.Log INFO
              (Installer.MsgInstallationComplete
                 (Installer.installed_apps (Installer.self (Installer.final y))))])
    | Raise e => (Raise e, Installer.final y, pre ++ Installer.events y)
    end.
Proof.
  cbv zeta. unfold Installer.install_all_dependencies, Installer.check_root_privileges.
  unfold Installer.bind at 1. unfold Installer.ret at 1. cbn [Z.eqb negb].
  rewrite installer_bind_log.
  rewrite (installer_bind_ok _ _ _ _ _ _ (installer_run_command_eq E _ _ _)).
  unfold Installer.bind.
  destruct (Installer.for_each Installer.apps_to_install (Installer.install_one E) _)
    as [[[[]|e] s2] t2];
    unfold Installer.get_self, Installer.log, Installer.emit, Installer.ret,
      Installer.outcome_of, Installer.final, Installer.events; cbn [fst snd];
    reflexivity.
Qed.

End InstallAll.

(** X18: the value returned by [install_all_dependencies] tells whether
    the process is root, and nothing about the installations: as root it
    returns True whatever the commands did, without root it returns
    False after one log record, having run nothing. It raises only
    KeyboardInterrupt, on a Ctrl-C during a pause. *)
Theorem install_all_dependencies_reports_root_only (E : env) (euid : Z)
    (s : Installer.state) :
  let x := Installer.install_all_dependencies E euid s in
  (forall b, Installer.outcome_of x = Ok b -> b = (euid =? 0)) /\
  (forall e, Installer.outcome_of x = Raise e ->
     e = KeyboardInterrupt /\ exists k, env_interrupt E k = true) /\
  ((forall k, env_interrupt E k = false) -> Installer.outcome_of x = Ok (euid =? 0)) /\
  (euid <> 0 ->
     Installer.events x = [Installer.Log ERROR Installer.MsgRootRequired] /\
     Installer.final x = s).
Proof.
  cbv zeta. destruct (Z.eq_dec euid 0) as [->|Hne].
  - rewrite install_all_dependencies_root. cbv zeta.
    pose proof (accounts_for_each E Installer.apps_to_install
                  (Installer.mk_state (Installer.self s) (S (Installer.tick s)))) as H.
    destruct H as (_ & _ & Hout).
    destruct (Installer.outcome_of (Installer.for_each _ _ _)) as [[]|e];
      unfold Installer.outcome_of at 1 2 3; cbn [fst snd].
    + split; [intros b Hb; injection Hb as <-; reflexivity|].
      split; [intros e He; discriminate|].
      split; [reflexivity | intros Hc; contradiction].
    + destruct Hout as (-> & k & Hk).
      split; [intros b Hb; discriminate|].
      split; [intros e He; injection He as <-; eauto|].
      split; [intros Hi; rewrite Hi in Hk; discriminate | intros Hc; contradiction].
  - rewrite (install_all_dependencies_no_root E euid s Hne).
    unfold Installer.outcome_of, Installer.final, Installer.events; cbn [fst snd].
    destruct (Z.eqb_spec euid 0); [contradiction|].
    split; [intros b Hb; injection Hb as <-; reflexivity|].
    split; [intros e He; discriminate|]. auto.
Qed.

Lemma install_all_dependencies_reports_root_only_witness :
  Installer.outcome_of
    (Installer.install_all_dependencies failing 0 (Installer.fresh 0)) = Ok (0 =? 0).
Proof.
  apply (install_all_dependencies_reports_root_only failing 0 (Installer.fresh 0)).
  reflexivity.
Defined.

(** X19: every command that [install_all_dependencies] runs is the
    system update 'sudo apt update' or the check command or an install
    command of an entry of [INSTALLATION_CONFIG]; as root the first
    command is the system update. *)
Theorem installer_runs_only_known_commands (E : env) (euid : Z) (s : Installer.state) :
  let h := Installer.events (Installer.install_all_dependencies E euid s) in
  Forall Installer.known_command (Installer.commands_run h) /\
  (euid = 0 -> head (Installer.commands_run h) = Some "sudo apt update").
Proof.
  cbv zeta. destruct (Z.eq_dec euid 0) as [->|Hne].
  - rewrite install_all_dependencies_root. cbv zeta.
    pose proof (accounts_for_each E Installer.apps_to_install
                  (Installer.mk_state (Installer.self s) (S (Installer.tick s)))) as H.
    destruct H as (_ & Hknown & _).
    unfold Installer.commands_run in *.
    destruct (Installer.outcome_of (Installer.for_each _ _ _)) as [[]|e];
      unfold Installer.events at 1 2; cbn [fst snd];
      installer_runs; rewrite ?installer_runs_app; installer_runs;
      rewrite ?app_nil_r; cbn [List.map fst snd head];
      (split; [|reflexivity]);
      (constructor; [left; reflexivity | exact Hknown]).
  - rewrite (install_all_dependencies_no_root E euid s Hne).
    unfold Installer.events; cbn [fst snd]. split; [constructor | contradiction].
Qed.

Lemma installer_runs_only_known_commands_witness :
  head (Installer.commands_run
          (Installer.events
             (Installer.install_all_dependencies failing 0 (Installer.fresh 0))))
    = Some "sudo apt update".
Proof.
  apply (installer_runs_only_known_commands failing 0 (Installer.fresh 0)).
  reflexivity.
Defined.

(** X20: [installed_apps] only grows, by applications of the fixed list
    in the order of that list, and only by applications whose check
    command failed and then passed during this run: an application found
    already installed is not listed. When the function returns True its
    last log record reports that list. *)
Theorem installed_apps_lists_fresh_installs (E : env) (euid : Z) (s : Installer.state) :
  let x := Installer.install_all_dependencies E euid s in
  (exists l',
     Installer.installed_apps (Installer.self (Installer.final x))
       = Installer.installed_apps (Installer.self s) ++ l' /\
     l' `sublist_of` Installer.apps_to_install /\
     forall a, a ∈ l' ->
       Installer.freshly_installed a (Installer.runs (Installer.events x))) /\
  (Installer.outcome_of x = Ok true ->
   last (Installer.events x)
     = Some (Installer.Log INFO
               (Installer.MsgInstallationComplete
                  (Installer.installed_apps (Installer.self (Installer.final x)))))).
Proof.
  cbv zeta. destruct (Z.eq_dec euid 0) as [->|Hne].
  - rewrite install_all_dependencies_root. cbv zeta.
    pose proof (accounts_for_each E Installer.apps_to_install
                  (Installer.mk_state (Installer.self s) (S (Installer.tick s)))) as H.
    destruct H as ((l' & Hl & Hsub & Hfresh) & _ & _).
    set (y := Installer.for_each Installer.apps_to_install (Installer.install_one E) _) in *.
    set (pre := Installer.Log INFO Installer.MsgUpdatingSystem :: _).
    destruct (Installer.outcome_of y) as [[]|e];
      unfold Installer.outcome_of at 1, Installer.final at 1 2, Installer.events at 1 2;
      cbn [fst snd].
    + split.
      * exists l'. split; [exact Hl|]. split; [exact Hsub|].
        intros a Ha. rewrite installer_runs_app. rewrite installer_runs_app.
        apply (freshly_installed_mono a _ (Installer.runs pre) _), Hfresh, Ha.
      * intros _. rewrite app_assoc. apply last_snoc.
    + split; [|intros Hc; discriminate].
      exists l'. split; [exact Hl|]. split; [exact Hsub|].
      intros a Ha. rewrite installer_runs_app.
      rewrite <- (app_nil_r (Installer.runs (Installer.events y))).
      apply (freshly_installed_mono a _ (Installer.runs pre) _), Hfresh, Ha.
  - rewrite (install_all_dependencies_no_root E euid s Hne).
    unfold Installer.outcome_of, Installer.final, Installer.events; cbn [fst snd].
    split; [|intros Hc; discriminate].
    exists []. rewrite app_nil_r. split; [reflexivity|].
    split; [apply sublist_nil_l|]. intros a Ha. inversion Ha.
Qed.

Lemma installed_apps_lists_fresh_installs_witness :
  let x := Installer.install_all_dependencies (failing_until 2) 0 (Installer.fresh 0) in
  last (Installer.events x)
    = Some (Installer.Log INFO
              (Installer.MsgInstallationComplete
                 (Installer.installed_apps (Installer.self (Installer.final x))))).
Proof.
  apply (installed_apps_lists_fresh_installs (failing_until 2) 0 (Installer.fresh 0)).
  vm_compute. reflexivity.
Defined.

(** * The configuration manager *)

Lemma bind_singleton_map {A B} (f : A -> B) (l : list A) :
  (x ← l; [f x]) = List.map f l.
Proof. induction l as [|a l IH]; [reflexivity|]. cbn. rewrite IH. reflexivity. Qed.

Lemma prefix_slash_cons (a : ascii) (x : string) :
  String.prefix "/" (String a x) = if Ascii.ascii_dec "/" a then true else false.
Proof.
  change (String.prefix "/" (String a x))
    with (if Ascii.ascii_dec "/" a then String.prefix "" x else false).
  destruct (Ascii.ascii_dec "/" a); [|reflexivity]. destruct x; reflexivity.
Qed.

Lemma startswith_slash_append (s t : string) :
  ConfigManager.startswith s "/" = true ->
  ConfigManager.startswith (s +:+ t) "/" = true.
Proof.
  unfold ConfigManager.startswith. destruct s as [|a s]; [discriminate|].
  change (String a s +:+ t) with (String a (s +:+ t)).
  rewrite !prefix_slash_cons. auto.
Qed.

Lemma path_join_absolute (a b : string) :
  ConfigManager.startswith b "/" = true -> ConfigManager.path_join a b = b.
Proof. intros H. unfold ConfigManager.path_join. rewrite H. reflexivity. Qed.

Section FindConfigFile.

Variable USER_CONFIG_DIR : string.
Variable path_exists : string -> bool.

Lemma find_in_dir_spec (config_dir : string) (names : list string) :
  match ConfigManager.find_in_dir path_exists config_dir names with
  | Some p =>
      exists before after,
        List.map (ConfigManager.path_join config_dir) names = before ++ p :: after /\
        path_exists p = true /\
        Forall (fun q => path_exists q = false) before
  | None =>
      Forall (fun q => path_exists q = false)
        (List.map (ConfigManager.path_join config_dir) names)
  end.
Proof.
  induction names as [|name rest IH]; [constructor|].
  cbn [ConfigManager.find_in_dir List.map].
  destruct (path_exists (ConfigManager.path_join config_dir name)) eqn:Hp.
  - exists [], (List.map (ConfigManager.path_join config_dir) rest). auto.
  - destruct (ConfigManager.find_in_dir path_exists config_dir rest) as [p|].
    + destruct IH as (before & after & Heq & Hex & Hno).
      exists (ConfigManager.path_join config_dir name :: before), after.
      rewrite Heq. auto.
    + constructor; assumption.
Qed.

Lemma find_in_dirs_spec (dirs names : list string) :
  let all := config_dir ← dirs; name ← names; [ConfigManager.path_join config_dir name] in
  match ConfigManager.find_in_dirs path_exists dirs names with
  | Some p =>
      exists before after,
        all = before ++ p :: after /\
        path_exists p = true /\
        Forall (fun q => path_exists q = false) before
  | None => Forall (fun q => path_exists q = false) all
  end.
Proof.
  cbv zeta. induction dirs as [|d rest IH]; [constructor|].
  cbn [ConfigManager.find_in_dirs]. rewrite bind_cons, bind_singleton_map.
  pose proof (find_in_dir_spec d names) as Hd.
  destruct (ConfigManager.find_in_dir path_exists d names) as [p|].
  - destruct Hd as (before & after & Heq & Hex & Hno).
    exists before, (after ++ (config_dir ← rest; name ← names;
                              [ConfigManager.path_join config_dir name])).
    rewrite Heq, <- app_assoc. auto.
  - destruct (ConfigManager.find_in_dirs path_exists rest names) as [p|].
    + destruct IH as (before & after & Heq & Hex & Hno).
      exists (List.map (ConfigManager.path_join d) names ++ before), after.
      rewrite Heq, <- app_assoc. split; [reflexivity|]. split; [exact Hex|].
      apply Forall_app. auto.
    + apply Forall_app. auto.
Qed.

End FindConfigFile.

(** X21: [find_config_file] returns the first existing path in the order
    of the search: directory by directory (the default directory, the
    system directory, the directory of the user), and in each directory
    the names '<name>.json', '<name>_config.json', 'user_<name>.json'.
    It returns None exactly when none of the nine paths exists, and logs
    one record exactly when it returns a path. *)
Theorem find_config_file_first_match (USER_CONFIG_DIR : string)
    (path_exists : string -> bool) (config_name : string) :
  let r := ConfigManager.find_config_file USER_CONFIG_DIR path_exists config_name in
  let all := ConfigManager.candidates USER_CONFIG_DIR config_name in
  match fst r with
  | Some p =>
      (exists before after,
         all = before ++ p :: after /\ path_exists p = true /\
         Forall (fun q => path_exists q = false) before) /\
      snd r = [(INFO, ConfigManager.MsgFoundConfigFile p)]
  | None =>
      Forall (fun q => path_exists q = false) all /\ snd r = []
  end.
Proof.
  cbv zeta. unfold ConfigManager.find_config_file, ConfigManager.candidates.
  pose proof (find_in_dirs_spec path_exists (ConfigManager.config_paths USER_CONFIG_DIR)
                (ConfigManager.possible_names config_name)) as H.
  cbv zeta in H.
  destruct (ConfigManager.find_in_dirs _ _ _) as [p|]; cbn [fst snd]; auto.
Qed.

Lemma relative_possible_names (config_name name : string) :
  ConfigManager.startswith config_name "/" = false ->
  name ∈ ConfigManager.possible_names config_name ->
  ConfigManager.startswith name "/" = false.
Proof.
  unfold ConfigManager.startswith, ConfigManager.possible_names. intros Hrel Hin.
  assert (Happ : forall t, String.prefix "/" t = false ->
            String.prefix "/" (config_name +:+ t) = false).
  { intros t Ht. destruct config_name as [|a s]; [exact Ht|].
    change (String a s +:+ t) with (String a (s +:+ t)).
    rewrite prefix_slash_cons in *. exact Hrel. }
  repeat (apply elem_of_cons in Hin; destruct Hin as [->|Hin]).
  - apply Happ. reflexivity.
  - apply Happ. reflexivity.
  - reflexivity.
  - inversion Hin.
Qed.

Lemma path_join_default_dir (name : string) :
  ConfigManager.startswith name "/" = false ->
  ConfigManager.path_join ConfigManager.DEFAULT_CONFIG_DIR name
    = "/opt/linux_agent/configs/" +:+ name.
Proof.
  intros H. unfold ConfigManager.path_join. rewrite H. reflexivity.
Qed.

(** X22: the default directory comes first. For a configuration name
    that does not begin with '/': when one of the three names exists in
    /opt/linux_agent/configs, the path returned is
    '/opt/linux_agent/configs/' followed by one of the three names,
    whatever the system directory and the directory of the user hold. *)
Theorem default_directory_shadows_the_others (USER_CONFIG_DIR : string)
    (path_exists : string -> bool) (config_name : string) (name : string) :
  ConfigManager.startswith config_name "/" = false ->
  name ∈ ConfigManager.possible_names config_name ->
  path_exists ("/opt/linux_agent/configs/" +:+ name) = true ->
  exists name',
    name' ∈ ConfigManager.possible_names config_name /\
    fst (ConfigManager.find_config_file USER_CONFIG_DIR path_exists config_name)
      = Some ("/opt/linux_agent/configs/" +:+ name').
Proof.
  intros Hrel Hin Hex.
  unfold ConfigManager.find_config_file, ConfigManager.config_paths.
  cbn [ConfigManager.find_in_dirs].
  assert (Hdir : exists name',
            name' ∈ ConfigManager.possible_names config_name /\
            ConfigManager.find_in_dir path_exists ConfigManager.DEFAULT_CONFIG_DIR
              (ConfigManager.possible_names config_name)
            = Some ("/opt/linux_agent/configs/" +:+ name')).
  { pose proof (relative_possible_names config_name) as Hall.
    revert Hin Hall. generalize (ConfigManager.possible_names config_name) as names.
    induction names as [|n rest IH]; intros Hin Hall; [inversion Hin|].
    cbn [ConfigManager.find_in_dir].
    rewrite (path_join_default_dir n) by (apply Hall; [exact Hrel | apply list_elem_of_here]).
    destruct (path_exists ("/opt/linux_agent/configs/" +:+ n)) eqn:Hn.
    - exists n. split; [apply list_elem_of_here | reflexivity].
    - apply elem_of_cons in Hin. destruct Hin as [->|Hin]; [congruence|].
      destruct (IH Hin) as (n' & Hn' & Heq).
      { intros m Hr Hm. apply Hall; [exact Hr | apply list_elem_of_further, Hm]. }
      exists n'. split; [apply list_elem_of_further, Hn' | exact Heq]. }
  destruct Hdir as (name' & Hin' & Heq). exists name'. rewrite Heq. auto.
Qed.

Lemma default_directory_shadows_the_others_witness :
  exists name',
    name' ∈ ConfigManager.possible_names "alice" /\
    fst (ConfigManager.find_config_file "/home/alice/.config/activity_agent"
           (ConfigManager.only_files
              ["/home/alice/.config/activity_agent/alice.json";
               "/opt/linux_agent/configs/user_alice.json"])
           "alice")
      = Some ("/opt/linux_agent/configs/" +:+ name').
Proof.
  apply (default_directory_shadows_the_others "/home/alice/.config/activity_agent"
           (ConfigManager.only_files
              ["/home/alice/.config/activity_agent/alice.json";
               "/opt/linux_agent/configs/user_alice.json"])
           "alice" "user_alice.json").
  - reflexivity.
  - vm_compute. apply list_elem_of_further, list_elem_of_further, list_elem_of_here.
  - vm_compute. reflexivity.
Defined.

(** X23: a configuration name that begins with '/' is looked up as an
    absolute path: [os.path.join] drops the directory, so when
    '<name>.json' exists it is returned, outside the three configuration
    directories. *)
Theorem absolute_name_leaves_the_directories (USER_CONFIG_DIR : string)
    (path_exists : string -> bool) (config_name : string) :
  ConfigManager.startswith config_name "/" = true ->
  path_exists (config_name +:+ ".json") = true ->
  ConfigManager.find_config_file USER_CONFIG_DIR path_exists config_name
    = (Some (config_name +:+ ".json"),
       [(INFO, ConfigManager.MsgFoundConfigFile (config_name +:+ ".json"))]).
Proof.
  intros Habs Hex.
  unfold ConfigManager.find_config_file, ConfigManager.config_paths,
    ConfigManager.possible_names.
  cbn [ConfigManager.find_in_dirs ConfigManager.find_in_dir].
  rewrite (path_join_absolute _ _ (startswith_slash_append _ ".json" Habs)), Hex.
  reflexivity.
Qed.

Lemma absolute_name_leaves_the_directories_witness :
  ConfigManager.find_config_file "/home/alice/.config/activity_agent"
    (ConfigManager.only_files ["/tmp/other.json"]) "/tmp/other"
    = (Some "/tmp/other.json", [(INFO, ConfigManager.MsgFoundConfigFile "/tmp/other.json")]).
Proof.
  apply (absolute_name_leaves_the_directories "/home/alice/.config/activity_agent"
           (ConfigManager.only_files ["/tmp/other.json"]) "/tmp/other").
  - reflexivity.
  - vm_compute. reflexivity.
Defined.

(** X24: [validate_config] never logs its warning. The three required
    fields are present in every validated configuration, from the
    defaults when the file does not give them; a key of the file keeps
    the value of the file (as a whole: nested dictionaries are not
    merged), every other key has its default; validating a validated
    configuration changes nothing. *)
Theorem validate_config_never_warns (config : gmap string ConfigManager.pyval) :
  let validated := fst (ConfigManager.validate_config config) in
  snd (ConfigManager.validate_config config) = [] /\
  (forall field, field ∈ ConfigManager.required_fields -> is_Some (validated !! field)) /\
  (forall k v, config !! k = Some v -> validated !! k = Some v) /\
  (forall k, config !! k = None ->
     validated !! k = ConfigManager.DEFAULT_USER_CONFIG !! k) /\
  ConfigManager.validate_config validated = ConfigManager.validate_config config.
Proof.
  cbv zeta.
  assert (Hreq : forall field, field ∈ ConfigManager.required_fields ->
            is_Some ((config ∪ ConfigManager.DEFAULT_USER_CONFIG) !! field)).
  { intros field Hf. apply lookup_union_is_Some. right.
    unfold ConfigManager.required_fields in Hf.
    repeat (apply elem_of_cons in Hf; destruct Hf as [->|Hf]);
      [vm_compute; eauto .. | inversion Hf]. }
  assert (Hsnd : snd (ConfigManager.validate_config config) = []).
  { unfold ConfigManager.validate_config. cbn [snd].
    generalize Hreq. generalize ConfigManager.required_fields as fields.
    induction fields as [|f rest IH]; intros Hall; [reflexivity|].
    rewrite bind_cons.
    destruct (decide (is_Some ((config ∪ ConfigManager.DEFAULT_USER_CONFIG) !! f)))
      as [_|Hn].
    - simpl. apply IH. intros g Hg. apply Hall, list_elem_of_further, Hg.
    - exfalso. apply Hn, Hall, list_elem_of_here. }
  split; [exact Hsnd|]. split; [exact Hreq|].
  split; [|split].
  - intros k v Hk. unfold ConfigManager.validate_config. cbn [fst].
    apply lookup_union_Some_l, Hk.
  - intros k Hk. unfold ConfigManager.validate_config. cbn [fst].
    apply lookup_union_r, Hk.
  - unfold ConfigManager.validate_config. cbn [fst].
    rewrite <- (assoc_L (∪)), (idemp_L (∪)). reflexivity.
Qed.

(** ** [load_config] *)

Lemma validated_has_required (d : gmap string ConfigManager.pyval) (field : string) :
  field ∈ ConfigManager.required_fields ->
  is_Some (fst (ConfigManager.validate_config d) !! field).
Proof.
  intros Hf. unfold ConfigManager.validate_config. cbn [fst].
  apply lookup_union_is_Some. right.
  unfold ConfigManager.required_fields in Hf.
  repeat (apply elem_of_cons in Hf; destruct Hf as [->|Hf]);
    [vm_compute; eauto .. | inversion Hf].
Qed.

Lemma default_has_required (field : string) :
  field ∈ ConfigManager.required_fields ->
  is_Some (ConfigManager.DEFAULT_USER_CONFIG !! field).
Proof.
  intros Hf. unfold ConfigManager.required_fields in Hf.
  repeat (apply elem_of_cons in Hf; destruct Hf as [->|Hf]);
    [vm_compute; eauto .. | inversion Hf].
Qed.

Lemma append_nonempty (s t : string) : t <> "" -> s +:+ t <> "".
Proof. intros Ht. destruct s; [exact Ht | discriminate]. Qed.

Lemma path_join_nonempty (a b : string) : b <> "" -> ConfigManager.path_join a b <> "".
Proof.
  intros Hb. unfold ConfigManager.path_join.
  destruct (ConfigManager.startswith b "/"); [exact Hb|].
  destruct (_ || _).
  - apply append_nonempty, Hb.
  - apply append_nonempty. discriminate.
Qed.

Section LoadConfig.

Variable USER_CONFIG_DIR : string.
Variable path_exists : string -> bool.
Variable listdir : string -> option (list string).
Variable read_json : string -> option ConfigManager.pyval.
Variable update_accepts : ConfigManager.pyval -> bool.

Local Notation "'find'" := (ConfigManager.find_config_file USER_CONFIG_DIR path_exists).
Local Notation "'load'" :=
  (ConfigManager.load_config USER_CONFIG_DIR path_exists listdir read_json update_accepts).
Local Notation "'try_load'" := (ConfigManager.try_load read_json update_accepts).

Lemma find_in_dir_nonempty (config_dir : string) (names : list string) (p : string) :
  Forall (fun n => n <> "") names ->
  ConfigManager.find_in_dir path_exists config_dir names = Some p -> p <> "".
Proof.
  induction 1 as [|n rest Hn _ IH]; [discriminate|].
  cbn [ConfigManager.find_in_dir].
  destruct (path_exists (ConfigManager.path_join config_dir n)).
  - intros [= <-]. apply path_join_nonempty, Hn.
  - exact IH.
Qed.

Lemma find_config_file_nonempty (config_name p : string) :
  fst (find config_name) = Some p -> p <> "".
Proof.
  unfold ConfigManager.find_config_file.
  destruct (ConfigManager.find_in_dirs path_exists _ _) as [q|] eqn:Hq;
    cbn [fst]; [|discriminate].
  intros [= <-]. revert Hq.
  assert (Hnames : Forall (fun n => n <> "") (ConfigManager.possible_names config_name)).
  { unfold ConfigManager.possible_names.
    repeat constructor; repeat apply append_nonempty; discriminate. }
  generalize (ConfigManager.config_paths USER_CONFIG_DIR) as dirs.
  induction dirs as [|d rest IH]; [discriminate|].
  cbn [ConfigManager.find_in_dirs].
  destruct (ConfigManager.find_in_dir path_exists d _) as [q'|] eqn:Hd.
  - intros [= <-]. exact (find_in_dir_nonempty d _ _ Hnames Hd).
  - exact IH.
Qed.

Lemma try_load_required (path : string) (msg : ConfigManager.message)
    (d : gmap string ConfigManager.pyval) (field : string) :
  fst (try_load path msg) = Some (ConfigManager.Config d) ->
  field ∈ ConfigManager.required_fields -> is_Some (d !! field).
Proof.
  unfold ConfigManager.try_load. destruct (read_json path) as [v|]; [|discriminate].
  cbn [fst]. unfold ConfigManager.validate_loaded.
  destruct v; try (destruct (update_accepts _); discriminate).
  cbn [fst]. intros [= <-]. apply validated_has_required.
Qed.

Lemma load_from_files_required (config_dir : string) (files : list string)
    (d : gmap string ConfigManager.pyval) (field : string) :
  fst (ConfigManager.load_from_files read_json update_accepts config_dir files)
    = Some (ConfigManager.Config d) ->
  field ∈ ConfigManager.required_fields -> is_Some (d !! field).
Proof.
  induction files as [|file rest IH]; [discriminate|].
  cbn [ConfigManager.load_from_files].
  destruct (ConfigManager.endswith file ".json"); [|exact IH].
  destruct (try_load _ _) as [[c|] logs] eqn:Ht.
  - cbn [fst]. intros [= ->].
    apply (try_load_required (ConfigManager.path_join config_dir file)
             (ConfigManager.MsgAutoLoaded (ConfigManager.path_join config_dir file))).
    rewrite Ht. reflexivity.
  - cbn [fst]. exact IH.
Qed.

(** What the search through the directories can give. *)
Lemma load_from_dirs_spec (dirs : list string) :
  let r := fst (ConfigManager.load_from_dirs path_exists listdir read_json update_accepts dirs) in
  r <> ConfigManager.Return None /\
  (forall d field, r = ConfigManager.Return (Some (ConfigManager.Config d)) ->
     field ∈ ConfigManager.required_fields -> is_Some (d !! field)) /\
  (r = ConfigManager.RaiseOSError ->
     exists config_dir, config_dir ∈ dirs /\ path_exists config_dir = true /\
                        listdir config_dir = None) /\
  ((forall config_dir, config_dir ∈ dirs -> path_exists config_dir = false) ->
     r = ConfigManager.Return (Some (ConfigManager.Config ConfigManager.DEFAULT_USER_CONFIG))).
Proof.
  cbv zeta. induction dirs as [|config_dir rest IH].
  - cbn. split; [discriminate|]. split; [|split; [discriminate | reflexivity]].
    intros d field [= <-]. apply default_has_required.
  - destruct IH as (IH1 & IH2 & IH3 & IH4).
    cbn [ConfigManager.load_from_dirs].
    destruct (path_exists config_dir) eqn:Hex.
    + destruct (listdir config_dir) as [files|] eqn:Hls.
      * destruct (ConfigManager.load_from_files _ _ _ _) as [[c|] logs] eqn:Hf; cbn [fst].
        -- split; [discriminate|]. split; [|split; [discriminate|]].
           ++ intros d field [= ->].
              apply (load_from_files_required config_dir files). rewrite Hf. reflexivity.
           ++ intros Hall. rewrite (Hall config_dir) in Hex by apply list_elem_of_here.
              discriminate.
        -- split; [exact IH1|]. split; [exact IH2|]. split.
           ++ intros Hr. destruct (IH3 Hr) as (d' & Hin & H1 & H2).
              exists d'. split; [apply list_elem_of_further, Hin | auto].
           ++ intros Hall. rewrite (Hall config_dir) in Hex by apply list_elem_of_here.
              discriminate.
      * cbn [fst]. split; [discriminate|]. split; [discriminate|]. split.
        -- intros _. exists config_dir. split; [apply list_elem_of_here | auto].
        -- intros Hall. rewrite (Hall config_dir) in Hex by apply list_elem_of_here.
           discriminate.
    + split; [exact IH1|]. split; [exact IH2|]. split.
      * intros Hr. destruct (IH3 Hr) as (d' & Hin & H1 & H2).
        exists d'. split; [apply list_elem_of_further, Hin | auto].
      * intros Hall. apply IH4. intros d' Hd'. apply Hall, list_elem_of_further, Hd'.
Qed.

Lemma load_config_unnamed_eq :
  load None = ConfigManager.load_from_dirs path_exists listdir read_json update_accepts
                (ConfigManager.config_paths USER_CONFIG_DIR).
Proof. reflexivity. Qed.

Lemma load_config_found (config_name p : string) :
  config_name <> "" ->
  fst (find config_name) = Some p ->
  fst (load (Some config_name))
    = ConfigManager.Return (fst (try_load p (ConfigManager.MsgLoadedConfig p))).
Proof.
  intros Hname Hfound. unfold ConfigManager.load_config.
  cbn [ConfigManager.truthy from_option id].
  destruct (String.eqb_spec config_name ""); [contradiction|]. cbn [negb].
  rewrite Hfound. cbn [ConfigManager.truthy from_option id].
  destruct (String.eqb_spec p "") as [->|_];
    [exfalso; exact (find_config_file_nonempty config_name "" Hfound eq_refl)|].
  cbn [negb]. destruct (try_load p _) as [[c|] logs]; reflexivity.
Qed.

Lemma load_config_not_found (config_name : string) :
  fst (find config_name) = None ->
  fst (load (Some config_name)) = fst (load None).
Proof.
  intros Hfound. unfold ConfigManager.load_config.
  cbn [ConfigManager.truthy from_option id].
  destruct (negb (String.eqb config_name "")); [|reflexivity].
  rewrite Hfound. reflexivity.
Qed.

End LoadConfig.

(** X27: a named configuration file that is found decides the result of
    [load_config] alone: its configuration if it can be loaded, None if
    it cannot; no directory is listed and the defaults are not used. A
    name for which no file is found plays no role: the result is that of
    [load_config] without a name, which may be the configuration of any
    other file. *)
Theorem load_config_named (USER_CONFIG_DIR : string) (path_exists : string -> bool)
    (listdir : string -> option (list string))
    (read_json : string -> option ConfigManager.pyval)
    (update_accepts : ConfigManager.pyval -> bool) (config_name : string) :
  config_name <> "" ->
  let load := ConfigManager.load_config USER_CONFIG_DIR path_exists listdir read_json
                update_accepts in
  match fst (ConfigManager.find_config_file USER_CONFIG_DIR path_exists config_name) with
  | Some p =>
      fst (load (Some config_name))
        = ConfigManager.Return
            (fst (ConfigManager.try_load read_json update_accepts p
                    (ConfigManager.MsgLoadedConfig p)))
  | None => fst (load (Some config_name)) = fst (load None)
  end.
Proof.
  intros Hname. cbv zeta.
  destruct (fst (ConfigManager.find_config_file USER_CONFIG_DIR path_exists config_name))
    as [p|] eqn:Hfound.
  - apply load_config_found; assumption.
  - apply load_config_not_found; assumption.
Qed.

Lemma load_config_named_witness :
  let load := ConfigManager.load_config "/home/alice/.config/activity_agent"
                (ConfigManager.only_files ["/etc/activity_agent"])
                (fun _ => Some ["bob.json"])
                (fun _ => Some (ConfigManager.PyDict {["username" := ConfigManager.PyStr "bob"]}))
                (fun _ => false) in
  fst (load (Some "alice")) = fst (load None).
Proof.
  apply (load_config_named "/home/alice/.config/activity_agent"
           (ConfigManager.only_files ["/etc/activity_agent"])
           (fun _ => Some ["bob.json"])
           (fun _ => Some (ConfigManager.PyDict {["username" := ConfigManager.PyStr "bob"]}))
           (fun _ => false) "alice").
  discriminate.
Defined.

(** X28: [load_config] returns None only for a named file that was found
    and could not be loaded; it raises only when a configuration
    directory exists and cannot be listed; a dictionary that it returns
    (made from a JSON object, or the defaults) has the three required
    fields; when no configuration directory exists and no named file is
    found, it returns the defaults. *)
Theorem load_config_result (USER_CONFIG_DIR : string) (path_exists : string -> bool)
    (listdir : string -> option (list string))
    (read_json : string -> option ConfigManager.pyval)
    (update_accepts : ConfigManager.pyval -> bool) (config_name : option string) :
  let r := fst (ConfigManager.load_config USER_CONFIG_DIR path_exists listdir read_json
                  update_accepts config_name) in
  let found := fst (ConfigManager.find_config_file USER_CONFIG_DIR path_exists
                      (default "" config_name)) in
  (r = ConfigManager.Return None ->
     ConfigManager.truthy config_name = true /\
     exists p, found = Some p /\
       fst (ConfigManager.try_load read_json update_accepts p
              (ConfigManager.MsgLoadedConfig p)) = None) /\
  (r = ConfigManager.RaiseOSError ->
     exists config_dir,
       config_dir ∈ ConfigManager.config_paths USER_CONFIG_DIR /\
       path_exists config_dir = true /\ listdir config_dir = None) /\
  (forall d field, r = ConfigManager.Return (Some (ConfigManager.Config d)) ->
     field ∈ ConfigManager.required_fields -> is_Some (d !! field)) /\
  ((forall p, path_exists p = false) ->
     r = ConfigManager.Return (Some (ConfigManager.Config ConfigManager.DEFAULT_USER_CONFIG))).
Proof.
  cbv zeta.
  pose proof (load_from_dirs_spec path_exists listdir read_json update_accepts
                (ConfigManager.config_paths USER_CONFIG_DIR)) as Hdirs.
  cbv zeta in Hdirs. destruct Hdirs as (D1 & D2 & D3 & D4).
  destruct config_name as [name|]; [|cbn [from_option id]; rewrite load_config_unnamed_eq].
  - cbn [from_option id]. destruct (String.eqb_spec name "") as [->|Hname].
    + (* the empty name counts as no name *)
      change (ConfigManager.load_config USER_CONFIG_DIR path_exists listdir read_json
                update_accepts (Some ""))
        with (ConfigManager.load_from_dirs path_exists listdir read_json update_accepts
                (ConfigManager.config_paths USER_CONFIG_DIR)).
      split; [intros H; contradiction|]. split; [exact D3|]. split; [exact D2|].
      intros Hno. apply D4. intros d _. apply Hno.
    + destruct (fst (ConfigManager.find_config_file USER_CONFIG_DIR path_exists name))
        as [p|] eqn:Hfound.
      * rewrite (load_config_found _ _ _ _ _ name p Hname Hfound).
        split; [|split; [discriminate|split]].
        -- intros [= Hnone]. split.
           ++ cbn. destruct (String.eqb_spec name ""); [contradiction | reflexivity].
           ++ exists p. auto.
        -- intros d field [= Hd]. apply (try_load_required read_json update_accepts p
                                            (ConfigManager.MsgLoadedConfig p)). exact Hd.
        -- intros Hno. exfalso.
           pose proof (find_in_dirs_spec path_exists
                         (ConfigManager.config_paths USER_CONFIG_DIR)
                         (ConfigManager.possible_names name)) as Hf.
           cbv zeta in Hf. unfold ConfigManager.find_config_file in Hfound.
           destruct (ConfigManager.find_in_dirs path_exists _ _) as [q|];
             [|discriminate Hfound].
           destruct Hf as (_ & _ & _ & Hex & _). rewrite Hno in Hex. discriminate.
      * rewrite (load_config_not_found _ _ _ _ _ name Hfound), load_config_unnamed_eq.
        split; [intros H; contradiction|]. split; [exact D3|]. split; [exact D2|].
        intros Hno. apply D4. intros d _. apply Hno.
  - split; [intros H; contradiction|]. split; [exact D3|]. split; [exact D2|].
    intros Hno. apply D4. intros d _. apply Hno.
Qed.

Lemma load_config_result_witness :
  fst (ConfigManager.load_config "/home/alice/.config/activity_agent"
         (fun _ => false) (fun _ => None) (fun _ => None) (fun _ => false) (Some "alice"))
    = ConfigManager.Return (Some (ConfigManager.Config ConfigManager.DEFAULT_USER_CONFIG)).
Proof.
  apply (load_config_result "/home/alice/.config/activity_agent"
           (fun _ => false) (fun _ => None) (fun _ => None) (fun _ => false) (Some "alice")).
  reflexivity.
Defined.

(** * Autostart *)

Lemma string_eqb_false_neq (a b : string) : String.eqb a b = false -> a <> b.
Proof. apply String.eqb_neq. Qed.

Ltac autostart_leaf :=
  repeat match goal with
  | |- _ /\ _ => split
  | |- Forall _ [] => constructor
  | |- Forall _ (_ :: _) => constructor
  | |- Autostart.worked _ => reflexivity
  | |- Autostart.proper _ => first [exact I | apply string_eqb_false_neq; assumption]
  | |- _ ∈ _ :: _ => first [apply list_elem_of_here | apply list_elem_of_further]
  | |- exists op, _ = Some (op, false) /\ _ => eexists; split; [reflexivity | reflexivity]
  | |- forall _, _ => intros
  | H : _ ∈ [] |- _ => inversion H
  | H : (_, _) ∈ _ :: _ |- _ => apply elem_of_cons in H; destruct H as [H|H]
  | H : (_, _) = (_, _) |- _ => injection H as ? ?; subst
  | H : Autostart.is_systemctl _ = true |- _ => discriminate H
  | |- _ = _ => reflexivity
  end.

(** X25: [setup_autostart] never raises and stops at the first operation
    that fails. It returns True only when every operation worked, ending
    with 'systemctl enable'; it returns None, neither True nor False,
    when the write of the unit file is what failed (the failure is
    logged by [create_service_file]); it returns False when any other
    operation failed. systemctl is only run after the unit file was
    written, and the program is never copied onto itself. *)
Theorem setup_autostart_verdict (works : nat -> bool) (current_path : string)
    (make_config_dir : bool) (k : nat) :
  let x := Autostart.setup_autostart works current_path make_config_dir k in
  let ops := Autostart.operations (Autostart.events x) in
  Forall Autostart.worked (removelast ops) /\
  Forall Autostart.proper ops /\
  (forall op w, (op, w) ∈ ops -> Autostart.is_systemctl op = true ->
     (Autostart.WriteFile Autostart.service_path Autostart.service_content, true) ∈ ops) /\
  match Autostart.value_of x with
  | Some (Some true) =>
      Forall Autostart.worked ops /\
      last ops = Some (Autostart.Systemctl ["enable"; "activity-agent.service"], true)
  | Some (Some false) =>
      exists op, last ops = Some (op, false) /\ Autostart.is_write op = false
  | Some None =>
      last ops = Some (Autostart.WriteFile Autostart.service_path Autostart.service_content,
                       false)
  | None => False
  end.
Proof.
  cbv zeta.
  unfold Autostart.setup_autostart, Autostart.create_service_file.
  change (ConfigManager.path_join "/opt/linux_agent" "configs")
    with "/opt/linux_agent/configs".
  change (ConfigManager.path_join "/opt/linux_agent" "activity_agent")
    with "/opt/linux_agent/activity_agent".
  generalize Autostart.service_content as content. intros content.
  generalize Autostart.service_path as path. intros path.
  unfold Autostart.try_except, Autostart.bind, Autostart.when, Autostart.attempt,
    Autostart.log, Autostart.ret, Autostart.value_of, Autostart.events.
  destruct make_config_dir;
  destruct (String.eqb current_path "/usr/local/bin/activity_agent") eqn:E1;
  destruct (String.eqb current_path "/opt/linux_agent/activity_agent") eqn:E2;
  cbn [negb];
  repeat (match goal with
          | |- context [works ?n] => destruct (works n) eqn:?
          end; cbn [fst snd app Autostart.operations omap]);
  cbn; autostart_leaf.
Qed.

(** ** A working iteration at the end of a session *)

Section WorkingRotation.

Variable E : env.
Variable cfg : agent_config.
Hypothesis no_interrupt : forall k, env_interrupt E k = false.

Local Notation "'Never'" := (fun (_ : state) (_ : list event) => False).




End WorkingRotation.



(** * The command line *)

Section CommandLineFacts.

Variable E : env.
Variable cfg : agent_config.
Variable fuel : nat.



End CommandLineFacts.




